(** * one_Ten: serial pin sampling, NDJSON logging and the acquisition service

    A shallow embedding of the Python sources [serial_reader.py],
    [json_logger.py], [plot_pins.py] (the log reader) and [services.py],
    followed by the properties of the natural-language specification.

    Conventions.
    - Python [str] values are [string]s whose characters are read as code
      points below 256; over that range the whitespace and decimal-digit
      classes below are the ones of [str.strip], [str.isspace] and [int].
    - Python integers are [Z] (unbounded; the interpreter's optional limit
      on the length of decimal conversions is not part of the model).
    - A Python exception is a value of an inductive type and a call that
      can raise returns a [res]. *)

From Stdlib Require Import ZArith NArith Ascii String List Bool Lia.
From stdpp Require Import base option list gmap strings.

#[local] Open Scope Z_scope.
#[local] Set Warnings "-register-all".

(** ** Results of calls that may raise *)

Inductive res (E A : Type) : Type :=
| Ok (a : A)
| Raise (e : E).
Arguments Ok {E A} a.
Arguments Raise {E A} e.

(** ** Text: the [str] methods the sources use *)

Module Text.

Definition nl : ascii := "010"%char.
Definition cr : ascii := "013"%char.
Definition dquote : ascii := "034"%char.
Definition backslash : ascii := "092"%char.

Definition str1 (c : ascii) : string := String c EmptyString.

Definition is_empty (s : string) : bool :=
  match s with EmptyString => true | String _ _ => false end.

(** [str.isspace] on one code point below 256. *)
Definition is_space (c : ascii) : bool :=
  let n := N_of_ascii c in
  (((9 <=? n) && (n <=? 13)) || ((28 <=? n) && (n <=? 32))
   || (n =? 133) || (n =? 160))%N.

Fixpoint lstrip (s : string) : string :=
  match s with
  | EmptyString => EmptyString
  | String c r => if is_space c then lstrip r else s
  end.

Fixpoint rstrip (s : string) : string :=
  match s with
  | EmptyString => EmptyString
  | String c r =>
      let r' := rstrip r in
      if is_space c && is_empty r' then EmptyString else String c r'
  end.

(** [s.strip()] *)
Definition strip (s : string) : string := rstrip (lstrip s).

(** [s.split(sep)] for a one-character separator; [cur] is the field
    being collected. *)
Fixpoint split_from (sep : ascii) (cur s : string) : list string :=
  match s with
  | EmptyString => [cur]
  | String c r =>
      if Ascii.eqb c sep then cur :: split_from sep EmptyString r
      else split_from sep (cur +:+ str1 c) r
  end.

Definition split (sep : ascii) (s : string) : list string :=
  split_from sep EmptyString s.

(** [s.endswith(suffix)] and [s[:-1]] *)
Fixpoint endswith1 (s : string) (c : ascii) : bool :=
  match s with
  | EmptyString => false
  | String a EmptyString => Ascii.eqb a c
  | String _ r => endswith1 r c
  end.

Fixpoint drop_last (s : string) : string :=
  match s with
  | EmptyString => EmptyString
  | String _ EmptyString => EmptyString
  | String a r => String a (drop_last r)
  end.

(** Decimal digits. *)
Definition digit_val (c : ascii) : option N :=
  let n := N_of_ascii c in
  if ((48 <=? n) && (n <=? 57))%N then Some (n - 48)%N else None.

Definition digit_of (d : N) : ascii := ascii_of_N (48 + d mod 10).

(** The digits of [int(...)]: [digit ("_"? digit)*]. [prev] tells whether
    the previous character was a digit. *)
Fixpoint int_digits (s : string) (acc : Z) (prev : bool) : option Z :=
  match s with
  | EmptyString => if prev then Some acc else None
  | String c r =>
      match digit_val c with
      | Some d => int_digits r (10 * acc + Z.of_N d) true
      | None =>
          if Ascii.eqb c "_"%char && prev then int_digits r acc false
          else None
      end
  end.

(** The number of digit characters of a text. *)
Fixpoint count_digits (s : string) : N :=
  match s with
  | EmptyString => 0%N
  | String c r =>
      match digit_val c with
      | Some _ => N.succ (count_digits r)
      | None => count_digits r
      end
  end.

(** [sys.int_info.default_max_str_digits]: [int()] raises a [ValueError]
    on a literal with more digit characters than this (leading zeros
    count, underscores do not), and [str()] on a number with more
    digits. *)
Definition max_str_digits : N := 4300.

(** [int(s)] on a [str]: surrounding whitespace, an optional sign, then
    the digits, at most [max_str_digits] of them; [None] stands for the
    [ValueError] it raises. *)
Definition py_int (s : string) : option Z :=
  let t := strip s in
  if (max_str_digits <? count_digits t)%N then None
  else
    match t with
    | String "-"%char r => Z.opp <$> int_digits r 0 false
    | String "+"%char r => int_digits r 0 false
    | _ => int_digits t 0 false
    end.

End Text.

(** ** Line Codec: [serial_reader.parse_line] *)

Module LineCodec.
Import Text.

Inductive parse_exn :=
| ValueError_odd_fields (parts : list string)
| ValueError_int (literal : string)
| IndexError.

(** The specification's [MalformedLine] is Python's [ValueError]. *)
Definition MalformedLine (e : parse_exn) : Prop :=
  match e with
  | ValueError_odd_fields _ | ValueError_int _ => True
  | IndexError => False
  end.

(** [[p.strip() for p in line.split(",") if p.strip() != ""]] *)
Definition tokens (line : string) : list string :=
  map strip
    (List.filter (fun p => negb (is_empty (strip p))) (split ","%char line)).

(** The loop [for i in range(0, len(parts), 2)] over the remaining
    tokens. *)
Fixpoint parse_pairs (parts : list string) (out : gmap Z Z)
  : res parse_exn (gmap Z Z) :=
  match parts with
  | [] => Ok out
  | pin_s :: rest =>
      match py_int pin_s with
      | None => Raise (ValueError_int pin_s)
      | Some pin =>
          match rest with
          | [] => Raise IndexError
          | val_s :: rest' =>
              match py_int val_s with
              | None => Raise (ValueError_int val_s)
              | Some val => parse_pairs rest' (<[pin := val]> out)
              end
          end
      end
  end.

Definition parse_line (line : string) : res parse_exn (gmap Z Z) :=
  let parts := tokens line in
  if negb (Nat.eqb (length parts mod 2) 0)
  then Raise (ValueError_odd_fields parts)
  else parse_pairs parts ∅.

End LineCodec.

(** ** Exceptions that reach a caller *)

Inductive exn :=
| RuntimeError (msg : string)
| SerialException (msg : string)
| OSError (msg : string).

(** [str(e)] *)
Definition exn_str (e : exn) : string :=
  match e with RuntimeError m | SerialException m | OSError m => m end.

(** ** Pin Sample: [serial_reader.PinStates] *)

Record PinStates := { states : gmap Z Z }.

(** [get(pin, default)] *)
Definition get (self : PinStates) (pin : Z) (default : option Z) : option Z :=
  match states self !! pin with Some v => Some v | None => default end.
Definition d4 (self : PinStates) : option Z := states self !! 4.
Definition d5 (self : PinStates) : option Z := states self !! 5.
Definition d6 (self : PinStates) : option Z := states self !! 6.
Definition d7 (self : PinStates) : option Z := states self !! 7.

(** ** Sample Source: [serial_reader.ArduinoPinMonitor] *)

Module SampleSource.
Import Text LineCodec.

(** The device side of the serial line. [readline()] hands out what is
    already in the input buffer, then what the device sends; each item is
    the bytes returned by one call (none at a timeout) or the message of
    the [SerialException] that call raises. A silent device times out. *)
Inductive rx_event :=
| RxBytes (raw : list Byte.byte)
| RxFail (msg : string).

Record Port := {
  open_error : option string;      (* [serial.Serial(...)] raises *)
  reset_fails : bool;              (* [reset_input_buffer()] raises *)
  buffered : list rx_event;        (* pending before the port is ready *)
  incoming : list rx_event;
  os_open : bool                   (* the OS handle is held *)
}.

Definition set_os_open (b : bool) (p : Port) : Port :=
  {| open_error := open_error p; reset_fails := reset_fails p;
     buffered := buffered p; incoming := incoming p; os_open := b |}.

Definition drop_buffered (p : Port) : Port :=
  {| open_error := open_error p; reset_fails := reset_fails p;
     buffered := []; incoming := incoming p; os_open := os_open p |}.

(** [self._ser.readline()] *)
Definition readline (p : Port) : rx_event * Port :=
  match buffered p with
  | ev :: rest =>
      (ev, {| open_error := open_error p; reset_fails := reset_fails p;
              buffered := rest; incoming := incoming p;
              os_open := os_open p |})
  | [] =>
      match incoming p with
      | ev :: rest =>
          (ev, {| open_error := open_error p; reset_fails := reset_fails p;
                  buffered := []; incoming := rest; os_open := os_open p |})
      | [] => (RxBytes [], p)
      end
  end.

(** The [serial.Serial] object held in [_ser]. *)
Record Serial := { is_open : bool }.

Record ArduinoPinMonitor := {
  port : string;
  baud : Z;
  reset_input_buffer_on_open : bool;
  _ser : option Serial
}.

Definition set_ser (o : option Serial) (self : ArduinoPinMonitor)
  : ArduinoPinMonitor :=
  {| port := port self; baud := baud self;
     reset_input_buffer_on_open := reset_input_buffer_on_open self;
     _ser := o |}.

(** [ArduinoPinMonitor(port, baud)]; the read timeout and the start-up
    delay only pace the calls and are not part of the state. *)
Definition new (port_name : string) (baud_rate : Z) : ArduinoPinMonitor :=
  {| port := port_name; baud := baud_rate;
     reset_input_buffer_on_open := true; _ser := None |}.

(** [self._ser and self._ser.is_open] *)
Definition ser_is_open (self : ArduinoPinMonitor) : bool :=
  match _ser self with Some ser => is_open ser | None => false end.

Definition open (self : ArduinoPinMonitor) (p : Port)
  : res exn unit * ArduinoPinMonitor * Port :=
  if ser_is_open self then (Ok tt, self, p)
  else
    match open_error p with
    | Some msg => (Raise (SerialException msg), self, p)
    | None =>
        let self' := set_ser (Some {| is_open := true |}) self in
        let p' := set_os_open true p in
        if reset_input_buffer_on_open self
        then (Ok tt, self',
               if reset_fails p' then p' else drop_buffered p')
        else (Ok tt, self', p')
    end.

Definition close (self : ArduinoPinMonitor) (p : Port)
  : ArduinoPinMonitor * Port :=
  match _ser self with
  | Some _ => (set_ser None self, set_os_open false p)
  | None => (self, p)
  end.

Definition not_open_msg : string :=
  "Serial port is not open. Call open() first.".

Section Decoder.
(** [raw.decode("utf-8", errors="replace")] is the interpreter's; the
    development is parametric in it. *)
Variable decode : list Byte.byte -> string.

Definition read_states (self : ArduinoPinMonitor) (p : Port)
  : res exn (option PinStates) * Port :=
  if negb (ser_is_open self) then (Raise (RuntimeError not_open_msg), p)
  else
    match readline p with
    | (RxFail msg, p') => (Raise (SerialException msg), p')
    | (RxBytes raw, p') =>
        if Nat.eqb (length raw) 0 then (Ok None, p')
        else
          let line := strip (decode raw) in
          if is_empty line then (Ok None, p')
          else
            match parse_line line with
            | Ok m => (Ok (Some {| states := m |}), p')
            | Raise _ => (Ok None, p')
            end
    end.
End Decoder.

End SampleSource.

(** ** Decimal formatting: [str(int)], ["%0wd"] and [str.replace] *)

Module Fmt.
Import Text.

(** The [w] low decimal digits of [n], most significant first. *)
Fixpoint digits_w (w : nat) (n : N) : string :=
  match w with
  | O => EmptyString
  | S w' => String (digit_of (n / 10 ^ N.of_nat w')) (digits_w w' n)
  end.

Fixpoint ndigits_fuel (fuel : nat) (n : N) : nat :=
  match fuel with
  | O => 1
  | S f => if (n <? 10)%N then 1%nat else S (ndigits_fuel f (n / 10))
  end.

(** Number of decimal digits of [n] (one for zero). *)
Definition ndigits (n : N) : nat := ndigits_fuel (N.to_nat (N.size n)) n.

(** [str(n)] for [n >= 0] *)
Definition decimal (n : N) : string := digits_w (ndigits n) n.

(** ["%0wd" % n] for [n >= 0] *)
Definition pad0 (w : nat) (n : N) : string :=
  digits_w (Nat.max w (ndigits n)) n.

(** [str(z)], for [z] of at most [max_str_digits] digits: [str()] raises
    on a longer one, which [int()] never yields. *)
Definition Zdecimal (z : Z) : string :=
  if z <? 0 then String "-"%char (decimal (Z.to_N (- z)))
  else decimal (Z.to_N z).

(** [s.replace(old, new)] for a non-empty [old]; [skip] counts the
    characters of a match that are still to be passed over. *)
Fixpoint replace_from (old new : string) (skip : nat) (s : string) : string :=
  match s with
  | EmptyString => EmptyString
  | String c r =>
      match skip with
      | S k => replace_from old new k r
      | O =>
          if String.prefix old s
          then new +:+ replace_from old new (String.length old - 1) r
          else String c (replace_from old new 0 r)
      end
  end.

Definition replace (old new s : string) : string := replace_from old new 0 s.

End Fmt.

(** ** JSON: the values, [json.dumps(..., separators=(",", ":"))] and
    [json.loads] *)

Module Json.
Import Text Fmt.

Inductive json :=
| JNull
| JBool (b : bool)
| JInt (z : Z)
| JFloat (literal : string)
| JStr (s : string)
| JArr (items : list json)
| JObj (members : list (string * json)).

(** [d[k] = v] on a [dict] kept in insertion order. *)
Fixpoint dict_set (k : string) (v : json) (d : list (string * json))
  : list (string * json) :=
  match d with
  | [] => [(k, v)]
  | (k', v') :: rest =>
      if String.eqb k' k then (k', v) :: rest
      else (k', v') :: dict_set k v rest
  end.

(** [d.get(k)], with [None] for a missing key. *)
Fixpoint dict_get (k : string) (d : list (string * json)) : option json :=
  match d with
  | [] => None
  | (k', v') :: rest => if String.eqb k' k then Some v' else dict_get k rest
  end.

Definition hex_digit (n : N) : ascii :=
  if (n <? 10)%N then ascii_of_N (48 + n) else ascii_of_N (87 + n).

(** One character of a string literal, as [ensure_ascii] writes it. *)
Definition escape_char (c : ascii) : string :=
  let n := N_of_ascii c in
  if Ascii.eqb c dquote then String backslash (str1 dquote)
  else if Ascii.eqb c backslash then String backslash (str1 backslash)
  else if (n =? 8)%N then String backslash "b"
  else if (n =? 12)%N then String backslash "f"
  else if (n =? 10)%N then String backslash "n"
  else if (n =? 13)%N then String backslash "r"
  else if (n =? 9)%N then String backslash "t"
  else if ((32 <=? n) && (n <=? 126))%N then str1 c
  else String backslash
         (String "u" (String "0" (String "0"
            (String (hex_digit (n / 16)) (str1 (hex_digit (n mod 16))))))).

Fixpoint escape (s : string) : string :=
  match s with
  | EmptyString => EmptyString
  | String c r => escape_char c +:+ escape r
  end.

Definition quote (s : string) : string :=
  String dquote (escape s +:+ str1 dquote).

Fixpoint join (sep : string) (l : list string) : string :=
  match l with
  | [] => EmptyString
  | [x] => x
  | x :: rest => x +:+ sep +:+ join sep rest
  end.

Fixpoint dumps (v : json) : string :=
  match v with
  | JNull => "null"
  | JBool true => "true"
  | JBool false => "false"
  | JInt z => Zdecimal z
  | JFloat lit => lit
  | JStr s => quote s
  | JArr items => "[" +:+ join "," (map dumps items) +:+ "]"
  | JObj members =>
      "{" +:+ join "," (map (fun kv => quote (fst kv) +:+ ":" +:+ dumps (snd kv))
                          members) +:+ "}"
  end.

(** *** The decoder *)

Definition is_json_ws (c : ascii) : bool :=
  let n := N_of_ascii c in ((n =? 32) || (n =? 9) || (n =? 10) || (n =? 13))%N.

Fixpoint skip_ws (s : string) : string :=
  match s with
  | EmptyString => EmptyString
  | String c r => if is_json_ws c then skip_ws r else s
  end.

Definition hex_val (c : ascii) : option N :=
  let n := N_of_ascii c in
  if ((48 <=? n) && (n <=? 57))%N then Some (n - 48)%N
  else if ((97 <=? n) && (n <=? 102))%N then Some (n - 87)%N
  else if ((65 <=? n) && (n <=? 70))%N then Some (n - 55)%N
  else None.

(** The code point of [\uXXXX], when it is below 256. *)
Definition hex4 (a b c d : ascii) : option ascii :=
  match hex_val a, hex_val b, hex_val c, hex_val d with
  | Some x, Some y, Some z, Some w =>
      let n := (((x * 16 + y) * 16 + z) * 16 + w)%N in
      if (n <? 256)%N then Some (ascii_of_N n) else None
  | _, _, _, _ => None
  end.

Definition unescape1 (e : ascii) : option ascii :=
  if Ascii.eqb e dquote then Some dquote
  else if Ascii.eqb e backslash then Some backslash
  else if Ascii.eqb e "/"%char then Some "/"%char
  else if Ascii.eqb e "b"%char then Some "008"%char
  else if Ascii.eqb e "f"%char then Some "012"%char
  else if Ascii.eqb e "n"%char then Some nl
  else if Ascii.eqb e "r"%char then Some cr
  else if Ascii.eqb e "t"%char then Some "009"%char
  else None.

(** The body of a string literal, after its opening quote: the decoded
    text and what follows the closing quote. *)
Fixpoint scan_string (s : string) : option (string * string) :=
  match s with
  | EmptyString => None
  | String c r =>
      if Ascii.eqb c dquote then Some (EmptyString, r)
      else if Ascii.eqb c backslash then
        match r with
        | String e r1 =>
            if Ascii.eqb e "u"%char then
              match r1 with
              | String h1 (String h2 (String h3 (String h4 r2))) =>
                  match hex4 h1 h2 h3 h4, scan_string r2 with
                  | Some a, Some (t, rest) => Some (String a t, rest)
                  | _, _ => None
                  end
              | _ => None
              end
            else
              match unescape1 e, scan_string r1 with
              | Some a, Some (t, rest) => Some (String a t, rest)
              | _, _ => None
              end
        | EmptyString => None
        end
      else if (N_of_ascii c <? 32)%N then None
      else
        match scan_string r with
        | Some (t, rest) => Some (String c t, rest)
        | None => None
        end
  end.

Definition is_digit (c : ascii) : bool :=
  match digit_val c with Some _ => true | None => false end.

Fixpoint span_digits (s : string) : string * string :=
  match s with
  | EmptyString => (EmptyString, EmptyString)
  | String c r =>
      if is_digit c
      then let '(d, rest) := span_digits r in (String c d, rest)
      else (EmptyString, s)
  end.

Fixpoint digits_value (s : string) (acc : N) : N :=
  match s with
  | EmptyString => acc
  | String c r =>
      digits_value r (10 * acc + match digit_val c with Some d => d | None => 0 end)
  end.

(** [0|[1-9]\d*] *)
Definition int_part (s : string) : string * string :=
  match s with
  | EmptyString => (EmptyString, EmptyString)
  | String c r => if Ascii.eqb c "0"%char then (str1 c, r) else span_digits s
  end.

(** [(\.\d+)?] *)
Definition frac_part (s : string) : string * string :=
  match s with
  | String c r =>
      if Ascii.eqb c "."%char then
        let '(d, rest) := span_digits r in
        if is_empty d then (EmptyString, s) else (String c d, rest)
      else (EmptyString, s)
  | EmptyString => (EmptyString, s)
  end.

(** [([eE][-+]?\d+)?] *)
Definition exp_part (s : string) : string * string :=
  match s with
  | String c r =>
      if Ascii.eqb c "e"%char || Ascii.eqb c "E"%char then
        let '(sg, r1) :=
          match r with
          | String c2 r2 =>
              if Ascii.eqb c2 "+"%char || Ascii.eqb c2 "-"%char
              then (str1 c2, r2) else (EmptyString, r)
          | EmptyString => (EmptyString, r)
          end in
        let '(d, rest) := span_digits r1 in
        if is_empty d then (EmptyString, s) else (String c (sg +:+ d), rest)
      else (EmptyString, s)
  | EmptyString => (EmptyString, s)
  end.

Definition parse_number (s : string) : option (json * string) :=
  let '(neg, s1) :=
    match s with
    | String c r => if Ascii.eqb c "-"%char then (true, r) else (false, s)
    | EmptyString => (false, s)
    end in
  let '(ip, r1) := int_part s1 in
  if is_empty ip then None
  else
    let '(fp, r2) := frac_part r1 in
    let '(ep, r3) := exp_part r2 in
    if is_empty fp && is_empty ep
    then let n := Z.of_N (digits_value ip 0) in
         Some (JInt (if neg then - n else n), r1)
    else Some (JFloat ((if neg then "-" else EmptyString) +:+ ip +:+ fp +:+ ep), r3).

(** [s[n:]] *)
Fixpoint drop (n : nat) (s : string) : string :=
  match n, s with
  | S n', String _ r => drop n' r
  | _, _ => s
  end.

(** [lit] at the head of [s]. *)
Definition literal (lit : string) (v : json) (s : string)
  : option (json * string) :=
  if String.prefix lit s then Some (v, drop (String.length lit) s) else None.

Fixpoint parse_value (fuel : nat) (s : string) : option (json * string) :=
  match fuel with
  | O => None
  | S f =>
      match s with
      | EmptyString => None
      | String c r =>
          if Ascii.eqb c dquote then
            match scan_string r with
            | Some (t, rest) => Some (JStr t, rest)
            | None => None
            end
          else if Ascii.eqb c "{"%char then
            match skip_ws r with
            | String c1 r1 =>
                if Ascii.eqb c1 "}"%char then Some (JObj [], r1)
                else parse_members f (String c1 r1) []
            | EmptyString => None
            end
          else if Ascii.eqb c "["%char then
            match skip_ws r with
            | String c1 r1 =>
                if Ascii.eqb c1 "]"%char then Some (JArr [], r1)
                else parse_elements f (String c1 r1) []
            | EmptyString => None
            end
          else if Ascii.eqb c "n"%char then literal "null" JNull s
          else if Ascii.eqb c "t"%char then literal "true" (JBool true) s
          else if Ascii.eqb c "f"%char then literal "false" (JBool false) s
          else if Ascii.eqb c "N"%char then literal "NaN" (JFloat "NaN") s
          else if Ascii.eqb c "I"%char
          then literal "Infinity" (JFloat "Infinity") s
          else if String.prefix "-Infinity" s
          then literal "-Infinity" (JFloat "-Infinity") s
          else parse_number s
      end
  end
with parse_members (fuel : nat) (s : string) (acc : list (string * json))
  : option (json * string) :=
  match fuel with
  | O => None
  | S f =>
      match s with
      | String c r =>
          if Ascii.eqb c dquote then
            match scan_string r with
            | Some (k, r1) =>
                match skip_ws r1 with
                | String c2 r2 =>
                    if Ascii.eqb c2 ":"%char then
                      match parse_value f (skip_ws r2) with
                      | Some (v, r3) =>
                          let acc' := dict_set k v acc in
                          match skip_ws r3 with
                          | String c3 r4 =>
                              if Ascii.eqb c3 ","%char
                              then parse_members f (skip_ws r4) acc'
                              else if Ascii.eqb c3 "}"%char
                              then Some (JObj acc', r4)
                              else None
                          | EmptyString => None
                          end
                      | None => None
                      end
                    else None
                | EmptyString => None
                end
            | None => None
            end
          else None
      | EmptyString => None
      end
  end
with parse_elements (fuel : nat) (s : string) (acc : list json)
  : option (json * string) :=
  match fuel with
  | O => None
  | S f =>
      match parse_value f s with
      | Some (v, r1) =>
          match skip_ws r1 with
          | String c r2 =>
              if Ascii.eqb c ","%char
              then parse_elements f (skip_ws r2) (acc ++ [v])
              else if Ascii.eqb c "]"%char
              then Some (JArr (acc ++ [v]), r2)
              else None
          | EmptyString => None
          end
      | None => None
      end
  end.

(** [json.loads(s)]; [None] stands for the exception it raises. Strings
    with code points above 255 are outside the model. *)
Definition loads (s : string) : option json :=
  match parse_value (S (String.length s)) (skip_ws s) with
  | Some (v, rest) => if is_empty (skip_ws rest) then Some v else None
  | None => None
  end.

End Json.

(** ** UTC instants: [datetime.now(timezone.utc)] and [isoformat] *)

Module Datetime.
Import Text Fmt.

(** An aware [datetime] in UTC. *)
Record datetime := {
  year : N; month : N; day : N;
  hour : N; minute : N; second : N; microsecond : N
}.

Definition is_leap (y : N) : bool :=
  (((y mod 4 =? 0) && negb (y mod 100 =? 0)) || (y mod 400 =? 0))%N.

Definition days_in_month (y m : N) : N :=
  (if m =? 2 then (if is_leap y then 29 else 28)
   else if (m =? 4) || (m =? 6) || (m =? 9) || (m =? 11) then 30
   else 31)%N.

(** The ranges every [datetime] object satisfies. *)
Definition valid (t : datetime) : bool :=
  ((1 <=? year t) && (year t <=? 9999)
   && (1 <=? month t) && (month t <=? 12)
   && (1 <=? day t) && (day t <=? days_in_month (year t) (month t))
   && (hour t <? 24) && (minute t <? 60) && (second t <? 60)
   && (microsecond t <? 1000000))%N.

Definition fields (t : datetime) : list N :=
  [year t; month t; day t; hour t; minute t; second t; microsecond t].

Fixpoint lex_leb (a b : list N) : bool :=
  match a, b with
  | x :: a', y :: b' =>
      if (x <? y)%N then true
      else if (y <? x)%N then false
      else lex_leb a' b'
  | _, _ => true
  end.

(** [a <= b] on instants of the same zone. *)
Definition leb (a b : datetime) : bool := lex_leb (fields a) (fields b).
(** [a < b] *)
Definition ltb (a b : datetime) : bool := negb (leb b a).

(** [t.isoformat()] *)
Definition isoformat (t : datetime) : string :=
  pad0 4 (year t) +:+ "-" +:+ pad0 2 (month t) +:+ "-" +:+ pad0 2 (day t)
  +:+ "T" +:+ pad0 2 (hour t) +:+ ":" +:+ pad0 2 (minute t)
  +:+ ":" +:+ pad0 2 (second t)
  +:+ (if (microsecond t =? 0)%N then EmptyString
       else "." +:+ pad0 6 (microsecond t))
  +:+ "+00:00".

(** Exactly [w] decimal digits at the head of [s]. *)
Fixpoint read_digits (w : nat) (s : string) (acc : N) : option (N * string) :=
  match w with
  | O => Some (acc, s)
  | S w' =>
      match s with
      | String c r =>
          match digit_val c with
          | Some d => read_digits w' r (10 * acc + d)
          | None => None
          end
      | EmptyString => None
      end
  end.

Definition expect (c : ascii) (s : string) : option string :=
  match s with
  | String a r => if Ascii.eqb a c then Some r else None
  | EmptyString => None
  end.

(** [datetime.fromisoformat(s).astimezone(timezone.utc)] on the strings
    [YYYY-MM-DD?HH:MM:SS[.fff[fff]]+00:00]; [None] stands for the
    [ValueError] raised. Strings with another offset, or with none, are
    outside the model. *)
Definition fromisoformat_utc (s : string) : option datetime :=
  '(y, s) ← read_digits 4 s 0;
  s ← expect "-" s;
  '(mo, s) ← read_digits 2 s 0;
  s ← expect "-" s;
  '(d, s) ← read_digits 2 s 0;
  s ← match s with String _ r => Some r | EmptyString => None end;
  '(h, s) ← read_digits 2 s 0;
  s ← expect ":" s;
  '(mi, s) ← read_digits 2 s 0;
  s ← expect ":" s;
  '(sec, s) ← read_digits 2 s 0;
  '(us, s) ←
    match expect "." s with
    | Some r =>
        match read_digits 6 r 0 with
        | Some res => Some res
        | None =>
            match read_digits 3 r 0 with
            | Some (ms, r') => Some ((ms * 1000)%N, r')
            | None => None
            end
        end
    | None => Some (0%N, s)
    end;
  if String.eqb s "+00:00" then
    let t := {| year := y; month := mo; day := d; hour := h; minute := mi;
                second := sec; microsecond := us |} in
    if valid t then Some t else None
  else None.

End Datetime.

(** ** Append Log: [json_logger.PinSampleJSONLogger] *)

Module AppendLog.
Import Text Fmt Json Datetime.

(** The destination file as the process sees it. Each primitive call
    takes its outcome from [faults] ([Some msg]: it raises [OSError]);
    when the list is used up every call succeeds. *)
Inductive io_event :=
| IoMakedirs
| IoOpen
| IoWrite (text : string)
| IoFlush
| IoClose.

Record Disk := {
  initial : string;              (* content before [open(path, "a")] *)
  events : list io_event;        (* successful calls, oldest first *)
  faults : list (option string)
}.

Definition io_call (ev : io_event) (d : Disk) : res exn unit * Disk :=
  match faults d with
  | Some msg :: rest =>
      (Raise (OSError msg),
       {| initial := initial d; events := events d; faults := rest |})
  | None :: rest =>
      (Ok tt, {| initial := initial d; events := events d ++ [ev];
                 faults := rest |})
  | [] =>
      (Ok tt, {| initial := initial d; events := events d ++ [ev];
                 faults := [] |})
  end.

Definition written_text (ev : io_event) : string :=
  match ev with IoWrite text => text | _ => EmptyString end.

(** The text in the file once everything written has reached it. *)
Definition file_text (d : Disk) : string :=
  initial d +:+ fold_right (fun ev acc => written_text ev +:+ acc)
                  EmptyString (events d).

Definition flush_count (evs : list io_event) : nat :=
  length (List.filter (fun ev => match ev with IoFlush => true | _ => false end)
            evs).

Record JSONLogConfig := { path : string; flush_every : Z }.

Definition default_config : JSONLogConfig :=
  {| path := "pin_samples.ndjson"; flush_every := 1 |}.

Record TextIO := { name : string }.

Record PinSampleJSONLogger := {
  cfg : JSONLogConfig;
  _fh : option TextIO;
  _count_since_flush : Z
}.

Definition new (c : JSONLogConfig) : PinSampleJSONLogger :=
  {| cfg := c; _fh := None; _count_since_flush := 0 |}.

Definition set_fh (o : option TextIO) (self : PinSampleJSONLogger) :=
  {| cfg := cfg self; _fh := o;
     _count_since_flush := _count_since_flush self |}.

Definition set_count (n : Z) (self : PinSampleJSONLogger) :=
  {| cfg := cfg self; _fh := _fh self; _count_since_flush := n |}.

Definition open (self : PinSampleJSONLogger) (d : Disk)
  : res exn unit * PinSampleJSONLogger * Disk :=
  match _fh self with
  | Some _ => (Ok tt, self, d)
  | None =>
      match io_call IoMakedirs d with
      | (Raise e, d1) => (Raise e, self, d1)
      | (Ok _, d1) =>
          match io_call IoOpen d1 with
          | (Raise e, d2) => (Raise e, self, d2)
          | (Ok _, d2) =>
              (Ok tt, set_fh (Some {| name := path (cfg self) |}) self, d2)
          end
      end
  end.

Definition close (self : PinSampleJSONLogger) (d : Disk)
  : res exn unit * PinSampleJSONLogger * Disk :=
  match _fh self with
  | Some _ =>
      match io_call IoFlush d with
      | (Raise e, d1) => (Raise e, set_fh None self, d1)
      | (Ok _, d1) =>
          let '(r, d2) := io_call IoClose d1 in (r, set_fh None self, d2)
      end
  | None => (Ok tt, self, d)
  end.

(** [datetime.now(timezone.utc).isoformat().replace("+00:00", "Z")],
    [now] being the clock reading. *)
Definition now_iso_utc (now : datetime) : string :=
  replace "+00:00" "Z" (isoformat now).

Definition opt_int (o : option Z) : json :=
  match o with Some v => JInt v | None => JNull end.

(** The [rec] dictionary of [write_sample]. *)
Definition make_rec (states : PinStates) (ts_utc : option string)
  (now : datetime) : json :=
  JObj [("ts_utc",
         JStr (match ts_utc with
               | Some ts => if is_empty ts then now_iso_utc now else ts
               | None => now_iso_utc now
               end));
        ("d4", opt_int (d4 states));
        ("d5", opt_int (d5 states));
        ("d6", opt_int (d6 states));
        ("d7", opt_int (d7 states))].

Definition not_open_msg : string :=
  "JSON logger is not open. Call open() first.".

Definition write_sample (self : PinSampleJSONLogger) (states : PinStates)
  (ts_utc : option string) (now : datetime) (d : Disk)
  : res exn unit * PinSampleJSONLogger * Disk :=
  match _fh self with
  | None => (Raise (RuntimeError not_open_msg), self, d)
  | Some _ =>
      let rec := make_rec states ts_utc now in
      match io_call (IoWrite (dumps rec +:+ str1 nl)) d with
      | (Raise e, d1) => (Raise e, self, d1)
      | (Ok _, d1) =>
          let self1 := set_count (_count_since_flush self + 1) self in
          if (0 <? flush_every (cfg self1))
             && (flush_every (cfg self1) <=? _count_since_flush self1)
          then
            match io_call IoFlush d1 with
            | (Raise e, d2) => (Raise e, self1, d2)
            | (Ok _, d2) => (Ok tt, set_count 0 self1, d2)
            end
          else (Ok tt, self1, d1)
      end
  end.

End AppendLog.

(** ** The log reader: [plot_pins.read_ndjson] *)

Module LogReader.
Import Text Json Datetime.

(** [plot_pins.Sample]; the pin fields hold whatever [rec.get] returned
    ([JNull] for Python's [None]). *)
Record Sample := {
  t : datetime;
  d4 : json; d5 : json; d6 : json; d7 : json
}.

(** [_parse_ts] *)
Definition _parse_ts (ts : string) : option datetime :=
  let ts := if endswith1 ts "Z" then drop_last ts +:+ "+00:00" else ts in
  fromisoformat_utc ts.

(** [for line in f]: the lines of a text file read with universal
    newlines, each with its terminator. [cur] is the line being
    collected. *)
Fixpoint lines_from (cur s : string) : list string :=
  match s with
  | EmptyString => if is_empty cur then [] else [cur]
  | String c r =>
      if Ascii.eqb c nl then (cur +:+ str1 nl) :: lines_from EmptyString r
      else if Ascii.eqb c cr then
        match r with
        | String c' r' =>
            if Ascii.eqb c' nl
            then (cur +:+ str1 nl) :: lines_from EmptyString r'
            else (cur +:+ str1 nl) :: lines_from EmptyString r
        | EmptyString => [cur +:+ str1 nl]
        end
      else lines_from (cur +:+ str1 c) r
  end.

Definition file_lines (content : string) : list string :=
  lines_from EmptyString content.

(** [rec.get(k)] *)
Definition rec_get (k : string) (members : list (string * json)) : json :=
  match dict_get k members with Some v => v | None => JNull end.

(** The body of the [try] for one non-empty line: the sample to append,
    if any. [None] covers both [continue]s (an exception, or a record
    older than the cutoff). *)
Definition read_record (cutoff : option datetime) (line : string)
  : option Sample :=
  match loads line with
  | Some (JObj rec) =>
      match dict_get "ts_utc" rec with
      | Some (JStr ts) =>
          match _parse_ts ts with
          | Some t0 =>
              if match cutoff with Some c => ltb t0 c | None => false end
              then None
              else Some {| t := t0;
                           d4 := rec_get "d4" rec; d5 := rec_get "d5" rec;
                           d6 := rec_get "d6" rec; d7 := rec_get "d7" rec |}
          | None => None
          end
      | _ => None
      end
  | _ => None
  end.

Fixpoint read_lines (cutoff : option datetime) (lines : list string)
  : list Sample :=
  match lines with
  | [] => []
  | line :: rest =>
      let line := strip line in
      if is_empty line then read_lines cutoff rest
      else
        match read_record cutoff line with
        | Some smp => smp :: read_lines cutoff rest
        | None => read_lines cutoff rest
        end
  end.

(** [out.sort(key=lambda s: s.t)]: the sort is stable, so the result is
    the one of inserting each sample, last first, before the first
    sample that is not earlier. *)
Fixpoint insert_by_t (x : Sample) (l : list Sample) : list Sample :=
  match l with
  | [] => [x]
  | y :: l' => if leb (t x) (t y) then x :: l else y :: insert_by_t x l'
  end.

Definition sort_by_t (l : list Sample) : list Sample :=
  fold_right insert_by_t [] l.

Section Reader.
(** [now - timedelta(seconds=n)] is the [datetime] library's; the
    reader is parametric in it. *)
Variable minus_seconds : datetime -> Z -> datetime.

(** [read_ndjson(path, since_seconds)], on the content of the file at
    [path]; [now] is the clock reading taken when a window is asked
    for. *)
Definition read_ndjson (content : string) (since_seconds : option Z)
  (now : datetime) : list Sample :=
  let cutoff :=
    match since_seconds with
    | Some n => Some (minus_seconds now n)
    | None => None
    end in
  sort_by_t (read_lines cutoff (file_lines content)).
End Reader.

End LogReader.

(** ** Acquisition Service: [services.PinLoggingService] *)

Module Service.
Import Text Datetime.

(** [poll_sleep_s] only paces the loop and is left out. *)
Record PinLoggingServiceConfig := {
  port : string;
  baud : Z;
  json_path : string;
  flush_every : Z;
  print_errors : bool
}.

(** The fields guarded by [_lock]. Readings of [time.time()] are
    integers (a fixed sub-second unit). *)
Record Status := {
  _running : bool;
  _started_at : option Z;
  _last_sample_at : option Z;
  _last_states : option PinStates;
  _samples_written : Z;
  _bad_reads : Z;
  _last_error : option string
}.

Definition initial_status : Status :=
  {| _running := false; _started_at := None; _last_sample_at := None;
     _last_states := None; _samples_written := 0; _bad_reads := 0;
     _last_error := None |}.

Definition set_running (b : bool) (s : Status) : Status :=
  {| _running := b; _started_at := _started_at s;
     _last_sample_at := _last_sample_at s; _last_states := _last_states s;
     _samples_written := _samples_written s; _bad_reads := _bad_reads s;
     _last_error := _last_error s |}.

(** The first locked block of [_run]. *)
Definition mark_started (now : Z) (s : Status) : Status :=
  {| _running := true; _started_at := Some now;
     _last_sample_at := _last_sample_at s; _last_states := _last_states s;
     _samples_written := _samples_written s; _bad_reads := _bad_reads s;
     _last_error := None |}.

Definition count_bad_read (s : Status) : Status :=
  {| _running := _running s; _started_at := _started_at s;
     _last_sample_at := _last_sample_at s; _last_states := _last_states s;
     _samples_written := _samples_written s; _bad_reads := _bad_reads s + 1;
     _last_error := _last_error s |}.

Definition set_last (states : PinStates) (now : Z) (s : Status) : Status :=
  {| _running := _running s; _started_at := _started_at s;
     _last_sample_at := Some now; _last_states := Some states;
     _samples_written := _samples_written s; _bad_reads := _bad_reads s;
     _last_error := _last_error s |}.

Definition count_written (s : Status) : Status :=
  {| _running := _running s; _started_at := _started_at s;
     _last_sample_at := _last_sample_at s; _last_states := _last_states s;
     _samples_written := _samples_written s + 1; _bad_reads := _bad_reads s;
     _last_error := _last_error s |}.

(** [_set_error]'s assignment. *)
Definition set_error (msg : string) (s : Status) : Status :=
  {| _running := _running s; _started_at := _started_at s;
     _last_sample_at := _last_sample_at s; _last_states := _last_states s;
     _samples_written := _samples_written s; _bad_reads := _bad_reads s;
     _last_error := Some msg |}.

(** *** The worker *)

(** What surrounds one run of the worker: the file, the serial line, the
    two clocks (the [i]-th reading taken during the run), how many times
    the loop condition finds the stop event clear, and the console, which
    takes every line printed. *)
Record World := {
  disk : AppendLog.Disk;
  serial : SampleSource.Port;
  time_time : nat -> Z;
  utc_now : nat -> datetime;
  readings : nat;
  stop_after : nat;
  stdout : list string
}.

(** The state of a run: the locked fields, the world, and every value
    the locked fields have taken, oldest first: [get_status], which takes
    the same lock, observes one of them. *)
Record Run := {
  status : Status;
  world : World;
  published : list Status
}.

(** [with self._lock: ...] in the worker. *)
Definition with_lock (f : Status -> Status) (r : Run) : Run :=
  let s := f (status r) in
  {| status := s; world := world r; published := published r ++ [s] |}.

Definition set_world (w : World) (r : Run) : Run :=
  {| status := status r; world := w; published := published r |}.

Definition set_disk (d : AppendLog.Disk) (r : Run) : Run :=
  set_world {| disk := d; serial := serial (world r);
               time_time := time_time (world r);
               utc_now := utc_now (world r); readings := readings (world r);
               stop_after := stop_after (world r);
               stdout := stdout (world r) |} r.

Definition set_serial (p : SampleSource.Port) (r : Run) : Run :=
  set_world {| disk := disk (world r); serial := p;
               time_time := time_time (world r);
               utc_now := utc_now (world r); readings := readings (world r);
               stop_after := stop_after (world r);
               stdout := stdout (world r) |} r.

Definition tick (r : Run) : Run :=
  set_world {| disk := disk (world r); serial := serial (world r);
               time_time := time_time (world r);
               utc_now := utc_now (world r);
               readings := S (readings (world r));
               stop_after := stop_after (world r);
               stdout := stdout (world r) |} r.

(** [print(line)] when [print_errors] is set. *)
Definition echo (c : PinLoggingServiceConfig) (line : string) (r : Run) : Run :=
  if print_errors c then
    set_world {| disk := disk (world r); serial := serial (world r);
                 time_time := time_time (world r);
                 utc_now := utc_now (world r);
                 readings := readings (world r);
                 stop_after := stop_after (world r);
                 stdout := stdout (world r) ++ [line] |} r
  else r.

(** [time.time()] and [datetime.now(timezone.utc)] *)
Definition read_time (r : Run) : Z * Run :=
  (time_time (world r) (readings (world r)), tick r).
Definition read_utc (r : Run) : datetime * Run :=
  (utc_now (world r) (readings (world r)), tick r).

Section Worker.
Variable decode : list Byte.byte -> string.
Variable c : PinLoggingServiceConfig.

(** [self._set_error(msg)] followed by the optional [print]. *)
Definition report (prefix : string) (e : exn) (r : Run) : Run :=
  echo c ("[PinLoggingService] " +:+ prefix +:+ exn_str e)
    (with_lock (set_error (prefix +:+ exn_str e)) r).

(** The [while not self._stop.is_set()] loop; [polls] is the number of
    times the condition still finds the event clear. The sleeps only
    pace the loop. *)
Fixpoint acquire (polls : nat) (logger : AppendLog.PinSampleJSONLogger)
  (mon : SampleSource.ArduinoPinMonitor) (r : Run)
  : res exn unit * AppendLog.PinSampleJSONLogger * Run :=
  match polls with
  | O => (Ok tt, logger, r)
  | S polls' =>
      match SampleSource.read_states decode mon (serial (world r)) with
      | (Raise e, p) => (Raise e, logger, set_serial p r)
      | (Ok None, p) =>
          acquire polls' logger mon
            (with_lock count_bad_read (set_serial p r))
      | (Ok (Some states), p) =>
          let '(now, r1) := read_time (set_serial p r) in
          let r2 := with_lock (set_last states now) r1 in
          let '(utc, r3) := read_utc r2 in
          match AppendLog.write_sample logger states None utc
                  (disk (world r3)) with
          | (Ok _, logger', d) =>
              acquire polls' logger' mon
                (with_lock count_written (set_disk d r3))
          | (Raise e, logger', d) =>
              acquire polls' logger' mon
                (report "JSON write error: " e (set_disk d r3))
          end
      end
  end.

(** The [try] block of [_run]: open the log, then the monitor as a
    context manager around the loop. *)
Definition run_body (logger : AppendLog.PinSampleJSONLogger) (r : Run)
  : res exn unit * AppendLog.PinSampleJSONLogger
    * SampleSource.ArduinoPinMonitor * Run :=
  let mon0 := SampleSource.new (port c) (baud c) in
  match AppendLog.open logger (disk (world r)) with
  | (Raise e, logger1, d) => (Raise e, logger1, mon0, set_disk d r)
  | (Ok _, logger1, d) =>
      let r1 := set_disk d r in
      match SampleSource.open mon0 (serial (world r1)) with
      | (Raise e, mon1, p) => (Raise e, logger1, mon1, set_serial p r1)
      | (Ok _, mon1, p) =>
          let '(result, logger2, r2) :=
            acquire (stop_after (world r1)) logger1 mon1 (set_serial p r1) in
          let '(mon2, p') := SampleSource.close mon1 (serial (world r2)) in
          (result, logger2, mon2, set_serial p' r2)
      end
  end.

(** [_run]: the final state of the run with the logger and the monitor
    as the worker leaves them. Nothing is raised: the result is a
    plain value. *)
Definition _run (r : Run)
  : Run * AppendLog.PinSampleJSONLogger * SampleSource.ArduinoPinMonitor :=
  let logger :=
    AppendLog.new {| AppendLog.path := json_path c;
                     AppendLog.flush_every := flush_every c |} in
  let '(now, r0) := read_time r in
  let r1 := with_lock (mark_started now) r0 in
  let '(result, logger1, mon, r2) := run_body logger r1 in
  let r3 :=
    match result with
    | Raise e => report "fatal: " e r2
    | Ok _ => r2
    end in
  let '(_, logger2, d) := AppendLog.close logger1 (disk (world r3)) in
  (with_lock (set_running false) (set_disk d r3), logger2, mon).
End Worker.

(** *** The service object *)

Record Thread := { is_alive : bool }.

(** [spawned] is not a field of the class: it counts the calls of
    [Thread.start()]. *)
Record PinLoggingService := {
  cfg : PinLoggingServiceConfig;
  _stop : bool;
  _thread : option Thread;
  locked : Status;
  spawned : nat
}.

Definition new (c : PinLoggingServiceConfig) : PinLoggingService :=
  {| cfg := c; _stop := false; _thread := None; locked := initial_status;
     spawned := 0 |}.

Definition is_running (self : PinLoggingService) : bool :=
  match _thread self with Some th => is_alive th | None => false end.

(** [start()]: the new thread runs [_run] on its own. *)
Definition start (self : PinLoggingService) : PinLoggingService :=
  if is_running self then self
  else {| cfg := cfg self; _stop := false;
          _thread := Some {| is_alive := true |};
          locked := locked self; spawned := S (spawned self) |}.

(** What the caller finds when [join(timeout=2.0)] returns: the worker
    has finished or not, and the locked fields as it left them. *)
Inductive join_outcome :=
| Joined (s : Status)
| TimedOut (s : Status).

Definition stop (self : PinLoggingService) (j : join_outcome)
  : PinLoggingService :=
  let '(th, s) :=
    match _thread self with
    | Some th =>
        match j with
        | Joined s => (Some {| is_alive := false |}, s)
        | TimedOut s => (Some th, s)
        end
    | None => (None, locked self)
    end in
  {| cfg := cfg self; _stop := true; _thread := th;
     locked := set_running false s; spawned := spawned self |}.

Record Pins := {
  pin_d4 : option Z; pin_d5 : option Z; pin_d6 : option Z; pin_d7 : option Z
}.

Record Snapshot := {
  running : bool;
  snap_port : string;
  snap_baud : Z;
  snap_json_path : string;
  uptime_s : option Z;
  last_sample_age_s : option Z;
  samples_written : Z;
  bad_reads : Z;
  last_error : option string;
  pins : Pins
}.

(** [x if t else None] for an optional reading [t]: [None] and zero are
    both false. *)
Definition since (now : Z) (o : option Z) : option Z :=
  match o with
  | Some t0 => if t0 =? 0 then None else Some (now - t0)
  | None => None
  end.

(** [get_status()]; [now] is the reading of [time.time()]. *)
Definition get_status (self : PinLoggingService) (now : Z) : Snapshot :=
  let s := locked self in
  let last := _last_states s in
  {| running := is_running self;
     snap_port := port (cfg self);
     snap_baud := baud (cfg self);
     snap_json_path := json_path (cfg self);
     uptime_s := since now (_started_at s);
     last_sample_age_s := since now (_last_sample_at s);
     samples_written := _samples_written s;
     bad_reads := _bad_reads s;
     last_error := _last_error s;
     pins := {| pin_d4 := last ≫= d4; pin_d5 := last ≫= d5;
                pin_d6 := last ≫= d6; pin_d7 := last ≫= d7 |} |}.

End Service.

(** * Statements of the specification *)

Module Spec.
Import Text Fmt Json Datetime.

(** ** Line Codec *)

(** The [(pin, value)] pairs of a token sequence, in line order. *)
Fixpoint pair_up (zs : list Z) : list (Z * Z) :=
  match zs with
  | pin :: val :: rest => (pin, val) :: pair_up rest
  | _ => []
  end.

(** The value of the last pair for [pin], if there is one. *)
Fixpoint last_value (pin : Z) (ps : list (Z * Z)) : option Z :=
  match ps with
  | [] => None
  | (p, v) :: rest =>
      match last_value pin rest with
      | Some w => Some w
      | None => if p =? pin then Some v else None
      end
  end.

(** [out[pin] = val] *)
Definition put (m : gmap Z Z) (pv : Z * Z) : gmap Z Z := <[pv.1 := pv.2]> m.

(** ** Persisted log format *)

(** [s] has the shape [pattern], where [d] in the pattern stands for any
    decimal digit and every other character for itself. *)
Fixpoint matches (pattern s : string) : bool :=
  match pattern, s with
  | EmptyString, EmptyString => true
  | String p pattern', String a s' =>
      (if Ascii.eqb p "d" then is_digit a else Ascii.eqb p a)
      && matches pattern' s'
  | _, _ => false
  end.

(** ISO-8601, UTC, microseconds, [Z] suffix. *)
Definition iso_utc_micro (ts : string) : bool :=
  matches "dddd-dd-ddTdd:dd:dd.ddddddZ" ts.

(** A pin field as the specification words it: 0, 1 or null. *)
Definition binary_or_null (v : json) : bool :=
  match v with
  | JNull => true
  | JInt z => (z =? 0) || (z =? 1)
  | _ => false
  end.

(** A pin field as the logger writes it: an integer or null. *)
Definition int_or_null (v : json) : bool :=
  match v with JNull | JInt _ => true | _ => false end.

Fixpoint no_newline (s : string) : bool :=
  match s with
  | EmptyString => true
  | String a s' => negb (Ascii.eqb a nl) && negb (Ascii.eqb a cr) && no_newline s'
  end.

(** [text] is one record of the log: a single line ending in a newline
    that is the compact JSON form of an object with exactly the keys
    [ts_utc], [d4], [d5], [d6], [d7] in this order, whose timestamp
    satisfies [ts_ok] and whose pin fields satisfy [pin_ok]. *)
Definition record_format (ts_ok : string -> bool) (pin_ok : json -> bool)
  (text : string) : bool :=
  endswith1 text nl && no_newline (drop_last text) &&
  match loads (drop_last text) with
  | Some (JObj [(k0, JStr ts); (k1, v4); (k2, v5); (k3, v6); (k4, v7)] as v) =>
      String.eqb k0 "ts_utc" && String.eqb k1 "d4" && String.eqb k2 "d5"
      && String.eqb k3 "d6" && String.eqb k4 "d7"
      && ts_ok ts && pin_ok v4 && pin_ok v5 && pin_ok v6 && pin_ok v7
      && String.eqb (drop_last text) (dumps v)
  | _ => false
  end.

(** The record for a sample, letter by letter. *)
Definition pin_field (o : option Z) : string :=
  match o with Some v => Zdecimal v | None => "null" end.

Definition record_then (tail ts : string) (p4 p5 p6 p7 : option Z) : string :=
  "{" +:+ str1 dquote +:+ "ts_utc" +:+ str1 dquote +:+ ":"
      +:+ str1 dquote +:+ ts +:+ str1 dquote
  +:+ "," +:+ str1 dquote +:+ "d4" +:+ str1 dquote +:+ ":" +:+ pin_field p4
  +:+ "," +:+ str1 dquote +:+ "d5" +:+ str1 dquote +:+ ":" +:+ pin_field p5
  +:+ "," +:+ str1 dquote +:+ "d6" +:+ str1 dquote +:+ ":" +:+ pin_field p6
  +:+ "," +:+ str1 dquote +:+ "d7" +:+ str1 dquote +:+ ":" +:+ pin_field p7
  +:+ "}" +:+ tail.

Definition record_line (ts : string) (p4 p5 p6 p7 : option Z) : string :=
  record_then (str1 nl) ts p4 p5 p6 p7.

(** ** Character classes used in the proofs *)

Definition pow10 (k : nat) : N := (10 ^ N.of_nat k)%N.

Fixpoint all_chars (P : ascii -> bool) (s : string) : bool :=
  match s with
  | EmptyString => true
  | String a s' => P a && all_chars P s'
  end.

(** The comma-separated tokens of a line, said without the code's
    tokenizer: a line is its fields joined by commas, no field holding a
    comma; its tokens are the fields trimmed, the empty ones left
    out. *)
Definition comma_free (s : string) : bool :=
  all_chars (fun a => negb (Ascii.eqb a ",")) s.

Definition line_of_fields (fields : list string) : string := join "," fields.

Definition trimmed_tokens (fields : list string) : list string :=
  List.filter (fun t => negb (is_empty t)) (map strip fields).

(** Characters that a JSON string literal holds as they are. *)
Definition plain (a : ascii) : bool :=
  let n := N_of_ascii a in
  ((32 <=? n) && (n <=? 126) && negb (n =? 34) && negb (n =? 92))%N.

(** Printable ASCII. *)
Definition printable (a : ascii) : bool :=
  let n := N_of_ascii a in ((32 <=? n) && (n <=? 126))%N.

(** Characters of a timestamp before its zone. *)
Definition stamp_char (a : ascii) : bool :=
  is_digit a || Ascii.eqb a "-" || Ascii.eqb a "T" || Ascii.eqb a ":"
  || Ascii.eqb a ".".

(** The first character of [s], if any, is not a digit. *)
Definition stops_digits (s : string) : bool :=
  match s with
  | EmptyString => true
  | String a _ => negb (is_digit a)
  end.

(** The date and time of [isoformat], before the zone. *)
Definition iso_body (t : datetime) : string :=
  pad0 4 (year t) +:+ "-" +:+ pad0 2 (month t) +:+ "-" +:+ pad0 2 (day t)
  +:+ "T" +:+ pad0 2 (hour t) +:+ ":" +:+ pad0 2 (minute t)
  +:+ ":" +:+ pad0 2 (second t)
  +:+ (if (microsecond t =? 0)%N then EmptyString
       else "." +:+ pad0 6 (microsecond t)).

(** [rest] starts with what may follow a member's value. *)
Definition ends_number (rest : string) : bool :=
  match rest with
  | String a _ => Ascii.eqb a "," || Ascii.eqb a "}"
  | EmptyString => false
  end.

(** The record up to its last pin field. *)
Definition record_open (ts : string) (p4 p5 p6 p7 : option Z) : string :=
  "{" +:+ str1 dquote +:+ "ts_utc" +:+ str1 dquote +:+ ":"
      +:+ str1 dquote +:+ ts +:+ str1 dquote
  +:+ "," +:+ str1 dquote +:+ "d4" +:+ str1 dquote +:+ ":" +:+ pin_field p4
  +:+ "," +:+ str1 dquote +:+ "d5" +:+ str1 dquote +:+ ":" +:+ pin_field p5
  +:+ "," +:+ str1 dquote +:+ "d6" +:+ str1 dquote +:+ ":" +:+ pin_field p6
  +:+ "," +:+ str1 dquote +:+ "d7" +:+ str1 dquote +:+ ":" +:+ pin_field p7.

(** The text written by a sequence of successful calls. *)
Definition log_text (evs : list AppendLog.io_event) : string :=
  fold_right (fun ev acc => AppendLog.written_text ev +:+ acc) EmptyString evs.

(** The pin field of a sample read back, for a tracked pin. *)
Definition read_pin (smp : LogReader.Sample) (pin : Z) : option json :=
  if pin =? 4 then Some (LogReader.d4 smp)
  else if pin =? 5 then Some (LogReader.d5 smp)
  else if pin =? 6 then Some (LogReader.d6 smp)
  else if pin =? 7 then Some (LogReader.d7 smp)
  else None.

(** ** Sequences of calls on the Append Log *)

(** [write_sample] called for each item in turn, whatever each call
    returns; the first component counts the calls that returned
    normally. *)
Fixpoint write_samples (calls : list (PinStates * option string * datetime))
  (self : AppendLog.PinSampleJSONLogger) (d : AppendLog.Disk)
  : Z * AppendLog.PinSampleJSONLogger * AppendLog.Disk :=
  match calls with
  | [] => (0, self, d)
  | (states, ts, now) :: rest =>
      let '(r, self1, d1) := AppendLog.write_sample self states ts now d in
      let '(n, self2, d2) := write_samples rest self1 d1 in
      (match r with Ok _ => 1 + n | Raise _ => n end, self2, d2)
  end.

(** The lines of the samples written in one run, with their clock
    readings. *)
Fixpoint lines_of (samples : list (PinStates * datetime)) : string :=
  match samples with
  | [] => EmptyString
  | (ps, now) :: rest =>
      record_line (AppendLog.now_iso_utc now) (d4 ps) (d5 ps) (d6 ps) (d7 ps)
      +:+ lines_of rest
  end.

(** The file left by one run on a new destination: open, one
    [write_sample(states)] per sample with the clock reading taken at
    that call, close. *)
Definition run_log (flush_every : Z) (faults : list (option string))
  (samples : list (PinStates * datetime)) : AppendLog.Disk :=
  let d0 := {| AppendLog.initial := EmptyString; AppendLog.events := [];
               AppendLog.faults := faults |} in
  let lg0 := AppendLog.new {| AppendLog.path := "pin_samples.ndjson";
                              AppendLog.flush_every := flush_every |} in
  let '(_, lg1, d1) := AppendLog.open lg0 d0 in
  let '(_, lg2, d2) :=
    write_samples (map (fun sn => (fst sn, None, snd sn)) samples) lg1 d1 in
  let '(_, _, d3) := AppendLog.close lg2 d2 in
  d3.

(** What reading a record back should give for a sample written at
    [now]: the four tracked pins, null where the sample has none. *)
Definition expected (sn : PinStates * datetime) : LogReader.Sample :=
  {| LogReader.t := snd sn;
     LogReader.d4 := AppendLog.opt_int (d4 (fst sn));
     LogReader.d5 := AppendLog.opt_int (d5 (fst sn));
     LogReader.d6 := AppendLog.opt_int (d6 (fst sn));
     LogReader.d7 := AppendLog.opt_int (d7 (fst sn)) |}.

Fixpoint nondecreasing (ts : list datetime) : bool :=
  match ts with
  | a :: (b :: _) as rest => leb a b && nondecreasing rest
  | _ => true
  end.

(** The counter after [k] successful calls since the logger was opened:
    [k mod N], or at least [N] when a flush that was due has failed. *)
Definition counter_tracks (N k c : Z) : Prop :=
  c = k mod N \/ (N <= c /\ k mod N = N - 1).

(** ** Status *)

(** Once a sample has been counted, the cache of the last sample and
    its time are filled. *)
Definition cache_filled (s : Service.Status) : Prop :=
  1 <= Service._samples_written s ->
  is_Some (Service._last_states s) /\ is_Some (Service._last_sample_at s).

(** The invariant of a run: the status, and every value it has taken,
    has its cache filled once a sample is counted. *)
Definition cache_inv (r : Service.Run) : Prop :=
  cache_filled (Service.status r)
  /\ Forall cache_filled (Service.published r).

(** A decoder for the examples: one character per byte, which is what
    UTF-8 decoding gives on bytes below 128. *)
Definition decode_ascii (raw : list Byte.byte) : string :=
  string_of_list_byte raw.

(** Calendar arithmetic is not needed when no time window is asked
    for. *)
Definition no_window (now : datetime) (n : Z) : datetime := now.

(** ** The scenarios of the specification *)

Definition scenario_config : Service.PinLoggingServiceConfig :=
  {| Service.port := "COM3"; Service.baud := 115200;
     Service.json_path := "pin_samples.ndjson"; Service.flush_every := 1;
     Service.print_errors := false |}.

Definition scenario_clock : datetime :=
  {| year := 2026; month := 1; day := 13; hour := 4; minute := 32;
     second := 10; microsecond := 123456 |}.

(** A device that sends [lines], one for each read, and a stop request
    seen after [polls] iterations. *)
Definition scenario_world (lines : list string) (polls : nat) : Service.World :=
  {| Service.disk := {| AppendLog.initial := EmptyString;
                        AppendLog.events := []; AppendLog.faults := [] |};
     Service.serial :=
       {| SampleSource.open_error := None; SampleSource.reset_fails := false;
          SampleSource.buffered := [];
          SampleSource.incoming :=
            map (fun l => SampleSource.RxBytes (list_byte_of_string l)) lines;
          SampleSource.os_open := false |};
     Service.time_time := fun _ => 1768278730;
     Service.utc_now := fun _ => scenario_clock;
     Service.readings := 0; Service.stop_after := polls;
     Service.stdout := [] |}.

Definition scenario_run (lines : list string) (polls : nat) : Service.Run :=
  (Service._run decode_ascii scenario_config
     {| Service.status := Service.initial_status;
        Service.world := scenario_world lines polls;
        Service.published := [] |}).1.1.

End Spec.

(** * Further notions used to state properties of the code *)

Module Props.
Import Text LineCodec Fmt Json Datetime.

(** ** Lines *)

(** The line for a list of readings: pin, value, pin, value, ..., each
    written as [str(int)] writes it, separated by commas. *)
Definition line_of (ps : list (Z * Z)) : string :=
  join "," (flat_map (fun pv => [Zdecimal pv.1; Zdecimal pv.2]) ps).

(** A number that [str()] writes and [int()] reads back: one of at
    most [max_str_digits] digits. *)
Definition short_int (z : Z) : Prop := Z.abs z < 10 ^ Z.of_N max_str_digits.

(** A character of a token: neither the separator nor white space. *)
Definition token_char (a : ascii) : bool :=
  negb (Ascii.eqb a ",") && negb (is_space a).

(** The sample that [read_states] makes of the bytes of one line. *)
Definition sample_of (decode : list Byte.byte -> string) (raw : list Byte.byte)
  : option PinStates :=
  if Nat.eqb (length raw) 0 then None
  else
    let line := strip (decode raw) in
    if is_empty line then None
    else match parse_line line with
         | Ok m => Some {| states := m |}
         | Raise _ => None
         end.

(** ** Record texts *)

(** A character of a record before its closing brace, when the
    timestamp is the clock's: printable, neither a space nor the
    brace. *)
Definition solid (a : ascii) : bool :=
  Spec.printable a && negb (Ascii.eqb a " ") && negb (Ascii.eqb a "}").

Definition open_char (a : ascii) : bool := negb (Ascii.eqb a "}").

(** ** The serial line and the file *)

(** What [readline()] still has to hand out. *)
Definition pending (p : SampleSource.Port) : list SampleSource.rx_event :=
  SampleSource.buffered p ++ SampleSource.incoming p.

Definition is_bytes (ev : SampleSource.rx_event) : bool :=
  match ev with SampleSource.RxBytes _ => true | SampleSource.RxFail _ => false end.

(** The number of records written to the file. *)
Definition write_count (evs : list AppendLog.io_event) : nat :=
  length (List.filter
            (fun ev => match ev with AppendLog.IoWrite _ => true | _ => false end)
            evs).

(** ** Runs of the worker *)

(** The samples one run of the loop logs, with the UTC clock reading
    taken for each: [polls] reads of the lines of [stream], [i] clock
    readings having been taken before. A silent device gives nothing
    more, and neither does a line that fails. *)
Fixpoint logged_samples (decode : list Byte.byte -> string)
  (utc : nat -> datetime) (polls i : nat) (stream : list SampleSource.rx_event)
  : list (PinStates * datetime) :=
  match polls with
  | O => []
  | S polls' =>
      match stream with
      | SampleSource.RxBytes raw :: rest =>
          match sample_of decode raw with
          | Some ps => (ps, utc (S i)) :: logged_samples decode utc polls' (S (S i)) rest
          | None => logged_samples decode utc polls' i rest
          end
      | _ => []
      end
  end.

End Props.

(** ** Floating point, as far as the plotting code uses it *)

Module Float.

(** Python's [float] is the IEEE 754 binary64 format. A finite value
    that is not negative is held as the natural number [x * 2^1074]:
    every finite double is a whole multiple of [2^-1074]. *)
Definition float := N.

Definition scale : N := 2 ^ 1074.
(** [2^1024], the first magnitude that is not finite. *)
Definition top : N := 2 ^ 2098.

(** The integer nearest to [p / q], ties to even. *)
Definition rne (p q : N) : N :=
  let k := (p / q)%N in
  let r := (p mod q)%N in
  if (2 * r <? q)%N then k
  else if (q <? 2 * r)%N then (k + 1)%N
  else if N.even k then k else (k + 1)%N.

(** The double nearest to [p / q], ties to even: its 53 leading bits are
    kept, or all the bits down to [2^-1074]. [None] stands for a result
    that is not finite. *)
Definition nearest (p q : N) : N :=
  let y := (p * scale / q)%N in
  let g := (2 ^ (N.size y - 53))%N in
  (g * rne (p * scale) (q * g))%N.

Definition round (p q : N) : option float :=
  let v := nearest p q in
  if (v <? top)%N then Some v else None.

(** [float(i)] for an [int] that is not negative *)
Definition of_int (i : N) : option float := round i 1.
(** [a / b] on two [int]s, correctly rounded *)
Definition true_div (a b : N) : option float := round a b.
(** [x * y] *)
Definition mul (x y : float) : option float := round (x * y) (scale * scale).
(** [int(x)] *)
Definition to_int (x : float) : N := (x / scale)%N.

End Float.

(** ** plot_pins.py: thinning the samples *)

Module Plot.
Import Float.

Inductive plot_exn := OverflowError | IndexError.

(** A list comprehension whose element may raise. *)
Fixpoint collect {A B : Type} (f : A -> res plot_exn B) (l : list A)
  : res plot_exn (list B) :=
  match l with
  | [] => Ok []
  | a :: rest =>
      match f a with
      | Raise e => Raise e
      | Ok b =>
          match collect f rest with
          | Raise e => Raise e
          | Ok bs => Ok (b :: bs)
          end
      end
  end.

(** [range(k)] *)
Definition range (k : Z) : list Z := map Z.of_nat (seq 0 (Z.to_nat k)).

(** [int(i * step)] for [i >= 0]: [i] is converted to a float, the
    product is rounded, and [int] truncates it; a product that is not
    finite makes [int] raise. *)
Definition index_at (step : float) (i : Z) : res plot_exn Z :=
  match of_int (Z.to_N i) with
  | None => Raise OverflowError
  | Some x =>
      match mul x step with
      | None => Raise OverflowError
      | Some y => Ok (Z.of_N (to_int y))
      end
  end.

(** [l[-1] = v] on a list that is not empty *)
Definition set_last (l : list Z) (v : Z) : list Z :=
  match l with
  | [] => []
  | _ => removelast l ++ [v]
  end.

(** [samples[i]]: a negative index counts from the end. *)
Definition item {A : Type} (samples : list A) (i : Z) : res plot_exn A :=
  let n := Z.of_nat (length samples) in
  let j := if i <? 0 then i + n else i in
  if j <? 0 then Raise IndexError
  else match samples !! Z.to_nat j with
       | Some x => Ok x
       | None => Raise IndexError
       end.

(** [downsample(samples, max_points)] *)
Definition downsample {A : Type} (samples : list A) (max_points : Z)
  : res plot_exn (list A) :=
  let n := Z.of_nat (length samples) in
  if (max_points <=? 0) || (n <=? max_points) then Ok samples
  else
    match true_div (Z.to_N n) (Z.to_N max_points) with
    | None => Raise OverflowError
    | Some step =>
        match collect (index_at step) (range max_points) with
        | Raise e => Raise e
        | Ok idx =>
            let idx :=
              match last idx with
              | Some l => if l =? n - 1 then idx else set_last idx (n - 1)
              | None => idx
              end in
            collect (item samples) idx
        end
    end.

(** The index computed for position [i] with step [s]. *)
Definition ixN (s : float) (i : N) : N :=
  to_int (nearest (i * scale * s) (scale * scale)).

(** The positions [downsample] keeps, for a list of [n] samples cut down
    to [m] points. *)
Definition kept (n m : nat) : list nat :=
  map (fun k => N.to_nat (ixN (nearest (N.of_nat n) (N.of_nat m)) (N.of_nat k)))
      (seq 0 (m - 1))
  ++ [(n - 1)%nat].

End Plot.

From Stdlib Require PrimFloat Uint63 SpecFloat FloatOps.

(** ** The machine's binary64 numbers, to check the model of floats *)

Module Hardware.

(** A finite machine number that is not negative, as a multiple of
    [2^-1074]. *)
Definition as_scaled (x : PrimFloat.float) : option N :=
  match FloatOps.Prim2SF x with
  | SpecFloat.S754_zero _ => Some 0%N
  | SpecFloat.S754_finite false m e => Some (Z.to_N (Z.pos m * 2 ^ (e + 1074)))
  | _ => None
  end.

Definition of_int (a : Z) : PrimFloat.float :=
  PrimFloat.of_uint63 (Uint63.of_Z a).

(** [i * (a / b)] on the machine and in the model, for whole numbers
    below [2^53]. *)
Definition machine (i a b : Z) : option N :=
  as_scaled (PrimFloat.mul (of_int i) (PrimFloat.div (of_int a) (of_int b))).

Definition model (i a b : Z) : option N :=
  match Float.of_int (Z.to_N i), Float.true_div (Z.to_N a) (Z.to_N b) with
  | Some x, Some s => Float.mul x s
  | _, _ => None
  end.

Definition samples : list (Z * Z * Z) :=
  [(1, 1, 3); (7, 10, 3); (3, 10, 4); (123456, 1000000, 7); (99, 100, 99);
   (4999, 1000003, 5000); (3, 1, 10); (12345, 7, 1000000007);
   (4503599627370497, 3, 1); (0, 5, 3); (1999, 9007199254740991, 2000);
   (1, 1, 9007199254740991)].

Definition agree (c : Z * Z * Z) : bool :=
  let '(i, a, b) := c in
  match machine i a b, model i a b with
  | Some x, Some y => (x =? y)%N
  | _, _ => false
  end.

End Hardware.

(** ** menu.py: the console menu *)

Module Menu.
Import Text Fmt.

(** What [input()] meets at a prompt: a line typed (without its line
    end), the end of the input, or Ctrl+C. *)
Inductive answer :=
| Typed (s : string)
| Eof
| CtrlC.

Inductive menu_exn := EOFError | KeyboardInterrupt.

(** How a call of [run_menu] goes on: it returns, it raises, it waits at
    the prompt for input that does not come, or it refreshes the status
    for ever. *)
Inductive outcome :=
| Returned
| Raised (e : menu_exn)
| Waiting
| Refreshing.

(** [str(b)] and [str(v)] for a boolean and for an optional integer *)
Definition py_bool (b : bool) : string := if b then "True" else "False".

Definition py_opt_int (o : option Z) : string :=
  match o with
  | Some z => Zdecimal z
  | None => "None"
  end.

(** [status['last_error'] or 'none']: [None] and the empty text are
    both false. *)
Definition or_none (o : option string) : string :=
  match o with
  | Some s => if is_empty s then "none" else s
  | None => "none"
  end.

(** The lines above the prompt, one per [print]. *)
Definition menu_lines : list string :=
  [String nl "==== MENU ===="; "1) Show status";
   "2) Show status (auto-refresh)"; "3) Shut down"].

Definition prompt : string := "Select: ".

(** The answer is a line that selects [c]. *)
Definition chooses (c : string) (a : answer) : bool :=
  match a with
  | Typed s => String.eqb (strip s) c
  | _ => false
  end.

(** The answer is a line that does not select the shut down. *)
Definition stays (a : answer) : bool :=
  match a with
  | Typed s => negb (String.eqb (strip s) "3")
  | _ => false
  end.

(** The number of auto-refreshes selected. *)
Definition refreshes (l : list answer) : nat :=
  length (List.filter (chooses "2") l).

Section Console.

(** The text of [f"{x:.1f}"] for a number of seconds [x], held in the
    unit of the clock readings. *)
Variable fmt1 : Z -> string.

Definition _fmt_seconds (x : option Z) : string :=
  match x with
  | None => "n/a"
  | Some x => fmt1 x +:+ "s"
  end.

(** [print_status(status)]: the texts printed, one per [print]. *)
Definition print_status (status : Service.Snapshot) : list string :=
  let pins := Service.pins status in
  [String nl "--- STATUS ---";
   "Running:         " +:+ py_bool (Service.running status);
   "Serial:          " +:+ Service.snap_port status +:+ " @ "
     +:+ Zdecimal (Service.snap_baud status);
   "Log file:        " +:+ Service.snap_json_path status;
   "Uptime:          " +:+ _fmt_seconds (Service.uptime_s status);
   "Last sample age: " +:+ _fmt_seconds (Service.last_sample_age_s status);
   "Samples written: " +:+ Zdecimal (Service.samples_written status);
   "Bad reads:       " +:+ Zdecimal (Service.bad_reads status);
   "Last error:      " +:+ or_none (Service.last_error status);
   "Pins:            D4=" +:+ py_opt_int (Service.pin_d4 pins)
     +:+ " D5=" +:+ py_opt_int (Service.pin_d5 pins)
     +:+ " D6=" +:+ py_opt_int (Service.pin_d6 pins)
     +:+ " D7=" +:+ py_opt_int (Service.pin_d7 pins)].

(** The two callables are state transformers on what they act on. *)
Variable W : Type.
Variable get_status : W -> Service.Snapshot * W.
Variable stop_service : W -> W.

(** The auto-refresh loop until Ctrl+C: [steps] counts the calls
    completed before it arrives, a call being [get_status()], one
    [print] of [print_status] or [time.sleep(1.0)]; [pending] holds the
    lines of the current status still to print, [None] at the top of
    the loop. *)
Fixpoint refresh (steps : nat) (pending : option (list string)) (st : W)
    (out : list string) : W * list string :=
  match steps with
  | O => (st, out)
  | S n =>
      match pending with
      | None =>
          let '(snap, st') := get_status st in
          refresh n (Some (print_status snap)) st' out
      | Some (l :: rest) => refresh n (Some rest) st (out ++ [l])
      | Some [] => refresh n None st out
      end
  end.

(** [run_menu(get_status, stop_service)]. [answers] is what the prompts
    meet, in order; [breaks] gives, for each auto-refresh, the number of
    steps before Ctrl+C. Ctrl+C arrives at a prompt or during an
    auto-refresh, between two calls. The result holds the state the
    callables have left, everything printed (the prompts included) and
    the answers not read. With [Refreshing] the output goes on without
    end after the part returned. *)
Fixpoint run_menu (answers : list answer) (breaks : list nat) (st : W)
    (out : list string) : outcome * W * list string * list answer :=
  let out := out ++ menu_lines ++ [prompt] in
  match answers with
  | [] => (Waiting, st, out, [])
  | Eof :: rest => (Raised EOFError, st, out, rest)
  | CtrlC :: rest => (Raised KeyboardInterrupt, st, out, rest)
  | Typed s :: rest =>
      let choice := strip s in
      if String.eqb choice "1" then
        let '(snap, st') := get_status st in
        run_menu rest breaks st' (out ++ print_status snap)
      else if String.eqb choice "2" then
        let out := out ++ ["Auto-refreshing. Press Ctrl+C to return to menu."] in
        match breaks with
        | [] => (Refreshing, st, out, rest)
        | n :: breaks' =>
            let '(st', out') := refresh n None st out in
            run_menu rest breaks' st' out'
        end
      else if String.eqb choice "3" then
        (Returned, stop_service st, out ++ ["Service stopped. Exiting."], rest)
      else run_menu rest breaks st (out ++ ["Unknown choice."])
  end.

(** The state after [n] calls of [get_status()]. *)
Definition calls (n : nat) (st : W) : W :=
  Nat.iter n (fun w => (get_status w).2) st.

End Console.

Arguments refresh fmt1 {W} get_status steps pending st out.
Arguments run_menu fmt1 {W} get_status stop_service answers breaks st out.
Arguments calls {W} get_status n st.

(** *** main.py *)

Definition main_cfg : Service.PinLoggingServiceConfig :=
  {| Service.port := "COM3"; Service.baud := 115200;
     Service.json_path := "pin_samples.ndjson"; Service.flush_every := 1;
     Service.print_errors := true |}.

Section Main.

Variable fmt1 : Z -> string.

(** What the [k]-th call of [get_status()] finds: the locked fields as
    the worker has them then, whether the worker is still alive, and the
    reading of [time.time()]. *)
Variable view : nat -> Service.Status * bool.
Variable clock : nat -> Z.

(** What [join] gives when [stop()] is called. *)
Variable joined : Service.join_outcome.

Definition observe (v : Service.Status * bool) (svc : Service.PinLoggingService)
  : Service.PinLoggingService :=
  {| Service.cfg := Service.cfg svc; Service._stop := Service._stop svc;
     Service._thread :=
       match Service._thread svc with
       | Some _ => Some {| Service.is_alive := v.2 |}
       | None => None
       end;
     Service.locked := v.1; Service.spawned := Service.spawned svc |}.

(** [svc.get_status] and [svc.stop] as the menu calls them; the state is
    the service and the number of calls of [get_status()] so far. *)
Definition svc_get_status (w : Service.PinLoggingService * nat)
  : Service.Snapshot * (Service.PinLoggingService * nat) :=
  (Service.get_status (observe (view w.2) w.1) (clock w.2), (w.1, S w.2)).

Definition svc_stop (w : Service.PinLoggingService * nat)
  : Service.PinLoggingService * nat :=
  (Service.stop w.1 joined, w.2).

(** [main()] *)
Definition main (answers : list answer) (breaks : list nat)
  : outcome * (Service.PinLoggingService * nat) * list string * list answer :=
  let svc := Service.start (Service.new main_cfg) in
  run_menu fmt1 svc_get_status svc_stop answers breaks (svc, 0%nat) [].

End Main.

End Menu.

(** * Proofs *)

Import Text LineCodec.

#[local] Arguments String.append !s1 s2 : simpl nomatch.

(** ** Strings *)

Section StringFacts.

Lemma append_nil_r (s : string) : s +:+ EmptyString = s.
Proof. induction s; simpl; congruence. Qed.

Lemma append_assoc (a b c : string) : (a +:+ b) +:+ c = a +:+ (b +:+ c).
Proof. induction a; simpl; congruence. Qed.

Lemma all_chars_app (P : ascii -> bool) (a b : string) :
  Spec.all_chars P (a +:+ b) = Spec.all_chars P a && Spec.all_chars P b.
Proof. induction a as [|x a IH]; simpl; [done|]. by rewrite IH, andb_assoc. Qed.

Lemma all_chars_impl (P Q : ascii -> bool) (s : string) :
  (forall a, P a = true -> Q a = true) ->
  Spec.all_chars P s = true -> Spec.all_chars Q s = true.
Proof.
  intros HPQ. induction s as [|x s IH]; simpl; [done|].
  intros [Hx Hs]%andb_true_iff. rewrite (HPQ _ Hx). by apply IH.
Qed.

End StringFacts.

(** ** Line Codec *)

Section LineCodecFacts.

Lemma pairs_ind {A : Type} (P : list A -> Prop) :
  P [] -> (forall a, P [a]) -> (forall a b l, P l -> P (a :: b :: l)) ->
  forall l, P l.
Proof.
  intros H0 H1 H2 l.
  assert (H : P l /\ forall a, P (a :: l)).
  { induction l as [|b l [IHl IHl']]; split; auto. }
  apply H.
Qed.

Lemma even_length_mod (n : nat) : Nat.Even n -> (n mod 2 = 0)%nat.
Proof.
  intros [k ->]. rewrite Nat.mul_comm. apply Nat.Div0.mod_mul.
Qed.

Lemma odd_length_mod (n : nat) : Nat.Odd n -> (n mod 2 = 1)%nat.
Proof.
  intros [k ->]. replace (2 * k + 1)%nat with (1 + k * 2)%nat by lia.
  rewrite Nat.Div0.mod_add. reflexivity.
Qed.

Lemma mod2_SS (n : nat) : (S (S n) mod 2 = n mod 2)%nat.
Proof.
  replace (S (S n)) with (n + 1 * 2)%nat by lia. apply Nat.Div0.mod_add.
Qed.

Lemma lookup_puts (ps : list (Z * Z)) (out : gmap Z Z) (pin : Z) :
  foldl Spec.put out ps !! pin
  = match Spec.last_value pin ps with Some w => Some w | None => out !! pin end.
Proof.
  revert out. induction ps as [|[p v] ps IH]; intros out; simpl; [done|].
  rewrite IH. destruct (Spec.last_value pin ps); [done|].
  unfold Spec.put; simpl. destruct (Z.eqb_spec p pin) as [->|Hne].
  - apply lookup_insert_eq.
  - by apply lookup_insert_ne.
Qed.

Lemma parse_pairs_ok (toks : list string) :
  forall (zs : list Z) (out : gmap Z Z),
    Forall2 (fun tok z => py_int tok = Some z) toks zs ->
    (length toks mod 2 = 0)%nat ->
    parse_pairs toks out = Ok (foldl Spec.put out (Spec.pair_up zs)).
Proof.
  induction toks as [|a|a b toks IH] using pairs_ind; intros zs out HF Hlen.
  - inversion HF; subst. reflexivity.
  - discriminate Hlen.
  - inversion HF as [|? za ? zs1 Ha HF1]; subst.
    inversion HF1 as [|? zb ? zs2 Hb HF2]; subst.
    simpl. rewrite Ha, Hb. apply IH; [done|].
    rewrite <- (mod2_SS (length toks)). exact Hlen.
Qed.

Lemma parse_pairs_invalid (toks : list string) :
  forall out : gmap Z Z,
    (length toks mod 2 = 0)%nat ->
    Exists (fun tok => py_int tok = None) toks ->
    exists lit, parse_pairs toks out = Raise (ValueError_int lit).
Proof.
  induction toks as [|a|a b toks IH] using pairs_ind; intros out Hlen HE.
  - inversion HE.
  - discriminate Hlen.
  - simpl. destruct (py_int a) as [za|] eqn:Ha; [|by eexists].
    destruct (py_int b) as [zb|] eqn:Hb; [|by eexists].
    apply IH.
    + rewrite <- (mod2_SS (length toks)). exact Hlen.
    + inversion HE as [? ? H|? ? H]; subst; [congruence|].
      inversion H as [? ? H'|? ? H']; subst; [congruence|done].
Qed.

(** *** Lines and their fields *)

Lemma split_from_app (sep : ascii) (a b cur : string) :
  split_from sep cur (a +:+ String sep b)
  = split_from sep cur a ++ split_from sep EmptyString b.
Proof.
  revert cur. induction a as [|c a IH]; intros cur.
  - cbn [String.append split_from]. by rewrite Ascii.eqb_refl.
  - cbn [String.append split_from]. destruct (Ascii.eqb c sep).
    + by rewrite IH.
    + apply IH.
Qed.

Lemma tokens_app (a b : string) :
  tokens (a +:+ String "," b) = tokens a ++ tokens b.
Proof.
  unfold tokens, split. rewrite split_from_app, List.filter_app, map_app.
  reflexivity.
Qed.

Lemma split_from_free (s cur : string) :
  Spec.comma_free s = true -> split_from "," cur s = [cur +:+ s].
Proof.
  revert cur. induction s as [|a s IH]; intros cur Hs.
  - simpl. by rewrite append_nil_r.
  - cbn [Spec.comma_free Spec.all_chars] in Hs.
    apply andb_true_iff in Hs as [Ha Hs]. apply negb_true_iff in Ha.
    cbn [split_from]. rewrite Ha, (IH _ Hs), append_assoc. reflexivity.
Qed.

Lemma tokens_field (x : string) :
  Spec.comma_free x = true -> tokens x = Spec.trimmed_tokens [x].
Proof.
  intros Hx. unfold tokens, split, Spec.trimmed_tokens.
  rewrite split_from_free by done.
  cbn [String.append List.filter map]. by destruct (is_empty (strip x)).
Qed.

(** The code's tokens are the fields trimmed, the empty ones left
    out. *)
Lemma tokens_of_fields (fields : list string) :
  Forall (fun f => Spec.comma_free f = true) fields ->
  tokens (Spec.line_of_fields fields) = Spec.trimmed_tokens fields.
Proof.
  unfold Spec.line_of_fields.
  induction fields as [|x fields IH]; intros HF; [reflexivity|].
  inversion HF as [|? ? Hx HF']; subst.
  destruct fields as [|y fields].
  - cbn [Json.join]. by apply tokens_field.
  - change (Json.join "," (x :: y :: fields))
      with (x +:+ String "," (Json.join "," (y :: fields))).
    rewrite tokens_app, (IH HF'), tokens_field by done.
    unfold Spec.trimmed_tokens. cbn [map List.filter].
    by destruct (is_empty (strip x)).
Qed.

(** Every line is made of fields: the pieces [split] cuts it into. *)
Lemma split_from_fields (s : string) :
  forall cur : string,
    Spec.comma_free cur = true ->
    Forall (fun f => Spec.comma_free f = true) (split_from "," cur s)
    /\ Json.join "," (split_from "," cur s) = cur +:+ s.
Proof.
  induction s as [|c s IH]; intros cur Hcur.
  - cbn [split_from Json.join]. rewrite append_nil_r. by repeat constructor.
  - cbn [split_from]. destruct (Ascii.eqb c ",") eqn:Hc.
    + apply Ascii.eqb_eq in Hc as ->.
      destruct (IH EmptyString eq_refl) as [HF Hj]. split; [by constructor|].
      destruct (split_from "," EmptyString s) as [|y l] eqn:E.
      { by destruct s; simpl in E; try destruct (Ascii.eqb _ _). }
      change (Json.join "," (cur :: y :: l))
        with (cur +:+ String "," (Json.join "," (y :: l))).
      by rewrite Hj.
    + assert (Hcur' : Spec.comma_free (cur +:+ str1 c) = true).
      { unfold Spec.comma_free in *. rewrite all_chars_app, Hcur.
        cbn [Spec.all_chars str1]. by rewrite Hc. }
      destruct (IH _ Hcur') as [HF Hj]. split; [done|].
      rewrite Hj, append_assoc. reflexivity.
Qed.

Lemma line_fields (line : string) :
  Forall (fun f => Spec.comma_free f = true) (split "," line)
  /\ line = Spec.line_of_fields (split "," line).
Proof.
  destruct (split_from_fields line EmptyString eq_refl) as [HF Hj].
  split; [exact HF|]. unfold Spec.line_of_fields, split. by rewrite Hj.
Qed.

End LineCodecFacts.

(** C1. Every line is a sequence of fields separated by commas, none
    holding a comma. Whichever the fields, take them trimmed and leave
    the empty ones out: when what is left is an even number of valid
    integers, the line decodes to the mapping that gives each pin the
    value of its last occurrence in the line; when it is an odd number
    of tokens, or holds a token that is not an integer, the line fails
    with [MalformedLine] (a [ValueError]). *)
Theorem parse_line_last_write_wins (line : string) :
  (exists fields,
      Forall (fun f => Spec.comma_free f = true) fields
      /\ line = Spec.line_of_fields fields)
  /\ forall fields,
      Forall (fun f => Spec.comma_free f = true) fields ->
      line = Spec.line_of_fields fields ->
      let toks := Spec.trimmed_tokens fields in
      (forall zs : list Z,
          Forall2 (fun tok z => py_int tok = Some z) toks zs ->
          Nat.Even (length zs) ->
          exists m : gmap Z Z,
            parse_line line = Ok m
            /\ forall pin, m !! pin = Spec.last_value pin (Spec.pair_up zs))
      /\ (Nat.Odd (length toks)
          \/ Exists (fun tok => py_int tok = None) toks ->
          exists e, parse_line line = Raise e /\ MalformedLine e).
Proof.
  split.
  { exists (split "," line). apply line_fields. }
  intros fields Hfree -> toks.
  assert (Htok : tokens (Spec.line_of_fields fields) = toks)
    by (by apply tokens_of_fields).
  split.
  - intros zs HF Hev.
    pose proof (Forall2_length _ _ _ HF) as Hlen.
    assert (Hmod : (length toks mod 2 = 0)%nat)
      by (rewrite Hlen; by apply even_length_mod).
    exists (foldl Spec.put ∅ (Spec.pair_up zs)). split.
    + unfold parse_line. rewrite Htok, Hmod. simpl. by apply parse_pairs_ok.
    + intros pin. rewrite lookup_puts, lookup_empty.
      by destruct (Spec.last_value pin (Spec.pair_up zs)).
  - intros H. unfold parse_line. rewrite Htok.
    destruct (Nat.eqb_spec (length toks mod 2) 0) as [Hmod|Hmod]; simpl.
    + destruct H as [Hodd|HE].
      * apply odd_length_mod in Hodd. congruence.
      * destruct (parse_pairs_invalid toks ∅ Hmod HE) as [lit ->].
        by eexists.
    + by eexists.
Qed.

Lemma parse_line_last_write_wins_witness :
  (exists m : gmap Z Z,
      parse_line " 4 ,1,, 5,0 ,4, 0 ," = Ok m
      /\ m !! 4 = Some 0 /\ m !! 5 = Some 0 /\ m !! 1 = None)
  /\ (exists e, parse_line "4,1,,5" = Raise e /\ MalformedLine e)
  /\ (exists e, parse_line "4, ,1 0" = Raise e /\ MalformedLine e).
Proof.
  split; [|split].
  - destruct (parse_line_last_write_wins " 4 ,1,, 5,0 ,4, 0 ,") as [_ H].
    destruct (H [" 4 "; "1"; ""; " 5"; "0 "; "4"; " 0 "; ""]%string
                ltac:(repeat constructor) eq_refl) as [Hok _].
    destruct (Hok [4; 1; 5; 0; 4; 0]) as (m & Hm & Hlook).
    + repeat constructor.
    + exists 3%nat. reflexivity.
    + exists m. split; [exact Hm|]. split_and!; rewrite Hlook; reflexivity.
  - destruct (parse_line_last_write_wins "4,1,,5") as [_ H].
    destruct (H ["4"; "1"; ""; "5"]%string ltac:(repeat constructor) eq_refl)
      as [_ Hbad].
    apply Hbad. left. exists 1%nat. reflexivity.
  - destruct (parse_line_last_write_wins "4, ,1 0") as [_ H].
    destruct (H ["4"; " "; "1 0"]%string ltac:(repeat constructor) eq_refl)
      as [_ Hbad].
    apply Hbad. right. apply Exists_cons_tl, Exists_cons_hd. reflexivity.
Defined.

(** ** Sample Source *)

Import SampleSource.

(** C2. [read_states] raises the not-open [RuntimeError] exactly when the
    serial connection is not open. On an open connection whose [readline]
    returns bytes it returns [None] when there are no bytes or the decoded
    line is empty after trimming, [None] again (nothing is raised) when the
    Line Codec fails on the line, and the decoded sample otherwise. *)
Theorem read_states_contract (decode : list Byte.byte -> string)
  (mon : ArduinoPinMonitor) (p : Port) :
  ((exists msg, (read_states decode mon p).1 = Raise (RuntimeError msg))
   <-> ser_is_open mon = false)
  /\ (ser_is_open mon = true ->
      forall raw p', readline p = (RxBytes raw, p') ->
        let line := strip (decode raw) in
        (raw = [] \/ line = EmptyString ->
         read_states decode mon p = (Ok None, p'))
        /\ (raw <> [] -> line <> EmptyString ->
            match parse_line line with
            | Raise _ => read_states decode mon p = (Ok None, p')
            | Ok m => read_states decode mon p = (Ok (Some {| states := m |}), p')
            end)).
Proof.
  unfold read_states. split; [split|].
  - intros [msg H]. destruct (ser_is_open mon); [|done]. simpl in H.
    destruct (readline p) as [[raw|m] p']; simpl in H; [|discriminate].
    destruct (length raw =? 0)%nat; [discriminate|].
    destruct (is_empty _); [discriminate|].
    destruct (parse_line _); discriminate.
  - intros ->. simpl. by eexists.
  - intros -> raw p' ->. simpl. split.
    + intros [->|Hline]; [reflexivity|].
      destruct (length raw =? 0)%nat; [reflexivity|]. by rewrite Hline.
    + intros Hraw Hline.
      destruct raw as [|b raw]; [done|]. simpl.
      destruct (strip (decode (b :: raw))) eqn:E; [done|]. simpl.
      by destruct (parse_line _).
Qed.

Lemma read_states_contract_witness :
  let mon := set_ser (Some {| is_open := true |}) (SampleSource.new "COM3" 115200) in
  let p := {| open_error := None; reset_fails := false; buffered := [];
              incoming := [RxBytes (list_byte_of_string "4,1,5,0 ")];
              os_open := true |} in
  (read_states Spec.decode_ascii mon p).1
  = Ok (Some {| states := <[5 := 0]> (<[4 := 1]> ∅) |}).
Proof.
  intros mon p.
  destruct (read_states_contract Spec.decode_ascii mon p) as [_ H].
  destruct (H eq_refl (list_byte_of_string "4,1,5,0 ")
              {| open_error := None; reset_fails := false; buffered := [];
                 incoming := []; os_open := true |} eq_refl) as [_ H2].
  assert (Hraw : list_byte_of_string "4,1,5,0 " <> []) by discriminate.
  assert (Hline : strip (Spec.decode_ascii (list_byte_of_string "4,1,5,0 "))
                  <> EmptyString) by discriminate.
  specialize (H2 Hraw Hline).
  vm_compute in H2. vm_compute. exact (f_equal fst H2).
Defined.

(** ** Decimal digits *)

Import Fmt Json Datetime.

Section DigitFacts.

Lemma pow10_S (k : nat) : Spec.pow10 (S k) = (10 * Spec.pow10 k)%N.
Proof. unfold Spec.pow10. rewrite Nat2N.inj_succ. apply N.pow_succ_r'. Qed.

Lemma pow10_pos (k : nat) : (0 < Spec.pow10 k)%N.
Proof.
  induction k as [|k IH]; [reflexivity|]. rewrite pow10_S. lia.
Qed.

Lemma N_of_digit_of (d : N) : N_of_ascii (digit_of d) = (48 + d mod 10)%N.
Proof.
  unfold digit_of. apply N_ascii_embedding.
  pose proof (N.mod_upper_bound d 10). lia.
Qed.

Lemma digit_val_digit_of (d : N) : digit_val (digit_of d) = Some (d mod 10)%N.
Proof.
  unfold digit_val. rewrite N_of_digit_of.
  pose proof (N.mod_upper_bound d 10) as Hk.
  set (k := (d mod 10)%N) in *. clearbody k.
  destruct (N.leb_spec 48 (48 + k)); [|lia].
  destruct (N.leb_spec (48 + k) 57); [|lia].
  simpl. f_equal. lia.
Qed.

Lemma is_digit_digit_of (d : N) : is_digit (digit_of d) = true.
Proof. unfold is_digit. by rewrite digit_val_digit_of. Qed.

(** Every digit character is one of the ten. *)
Lemma digit_of_cases (d : N) :
  In (digit_of d) ["0"; "1"; "2"; "3"; "4"; "5"; "6"; "7"; "8"; "9"]%char.
Proof.
  unfold digit_of. pose proof (N.mod_upper_bound d 10) as H.
  set (k := (d mod 10)%N) in *. clearbody k.
  assert (Hk : (k = 0 \/ k = 1 \/ k = 2 \/ k = 3 \/ k = 4 \/ k = 5 \/ k = 6
                \/ k = 7 \/ k = 8 \/ k = 9)%N) by lia.
  repeat (destruct Hk as [->|Hk]; [vm_compute; tauto|]).
  rewrite Hk. vm_compute; tauto.
Qed.

Lemma digits_w_length (w : nat) (n : N) : String.length (digits_w w n) = w.
Proof. induction w; simpl; congruence. Qed.

Lemma digits_w_all_digits (w : nat) (n : N) :
  Spec.all_chars is_digit (digits_w w n) = true.
Proof.
  induction w as [|w IH]; simpl; [done|]. by rewrite is_digit_digit_of.
Qed.

Lemma digits_w_step (w : nat) (n : N) :
  digits_w (S w) n = String (digit_of (n / Spec.pow10 w)) (digits_w w n).
Proof. reflexivity. Qed.

Lemma mod_pow10_S (w : nat) (n : N) :
  (n mod Spec.pow10 (S w)
   = (n / Spec.pow10 w) mod 10 * Spec.pow10 w + n mod Spec.pow10 w)%N.
Proof.
  rewrite pow10_S, (N.mul_comm 10), N.Div0.mod_mul_r. lia.
Qed.

Lemma read_digits_digits_w (w : nat) (n : N) :
  forall (acc : N) (rest : string),
    read_digits w (digits_w w n +:+ rest) acc
    = Some (acc * Spec.pow10 w + n mod Spec.pow10 w, rest)%N.
Proof.
  induction w as [|w IH]; intros acc rest.
  - simpl. rewrite N.mod_1_r. f_equal. f_equal. unfold Spec.pow10. simpl. lia.
  - rewrite digits_w_step. simpl. rewrite digit_val_digit_of, IH.
    rewrite (mod_pow10_S w n), pow10_S. f_equal. f_equal. lia.
Qed.

Lemma digits_value_digits_w (w : nat) (n : N) :
  forall acc : N,
    digits_value (digits_w w n) acc
    = (acc * Spec.pow10 w + n mod Spec.pow10 w)%N.
Proof.
  induction w as [|w IH]; intros acc.
  - simpl. rewrite N.mod_1_r. unfold Spec.pow10. simpl. lia.
  - rewrite digits_w_step. simpl. rewrite digit_val_digit_of, IH.
    rewrite (mod_pow10_S w n), pow10_S. lia.
Qed.

Lemma span_digits_stop (rest : string) :
  Spec.stops_digits rest = true -> span_digits rest = (EmptyString, rest).
Proof.
  destruct rest as [|a rest]; simpl; [done|]. by destruct (is_digit a).
Qed.

Lemma span_digits_digits_w (w : nat) (n : N) (rest : string) :
  Spec.stops_digits rest = true ->
  span_digits (digits_w w n +:+ rest) = (digits_w w n, rest).
Proof.
  intros Hrest. induction w as [|w IH]; simpl.
  - by apply span_digits_stop.
  - by rewrite is_digit_digit_of, IH.
Qed.

Lemma div10_bounds (n : N) : (10 * (n / 10) <= n < 10 * (n / 10) + 10)%N.
Proof.
  pose proof (N.Div0.div_mod n 10) as Hdm.
  pose proof (N.mod_upper_bound n 10) as Hm.
  set (q := (n / 10)%N) in *. set (r := (n mod 10)%N) in *.
  clearbody q r. lia.
Qed.

Lemma ndigits_fuel_bounds (fuel : nat) :
  forall n : N,
    (n < 2 ^ N.of_nat fuel)%N ->
    (1 <= ndigits_fuel fuel n)%nat
    /\ (n < Spec.pow10 (ndigits_fuel fuel n))%N
    /\ (n <> 0%N -> (Spec.pow10 (ndigits_fuel fuel n - 1) <= n)%N).
Proof.
  induction fuel as [|fuel IH]; intros n Hn.
  - simpl in *. assert (n = 0%N) by lia. subst.
    split; [lia|]. split; [reflexivity|]. congruence.
  - simpl. destruct (N.ltb_spec n 10) as [Hlt|Hge].
    + split; [lia|]. split; [exact Hlt|]. intros ?. simpl.
      unfold Spec.pow10. simpl. lia.
    + rewrite Nat2N.inj_succ, N.pow_succ_r' in Hn.
      pose proof (div10_bounds n) as Hdiv.
      set (q := (n / 10)%N) in *. clearbody q.
      assert (Hq : (q < 2 ^ N.of_nat fuel)%N) by lia.
      destruct (IH _ Hq) as (H1 & H2 & H3).
      assert (Hq0 : q <> 0%N) by lia.
      specialize (H3 Hq0).
      split; [lia|]. split; [rewrite pow10_S; lia|]. intros _.
      replace (S (ndigits_fuel fuel q) - 1)%nat
        with (S (ndigits_fuel fuel q - 1)) by lia.
      rewrite pow10_S. lia.
Qed.

Lemma ndigits_bounds (n : N) :
  (1 <= ndigits n)%nat
  /\ (n < Spec.pow10 (ndigits n))%N
  /\ (n <> 0%N -> (Spec.pow10 (ndigits n - 1) <= n)%N).
Proof.
  apply ndigits_fuel_bounds. rewrite N2Nat.id. apply N.size_gt.
Qed.

Lemma pow10_le (a b : nat) : (a <= b)%nat -> (Spec.pow10 a <= Spec.pow10 b)%N.
Proof.
  intros H. unfold Spec.pow10. apply N.pow_le_mono_r; lia.
Qed.

Lemma ndigits_le (w : nat) (n : N) :
  (1 <= w)%nat -> (n < Spec.pow10 w)%N -> (ndigits n <= w)%nat.
Proof.
  intros Hw Hn. destruct (ndigits_bounds n) as (H1 & _ & H3).
  destruct (N.eq_dec n 0%N) as [->|Hne]; [vm_compute; lia|].
  specialize (H3 Hne).
  destruct (Nat.le_gt_cases (ndigits n) w) as [|Hgt]; [done|].
  pose proof (pow10_le w (ndigits n - 1) ltac:(lia)). lia.
Qed.

Lemma pad0_fits (w : nat) (n : N) :
  (1 <= w)%nat -> (n < Spec.pow10 w)%N -> pad0 w n = digits_w w n.
Proof.
  intros Hw Hn. unfold pad0. f_equal. pose proof (ndigits_le w n Hw Hn). lia.
Qed.

Lemma digits_value_decimal (n : N) : digits_value (decimal n) 0 = n.
Proof.
  unfold decimal. rewrite digits_value_digits_w.
  destruct (ndigits_bounds n) as (_ & H & _). rewrite N.mod_small; lia.
Qed.

(** [str(n)] has no leading zero unless [n] is zero. *)
Lemma decimal_head (n : N) :
  exists (q : N) (tail : string),
    decimal n = String (digit_of q) tail
    /\ Spec.all_chars is_digit tail = true
    /\ (n <> 0%N -> Ascii.eqb (digit_of q) "0" = false)
    /\ (n = 0%N -> tail = EmptyString).
Proof.
  unfold decimal. destruct (ndigits_bounds n) as (H1 & H2 & H3).
  destruct (ndigits n) as [|k] eqn:E; [lia|].
  exists (n / Spec.pow10 k)%N, (digits_w k n).
  split; [apply digits_w_step|]. split; [apply digits_w_all_digits|]. split.
  - intros Hne. specialize (H3 Hne). simpl in H3. rewrite Nat.sub_0_r in H3.
    rewrite pow10_S in H2. pose proof (pow10_pos k) as Hp.
    assert (Hq1 : (1 <= n / Spec.pow10 k)%N).
    { apply N.div_le_lower_bound; lia. }
    assert (Hq2 : (n / Spec.pow10 k < 10)%N).
    { apply N.Div0.div_lt_upper_bound. lia. }
    apply Ascii.eqb_neq. intros Heq.
    apply (f_equal N_of_ascii) in Heq. rewrite N_of_digit_of in Heq.
    rewrite N.mod_small in Heq by lia. simpl in Heq. lia.
  - intros ->. vm_compute in E. injection E as <-. reflexivity.
Qed.

End DigitFacts.

(** ** JSON: what is written parses back *)

Section JsonFacts.

Lemma eqb_code (a b : ascii) :
  Ascii.eqb a b = (N_of_ascii a =? N_of_ascii b)%N.
Proof.
  destruct (Ascii.eqb_spec a b) as [->|Hne].
  - symmetry. apply N.eqb_refl.
  - symmetry. apply N.eqb_neq. intros Heq. apply Hne.
    rewrite <- (ascii_N_embedding a), <- (ascii_N_embedding b). by rewrite Heq.
Qed.

Lemma plain_inv (a : ascii) :
  Spec.plain a = true ->
  Ascii.eqb a dquote = false /\ Ascii.eqb a backslash = false
  /\ (N_of_ascii a <? 32)%N = false /\ escape_char a = str1 a.
Proof.
  unfold Spec.plain, escape_char. rewrite !eqb_code.
  change (N_of_ascii dquote) with 34%N. change (N_of_ascii backslash) with 92%N.
  set (n := N_of_ascii a). clearbody n. intros H.
  destruct (N.leb_spec 32 n); [|discriminate].
  destruct (N.leb_spec n 126); [|discriminate].
  destruct (N.eqb_spec n 34); [discriminate|].
  destruct (N.eqb_spec n 92); [discriminate|].
  destruct (N.ltb_spec n 32); [lia|].
  repeat match goal with
         | |- context [(n =? ?k)%N] => destruct (N.eqb_spec n k); [lia|]
         end.
  done.
Qed.

Lemma escape_plain (s : string) :
  Spec.all_chars Spec.plain s = true -> escape s = s.
Proof.
  induction s as [|a s IH]; simpl; [done|].
  intros [Ha Hs]%andb_true_iff.
  destruct (plain_inv a Ha) as (_ & _ & _ & ->). simpl. by rewrite IH.
Qed.

Lemma scan_string_plain (s rest : string) :
  Spec.all_chars Spec.plain s = true ->
  scan_string (s +:+ String dquote rest) = Some (s, rest).
Proof.
  induction s as [|a s IH]; [reflexivity|].
  intros [Ha Hs]%andb_true_iff.
  destruct (plain_inv a Ha) as (H1 & H2 & H3 & _).
  cbn [String.append scan_string]. rewrite H1, H2, H3, IH; done.
Qed.

Lemma span_digits_all (s rest : string) :
  Spec.all_chars is_digit s = true -> Spec.stops_digits rest = true ->
  span_digits (s +:+ rest) = (s, rest).
Proof.
  intros Hs Hrest. induction s as [|a s IH]; simpl.
  - by apply span_digits_stop.
  - simpl in Hs. apply andb_true_iff in Hs as [Ha Hs]. by rewrite Ha, IH.
Qed.

Lemma int_part_decimal (n : N) (rest : string) :
  Spec.stops_digits rest = true ->
  int_part (decimal n +:+ rest) = (decimal n, rest).
Proof.
  intros Hrest. destruct (decimal_head n) as (q & tail & E & Htail & Hnz & Hz).
  rewrite E. cbn [String.append int_part].
  destruct (Ascii.eqb (digit_of q) "0") eqn:Eq.
  - destruct (N.eq_dec n 0%N) as [Hn|Hn].
    + by rewrite (Hz Hn).
    + discriminate (Hnz Hn).
  - change (String (digit_of q) (tail +:+ rest))
      with (String (digit_of q) tail +:+ rest).
    apply span_digits_all; [|done]. simpl. by rewrite is_digit_digit_of.
Qed.

(** A digit is none of the characters that start another kind of
    value. *)
Lemma digit_dispatch (f : nat) (q : N) (r : string) :
  parse_value (S f) (String (digit_of q) r) = parse_number (String (digit_of q) r)
  /\ parse_value (S f) (String "-" (String (digit_of q) r))
     = parse_number (String "-" (String (digit_of q) r))
  /\ Ascii.eqb (digit_of q) "-" = false
  /\ is_json_ws (digit_of q) = false.
Proof.
  pose proof (digit_of_cases q) as H. simpl in H.
  repeat (destruct H as [<-|H]; [repeat split; reflexivity|]). done.
Qed.

Lemma ends_number_inv (rest : string) :
  Spec.ends_number rest = true ->
  Spec.stops_digits rest = true
  /\ frac_part rest = (EmptyString, rest)
  /\ exp_part rest = (EmptyString, rest).
Proof.
  destruct rest as [|a r]; [discriminate|]. simpl.
  intros [Ha|Ha]%orb_true_iff; apply Ascii.eqb_eq in Ha; subst a; done.
Qed.

Lemma parse_number_nat (neg : bool) (n : N) (rest : string) :
  Spec.ends_number rest = true ->
  (let '(ip, r1) := int_part (decimal n +:+ rest) in
   if is_empty ip then None
   else
     let '(fp, r2) := frac_part r1 in
     let '(ep, r3) := exp_part r2 in
     if is_empty fp && is_empty ep
     then let m := Z.of_N (digits_value ip 0) in
          Some (JInt (if neg then - m else m), r1)
     else Some (JFloat ((if neg then "-" else EmptyString) +:+ ip +:+ fp +:+ ep), r3))
  = Some (JInt (if neg then - Z.of_N n else Z.of_N n), rest).
Proof.
  intros Hrest. destruct (ends_number_inv rest Hrest) as (Hs & Hf & He).
  rewrite (int_part_decimal n rest Hs).
  destruct (decimal_head n) as (q & tail & E & _).
  assert (Hne : is_empty (decimal n) = false) by (by rewrite E).
  rewrite Hne, Hf, He. simpl. by rewrite digits_value_decimal.
Qed.

Lemma parse_value_int (f : nat) (z : Z) (rest : string) :
  Spec.ends_number rest = true ->
  parse_value (S f) (skip_ws (Zdecimal z +:+ rest)) = Some (JInt z, rest).
Proof.
  intros Hrest. unfold Zdecimal. destruct (Z.ltb_spec z 0) as [Hneg|Hpos].
  - destruct (decimal_head (Z.to_N (- z))) as (q & tail & E & _).
    cbn [String.append skip_ws].
    change (is_json_ws "-") with false. cbv iota.
    rewrite E. cbn [String.append].
    destruct (digit_dispatch f q (tail +:+ rest)) as (_ & -> & _).
    change (String (digit_of q) (tail +:+ rest))
      with (String (digit_of q) tail +:+ rest).
    rewrite <- E. unfold parse_number.
    change (Ascii.eqb "-" "-") with true. cbv iota.
    rewrite (parse_number_nat true _ rest Hrest). do 3 f_equal. lia.
  - destruct (decimal_head (Z.to_N z)) as (q & tail & E & _).
    rewrite E. cbn [String.append skip_ws].
    destruct (digit_dispatch f q (tail +:+ rest)) as (Hv & _ & Hm & Hws).
    rewrite Hws, Hv. unfold parse_number. rewrite Hm.
    change (String (digit_of q) (tail +:+ rest))
      with (String (digit_of q) tail +:+ rest).
    rewrite <- E.
    rewrite (parse_number_nat false _ rest Hrest). do 3 f_equal. lia.
Qed.

(** A pin field, as written, followed by [,] or [}]. *)
Lemma parse_value_pin_field (f : nat) (o : option Z) (rest : string) :
  Spec.ends_number rest = true ->
  parse_value (S f) (skip_ws (Spec.pin_field o +:+ rest))
  = Some (AppendLog.opt_int o, rest).
Proof.
  intros Hrest. destruct o as [v|]; simpl Spec.pin_field.
  - by apply parse_value_int.
  - destruct rest as [|a r]; [discriminate|]. reflexivity.
Qed.

End JsonFacts.

Section RecordFacts.

Lemma dumps_opt_int (o : option Z) :
  dumps (AppendLog.opt_int o) = Spec.pin_field o.
Proof. by destruct o. Qed.

(** The compact form of the logger's dictionary is the record of the
    specification. *)
Lemma dumps_record (tail ts : string) (o4 o5 o6 o7 : option Z) :
  Spec.all_chars Spec.plain ts = true ->
  dumps (JObj [("ts_utc", JStr ts); ("d4", AppendLog.opt_int o4);
               ("d5", AppendLog.opt_int o5); ("d6", AppendLog.opt_int o6);
               ("d7", AppendLog.opt_int o7)]) +:+ tail
  = Spec.record_then tail ts o4 o5 o6 o7.
Proof.
  intros Hts. simpl.
  rewrite (escape_plain ts Hts), !dumps_opt_int.
  unfold Spec.record_then. repeat (rewrite !append_assoc; simpl).
  reflexivity.
Qed.

Lemma parse_value_object (f : nat) (r : string) :
  parse_value (S f) (String "{" (String dquote r))
  = parse_members f (String dquote r) [].
Proof. reflexivity. Qed.

Lemma parse_value_string (f : nat) (ts rest : string) :
  Spec.all_chars Spec.plain ts = true ->
  parse_value (S f) (skip_ws (String dquote (ts +:+ String dquote rest)))
  = Some (JStr ts, rest).
Proof.
  intros Hts. cbn [skip_ws]. change (is_json_ws dquote) with false.
  cbn [parse_value]. change (Ascii.eqb dquote dquote) with true.
  cbv iota. by rewrite scan_string_plain.
Qed.

Lemma parse_members_step (f : nat) (key X : string)
  (acc : list (string * json)) :
  Spec.all_chars Spec.plain key = true ->
  parse_members (S f) (String dquote (key +:+ String dquote (String ":" X))) acc
  = match parse_value f (skip_ws X) with
    | Some (v, r3) =>
        match skip_ws r3 with
        | String c3 r4 =>
            if Ascii.eqb c3 ","
            then parse_members f (skip_ws r4) (dict_set key v acc)
            else if Ascii.eqb c3 "}"
            then Some (JObj (dict_set key v acc), r4)
            else None
        | EmptyString => None
        end
    | None => None
    end.
Proof.
  intros Hkey. cbn [parse_members].
  change (Ascii.eqb dquote dquote) with true. cbv iota.
  rewrite scan_string_plain by done. reflexivity.
Qed.

(** After a member's value: the separator, then the next key. *)
Ltac next_member key :=
  cbn [skip_ws]; change (is_json_ws ",") with false; cbv iota;
  change (Ascii.eqb "," ",") with true; cbv iota;
  change (is_json_ws dquote) with false; cbv iota;
  etransitivity; [apply (parse_members_step _ key); done|];
  rewrite parse_value_pin_field by done.

Lemma parse_record (f : nat) (tail ts : string) (o4 o5 o6 o7 : option Z) :
  Spec.all_chars Spec.plain ts = true ->
  parse_value (S (S (S (S (S (S (S f)))))))
    (Spec.record_then tail ts o4 o5 o6 o7)
  = Some (JObj [("ts_utc", JStr ts); ("d4", AppendLog.opt_int o4);
                ("d5", AppendLog.opt_int o5); ("d6", AppendLog.opt_int o6);
                ("d7", AppendLog.opt_int o7)], tail).
Proof.
  intros Hts. unfold Spec.record_then. simpl String.append.
  rewrite parse_value_object.
  etransitivity; [apply (parse_members_step _ "ts_utc"); done|].
  rewrite parse_value_string by done.
  next_member "d4". next_member "d5". next_member "d6". next_member "d7".
  reflexivity.
Qed.

Lemma loads_record (ts : string) (o4 o5 o6 o7 : option Z) :
  Spec.all_chars Spec.plain ts = true ->
  loads (Spec.record_then EmptyString ts o4 o5 o6 o7)
  = Some (JObj [("ts_utc", JStr ts); ("d4", AppendLog.opt_int o4);
                ("d5", AppendLog.opt_int o5); ("d6", AppendLog.opt_int o6);
                ("d7", AppendLog.opt_int o7)]).
Proof.
  intros Hts. unfold loads.
  assert (Hlen : exists f, String.length (Spec.record_then EmptyString ts o4 o5 o6 o7)
                           = S (S (S (S (S (S f)))))).
  { unfold Spec.record_then. simpl String.append. cbn [String.length]. eauto. }
  destruct Hlen as [f ->].
  assert (Hws : skip_ws (Spec.record_then EmptyString ts o4 o5 o6 o7)
                = Spec.record_then EmptyString ts o4 o5 o6 o7) by reflexivity.
  rewrite Hws, parse_record by done. reflexivity.
Qed.

End RecordFacts.

(** ** Timestamps *)

Section StampFacts.

Ltac ncases :=
  repeat match goal with
         | |- context [(?x <=? ?y)%N] => destruct (N.leb_spec x y)
         | |- context [(?x <? ?y)%N] => destruct (N.ltb_spec x y)
         | |- context [(?x =? ?y)%N] => destruct (N.eqb_spec x y)
         end.

Lemma days_in_month_le (y m : N) : (days_in_month y m <= 31)%N.
Proof. unfold days_in_month. repeat case_match; lia. Qed.

Lemma valid_bounds (t : datetime) :
  valid t = true ->
  (year t < Spec.pow10 4 /\ month t < Spec.pow10 2 /\ day t < Spec.pow10 2
   /\ hour t < Spec.pow10 2 /\ minute t < Spec.pow10 2
   /\ second t < Spec.pow10 2 /\ microsecond t < Spec.pow10 6)%N.
Proof.
  unfold valid. pose proof (days_in_month_le (year t) (month t)) as Hd.
  set (dim := days_in_month (year t) (month t)) in *. clearbody dim.
  change (Spec.pow10 4) with 10000%N. change (Spec.pow10 2) with 100%N.
  change (Spec.pow10 6) with 1000000%N.
  ncases; simpl; intros; try discriminate; lia.
Qed.

Lemma iso_body_digits (t : datetime) :
  valid t = true ->
  Spec.iso_body t
  = digits_w 4 (year t) +:+ "-" +:+ digits_w 2 (month t) +:+ "-"
    +:+ digits_w 2 (day t) +:+ "T" +:+ digits_w 2 (hour t) +:+ ":"
    +:+ digits_w 2 (minute t) +:+ ":" +:+ digits_w 2 (second t)
    +:+ (if (microsecond t =? 0)%N then EmptyString
         else "." +:+ digits_w 6 (microsecond t)).
Proof.
  intros (Hy & Hmo & Hd & Hh & Hmi & Hs & Hus)%valid_bounds.
  unfold Spec.iso_body. rewrite !pad0_fits by (done || lia). reflexivity.
Qed.

Lemma isoformat_body (t : datetime) :
  isoformat t = Spec.iso_body t +:+ "+00:00".
Proof.
  unfold isoformat, Spec.iso_body. by repeat (rewrite !append_assoc; cbn [String.append]).
Qed.

Lemma stamp_digits (w : nat) (n : N) :
  Spec.all_chars Spec.stamp_char (digits_w w n) = true.
Proof.
  apply (all_chars_impl is_digit); [|apply digits_w_all_digits].
  intros a Ha. unfold Spec.stamp_char. by rewrite Ha.
Qed.

Lemma stamp_body (t : datetime) :
  valid t = true -> Spec.all_chars Spec.stamp_char (Spec.iso_body t) = true.
Proof.
  intros Hv. rewrite (iso_body_digits t Hv). rewrite !all_chars_app, !stamp_digits.
  destruct (microsecond t =? 0)%N; [reflexivity|].
  rewrite all_chars_app, stamp_digits. reflexivity.
Qed.

Lemma stamp_plain (a : ascii) :
  Spec.stamp_char a = true -> Spec.plain a = true.
Proof.
  unfold Spec.stamp_char, Spec.plain, is_digit, digit_val. rewrite !eqb_code.
  change (N_of_ascii "-") with 45%N. change (N_of_ascii "T") with 84%N.
  change (N_of_ascii ":") with 58%N. change (N_of_ascii ".") with 46%N.
  set (n := N_of_ascii a). clearbody n.
  ncases; simpl; intros; try discriminate; try reflexivity; lia.
Qed.

Lemma stamp_not_plus (a : ascii) : Spec.stamp_char a = true -> a <> "+"%char.
Proof. intros Ha ->. discriminate Ha. Qed.

Lemma replace_zone (body : string) :
  Spec.all_chars Spec.stamp_char body = true ->
  replace "+00:00" "Z" (body +:+ "+00:00") = body +:+ "Z".
Proof.
  unfold replace. induction body as [|a body IH]; [reflexivity|].
  intros [Ha Hb]%andb_true_iff. apply stamp_not_plus in Ha.
  cbn [String.append replace_from String.prefix].
  destruct (ascii_dec "+" a) as [<-|_]; [done|]. by rewrite IH.
Qed.

(** The timestamp the logger assigns. *)
Lemma now_iso_utc_body (t : datetime) :
  valid t = true -> AppendLog.now_iso_utc t = Spec.iso_body t +:+ "Z".
Proof.
  intros Hv. unfold AppendLog.now_iso_utc. rewrite isoformat_body.
  apply replace_zone. by apply stamp_body.
Qed.

Lemma now_iso_utc_plain (t : datetime) :
  valid t = true -> Spec.all_chars Spec.plain (AppendLog.now_iso_utc t) = true.
Proof.
  intros Hv. rewrite (now_iso_utc_body t Hv), all_chars_app.
  rewrite (all_chars_impl _ _ _ stamp_plain (stamp_body t Hv)). reflexivity.
Qed.

Lemma now_iso_utc_nonempty (t : datetime) :
  valid t = true -> is_empty (AppendLog.now_iso_utc t) = false.
Proof.
  intros Hv. rewrite (now_iso_utc_body t Hv), (iso_body_digits t Hv). reflexivity.
Qed.

Lemma endswith1_app (s : string) (a : ascii) : endswith1 (s +:+ str1 a) a = true.
Proof.
  induction s as [|b s IH]; simpl; [apply Ascii.eqb_refl|].
  destruct (s +:+ str1 a) eqn:E; [by destruct s|]. exact IH.
Qed.

Lemma drop_last_app (s : string) (a : ascii) : drop_last (s +:+ str1 a) = s.
Proof.
  induction s as [|b s IH]; simpl; [reflexivity|].
  destruct (s +:+ str1 a) eqn:E; [by destruct s|]. by rewrite IH.
Qed.

Lemma read_digits_fits (w : nat) (n : N) (rest : string) :
  (n < Spec.pow10 w)%N ->
  read_digits w (digits_w w n +:+ rest) 0 = Some (n, rest).
Proof.
  intros Hn. rewrite read_digits_digits_w, N.mod_small by done. reflexivity.
Qed.

End StampFacts.

Section StampParse.

Lemma expect_head (a : ascii) (r : string) : expect a (String a r) = Some r.
Proof. simpl. by rewrite Ascii.eqb_refl. Qed.

Ltac field w :=
  rewrite (read_digits_fits w) by done; cbn [mbind option_bind];
  try (rewrite expect_head; cbn [mbind option_bind]).

Lemma fromisoformat_isoformat (t : datetime) :
  valid t = true -> fromisoformat_utc (Spec.iso_body t +:+ "+00:00") = Some t.
Proof.
  intros Hv. pose proof (valid_bounds t Hv) as (Hy & Hmo & Hd & Hh & Hmi & Hs & Hus).
  rewrite (iso_body_digits t Hv). unfold fromisoformat_utc.
  repeat (rewrite !append_assoc; cbn [String.append]).
  field 4%nat. field 2%nat. field 2%nat. field 2%nat. field 2%nat.
  rewrite (read_digits_fits 2) by done; cbn [mbind option_bind].
  destruct (N.eqb_spec (microsecond t) 0) as [Hz|Hne].
  - cbn [String.append]. change (expect "." "+00:00") with (@None string).
    cbn [mbind option_bind].
    change (String.eqb "+00:00" "+00:00") with true. cbv iota.
    rewrite <- Hz. destruct t; simpl in *. by rewrite Hv.
  - cbn [String.append]. rewrite expect_head.
    rewrite (read_digits_fits 6) by done. cbn [mbind option_bind].
    change (String.eqb "+00:00" "+00:00") with true. cbv iota.
    destruct t; simpl in *. by rewrite Hv.
Qed.

Lemma parse_ts_now (t : datetime) :
  valid t = true -> LogReader._parse_ts (AppendLog.now_iso_utc t) = Some t.
Proof.
  intros Hv. unfold LogReader._parse_ts. rewrite (now_iso_utc_body t Hv).
  change "Z" with (str1 "Z"). rewrite endswith1_app, drop_last_app.
  by apply fromisoformat_isoformat.
Qed.

Lemma now_iso_utc_shape (t : datetime) :
  valid t = true -> microsecond t <> 0%N ->
  Spec.iso_utc_micro (AppendLog.now_iso_utc t) = true.
Proof.
  intros Hv Hus. rewrite (now_iso_utc_body t Hv), (iso_body_digits t Hv).
  destruct (N.eqb_spec (microsecond t) 0) as [|_]; [done|].
  unfold Spec.iso_utc_micro. simpl.
  rewrite !is_digit_digit_of. reflexivity.
Qed.

End StampParse.

(** ** Reading the log back *)


Section ReadBackFacts.

Ltac ncases :=
  repeat match goal with
         | |- context [(?x <=? ?y)%N] => destruct (N.leb_spec x y)
         | |- context [(?x <? ?y)%N] => destruct (N.ltb_spec x y)
         | |- context [(?x =? ?y)%N] => destruct (N.eqb_spec x y)
         end.

Lemma printable_inv (a : ascii) :
  Spec.printable a = true ->
  Ascii.eqb a nl = false /\ Ascii.eqb a cr = false.
Proof.
  unfold Spec.printable. rewrite !eqb_code.
  change (N_of_ascii nl) with 10%N. change (N_of_ascii cr) with 13%N.
  set (n := N_of_ascii a). clearbody n.
  ncases; simpl; intros; try discriminate; split; try reflexivity; lia.
Qed.

Lemma plain_printable (a : ascii) :
  Spec.plain a = true -> Spec.printable a = true.
Proof.
  unfold Spec.plain, Spec.printable. set (n := N_of_ascii a). clearbody n.
  ncases; simpl; intros; try discriminate; reflexivity.
Qed.

Lemma digit_printable (a : ascii) : is_digit a = true -> Spec.printable a = true.
Proof.
  unfold is_digit, digit_val, Spec.printable. set (n := N_of_ascii a). clearbody n.
  ncases; simpl; intros; try discriminate; try reflexivity; lia.
Qed.

Lemma no_newline_printable (s : string) :
  Spec.all_chars Spec.printable s = true -> Spec.no_newline s = true.
Proof.
  induction s as [|a s IH]; simpl; [done|].
  intros [Ha Hs]%andb_true_iff. destruct (printable_inv a Ha) as [-> ->].
  by apply IH.
Qed.

Lemma pin_field_printable (o : option Z) :
  Spec.all_chars Spec.printable (Spec.pin_field o) = true.
Proof.
  destruct o as [z|]; [|reflexivity]. unfold Spec.pin_field, Zdecimal.
  assert (H : forall n, Spec.all_chars Spec.printable (decimal n) = true).
  { intros n. apply (all_chars_impl is_digit); [apply digit_printable|].
    apply digits_w_all_digits. }
  destruct (z <? 0); simpl; by rewrite H.
Qed.

Lemma record_open_printable (ts : string) (o4 o5 o6 o7 : option Z) :
  Spec.all_chars Spec.plain ts = true ->
  Spec.all_chars Spec.printable (Spec.record_open ts o4 o5 o6 o7) = true.
Proof.
  intros Hts. unfold Spec.record_open.
  rewrite !all_chars_app, !pin_field_printable.
  by rewrite (all_chars_impl _ _ _ plain_printable Hts).
Qed.

Lemma record_then_open (tail ts : string) (o4 o5 o6 o7 : option Z) :
  Spec.record_then tail ts o4 o5 o6 o7
  = Spec.record_open ts o4 o5 o6 o7 +:+ String "}" tail.
Proof.
  unfold Spec.record_then, Spec.record_open.
  by repeat (rewrite !append_assoc; cbn [String.append str1]).
Qed.

Lemma record_then_tail (tail ts : string) (o4 o5 o6 o7 : option Z) :
  Spec.record_then tail ts o4 o5 o6 o7
  = Spec.record_then EmptyString ts o4 o5 o6 o7 +:+ tail.
Proof. rewrite !record_then_open, append_assoc. reflexivity. Qed.

Lemma record_printable (ts : string) (o4 o5 o6 o7 : option Z) :
  Spec.all_chars Spec.plain ts = true ->
  Spec.all_chars Spec.printable (Spec.record_then EmptyString ts o4 o5 o6 o7)
  = true.
Proof.
  intros Hts. rewrite record_then_open, all_chars_app.
  by rewrite record_open_printable.
Qed.

(** One more line in the file. *)
Lemma lines_from_line (line rest : string) :
  Spec.all_chars Spec.printable line = true ->
  forall cur,
    LogReader.lines_from cur (line +:+ String nl rest)
    = (cur +:+ line +:+ str1 nl) :: LogReader.lines_from EmptyString rest.
Proof.
  induction line as [|a line IH]; intros Hline cur.
  - cbn [String.append LogReader.lines_from]. by rewrite Ascii.eqb_refl.
  - simpl in Hline. apply andb_true_iff in Hline as [Ha Hl].
    destruct (printable_inv a Ha) as [H1 H2].
    cbn [String.append LogReader.lines_from]. rewrite H1, H2, (IH Hl).
    by rewrite append_assoc.
Qed.

Lemma rstrip_closed (s : string) :
  rstrip (s +:+ String "}" (str1 nl)) = s +:+ "}".
Proof.
  induction s as [|a s IH]; [reflexivity|].
  cbn [String.append rstrip]. rewrite IH.
  assert (E : is_empty (s +:+ "}") = false) by (by destruct s).
  rewrite E, andb_false_r. reflexivity.
Qed.

Lemma strip_record_line (ts : string) (o4 o5 o6 o7 : option Z) :
  strip (Spec.record_line ts o4 o5 o6 o7)
  = Spec.record_then EmptyString ts o4 o5 o6 o7.
Proof.
  unfold Spec.record_line, strip.
  assert (E : lstrip (Spec.record_then (str1 nl) ts o4 o5 o6 o7)
              = Spec.record_then (str1 nl) ts o4 o5 o6 o7) by reflexivity.
  rewrite E, !record_then_open. apply rstrip_closed.
Qed.

Lemma read_record_line (now : datetime) (ps : PinStates) :
  valid now = true ->
  LogReader.read_record None
    (Spec.record_then EmptyString (AppendLog.now_iso_utc now) (d4 ps) (d5 ps) (d6 ps) (d7 ps))
  = Some (Spec.expected (ps, now)).
Proof.
  intros Hv. unfold LogReader.read_record.
  rewrite loads_record by (by apply now_iso_utc_plain).
  cbn [dict_get]. change (String.eqb "ts_utc" "ts_utc") with true. cbv iota.
  rewrite (parse_ts_now now Hv). reflexivity.
Qed.

Lemma read_lines_line (now : datetime) (ps : PinStates) (rest : list string) :
  valid now = true ->
  LogReader.read_lines None
    (Spec.record_line (AppendLog.now_iso_utc now) (d4 ps) (d5 ps) (d6 ps) (d7 ps) :: rest)
  = Spec.expected (ps, now) :: LogReader.read_lines None rest.
Proof.
  intros Hv. cbn [LogReader.read_lines]. rewrite strip_record_line.
  assert (E : is_empty (Spec.record_then EmptyString (AppendLog.now_iso_utc now)
                          (d4 ps) (d5 ps) (d6 ps) (d7 ps)) = false)
    by reflexivity.
  rewrite E, (read_record_line now ps Hv). reflexivity.
Qed.

End ReadBackFacts.

(** ** The Append Log *)

Section AppendLogFacts.

(** What one call appends to the file's history. *)
Lemma io_call_inv (ev : AppendLog.io_event) (d d' : AppendLog.Disk)
  (r : res exn unit) :
  AppendLog.io_call ev d = (r, d') ->
  AppendLog.initial d' = AppendLog.initial d
  /\ ((r = Ok tt /\ AppendLog.events d' = AppendLog.events d ++ [ev]
       /\ (AppendLog.faults d = [] -> AppendLog.faults d' = []))
      \/ (exists e, r = Raise e /\ AppendLog.events d' = AppendLog.events d
          /\ AppendLog.faults d <> [])).
Proof.
  unfold AppendLog.io_call.
  destruct (AppendLog.faults d) as [|[msg|] rest]; intros [= <- <-]; simpl;
    split; eauto 10.
  left. repeat split; eauto. discriminate.
Qed.

Ltac pick :=
  first
    [ by (left; eexists; repeat split; eauto; lia)
    | by (right; left; repeat split; eauto; lia)
    | by (right; right; left; repeat split; eauto; lia)
    | by (right; right; right; eexists; repeat split; eauto; lia) ].

(** The effects of [write_sample] in every case: nothing written, the
    record written, or the record written and a flush attempted; the
    counter is reset exactly when the flush is done. *)
Lemma write_sample_cases (self self' : AppendLog.PinSampleJSONLogger)
  (states : PinStates) (ts : option string) (now : datetime)
  (d d' : AppendLog.Disk) (r : res exn unit) :
  let line := dumps (AppendLog.make_rec states ts now) +:+ str1 nl in
  let N := AppendLog.flush_every (AppendLog.cfg self) in
  let c := AppendLog._count_since_flush self in
  AppendLog.write_sample self states ts now d = (r, self', d') ->
  AppendLog.cfg self' = AppendLog.cfg self
  /\ AppendLog._fh self' = AppendLog._fh self
  /\ AppendLog.initial d' = AppendLog.initial d
  /\ (AppendLog.faults d = [] -> AppendLog.faults d' = [])
  /\ ((exists e, r = Raise e /\ AppendLog.events d' = AppendLog.events d
       /\ AppendLog._count_since_flush self' = c
       /\ (AppendLog._fh self = None \/ AppendLog.faults d <> []))
      \/ (r = Ok tt
          /\ AppendLog.events d' = AppendLog.events d ++ [AppendLog.IoWrite line]
          /\ AppendLog._count_since_flush self' = c + 1
          /\ (N <= 0 \/ c + 1 < N))
      \/ (r = Ok tt
          /\ AppendLog.events d'
             = AppendLog.events d ++ [AppendLog.IoWrite line; AppendLog.IoFlush]
          /\ AppendLog._count_since_flush self' = 0
          /\ 0 < N <= c + 1)
      \/ (exists e, r = Raise e
          /\ AppendLog.events d' = AppendLog.events d ++ [AppendLog.IoWrite line]
          /\ AppendLog._count_since_flush self' = c + 1
          /\ 0 < N <= c + 1 /\ AppendLog.faults d <> [])).
Proof.
  intros line N c. unfold AppendLog.write_sample.
  destruct (AppendLog._fh self) as [fh|] eqn:Hfh.
  2:{ intros [= <- <- <-]. split_and!; try done. pick. }
  fold line.
  destruct (AppendLog.io_call (AppendLog.IoWrite line) d) as [r1 d1] eqn:E1.
  apply io_call_inv in E1 as [Hi [(-> & He & Hf)|(e & -> & He & Hf)]].
  2:{ intros [= <- <- <-]. split_and!; try done; try congruence. pick. }
  cbn [AppendLog.set_count AppendLog.cfg AppendLog._count_since_flush].
  fold N c.
  destruct (Z.ltb_spec 0 N) as [HN|HN]; cbn [andb].
  2:{ intros [= <- <- <-]. split_and!; try done. pick. }
  destruct (Z.leb_spec N (c + 1)) as [Hc|Hc].
  2:{ intros [= <- <- <-]. split_and!; try done. pick. }
  destruct (AppendLog.io_call AppendLog.IoFlush d1) as [r2 d2] eqn:E2.
  apply io_call_inv in E2 as [Hi2 [(-> & He2 & Hf2)|(e & -> & He2 & Hf2)]];
    intros [= <- <- <-]; cbn [AppendLog.set_count AppendLog.cfg AppendLog._fh
                               AppendLog._count_since_flush].
  - split_and!; try done; try congruence; auto.
    right. right. left. rewrite He2, He, <- (assoc_L (++)). split_and!; eauto.
  - split_and!; try done; try congruence; try tauto.
    right. right. right. exists e. rewrite He2, He. split_and!; eauto.
Qed.

End AppendLogFacts.

Section CadenceFacts.

(** Quotients and remainders as plain unknowns, for [lia]. *)
Ltac zabs :=
  repeat match goal with
         | |- context [Z.div ?a ?b] =>
             let q := fresh "q" in set (q := Z.div a b) in *; clearbody q
         | |- context [Z.modulo ?a ?b] =>
             let r := fresh "r" in set (r := Z.modulo a b) in *; clearbody r
         | H : context [Z.div ?a ?b] |- _ =>
             let q := fresh "q" in set (q := Z.div a b) in *; clearbody q
         | H : context [Z.modulo ?a ?b] |- _ =>
             let r := fresh "r" in set (r := Z.modulo a b) in *; clearbody r
         end.

Lemma mod_succ_small (N k : Z) :
  0 < N -> 0 <= k -> k mod N + 1 < N ->
  (k + 1) mod N = k mod N + 1 /\ (k + 1) / N = k / N.
Proof.
  intros HN Hk Hlt. pose proof (Z.div_mod k N ltac:(lia)) as Hdm.
  pose proof (Z.mod_pos_bound k N HN) as Hb.
  set (q := k / N) in *. set (r := k mod N) in *. clearbody q r.
  split.
  - symmetry. apply (Z.mod_unique_pos _ _ q); lia.
  - symmetry. apply (Z.div_unique_pos _ _ q (r + 1)); lia.
Qed.

Lemma mod_succ_wrap (N k : Z) :
  0 < N -> 0 <= k -> k mod N = N - 1 ->
  (k + 1) mod N = 0 /\ (k + 1) / N = k / N + 1.
Proof.
  intros HN Hk Heq. pose proof (Z.div_mod k N ltac:(lia)) as Hdm.
  set (q := k / N) in *. set (r := k mod N) in *. clearbody q r.
  split.
  - symmetry. apply (Z.mod_unique_pos _ _ (q + 1)); lia.
  - symmetry. apply (Z.div_unique_pos _ _ (q + 1) 0); lia.
Qed.

Lemma flush_count_app (a b : list AppendLog.io_event) :
  AppendLog.flush_count (a ++ b)
  = (AppendLog.flush_count a + AppendLog.flush_count b)%nat.
Proof.
  unfold AppendLog.flush_count. by rewrite List.filter_app, length_app.
Qed.

Lemma write_samples_cadence (N : Z) (calls : list (PinStates * option string * datetime)) :
  0 < N ->
  forall (self self' : AppendLog.PinSampleJSONLogger) (d d' : AppendLog.Disk)
         (k oks : Z),
    AppendLog.flush_every (AppendLog.cfg self) = N ->
    0 <= k ->
    Spec.counter_tracks N k (AppendLog._count_since_flush self) ->
    Spec.write_samples calls self d = (oks, self', d') ->
    0 <= oks
    /\ Spec.counter_tracks N (k + oks) (AppendLog._count_since_flush self')
    /\ exists new,
        AppendLog.events d' = AppendLog.events d ++ new
        /\ Z.of_nat (AppendLog.flush_count new) = (k + oks) / N - k / N.
Proof.
  intros HN. induction calls as [|[[states ts] now] calls IH];
    intros self self' d d' k oks Hcfg Hk Htr Hrun.
  - simpl in Hrun. injection Hrun as <- <- <-. rewrite Z.add_0_r.
    split; [lia|]. split; [done|]. exists []. rewrite app_nil_r. split; [done|].
    change (AppendLog.flush_count []) with 0%nat. zabs. lia.
  - simpl in Hrun.
    destruct (AppendLog.write_sample self states ts now d) as [[r self1] d1] eqn:E1.
    destruct (Spec.write_samples calls self1 d1) as [[n self2] d2] eqn:E2.
    injection Hrun as <- <- <-.
    apply write_sample_cases in E1 as (Hc1 & _ & _ & _ & Hcase).
    rewrite Hcfg in Hcase.
    pose proof (Z.mod_pos_bound k N HN) as Hb.
    assert (Hcfg1 : AppendLog.flush_every (AppendLog.cfg self1) = N)
      by (by rewrite Hc1).
    destruct Hcase as [(e & -> & He & Hcnt & _)
                      |[(-> & He & Hcnt & Hlt)
                       |[(-> & He & Hcnt & Hge)|(e & -> & He & Hcnt & Hge & _)]]].
    + destruct (IH _ _ _ _ k n Hcfg1 Hk ltac:(by rewrite Hcnt) E2)
        as (Hn & Htr' & new & Hev & Hfl).
      split; [done|]. split; [done|]. exists new. by rewrite Hev, He.
    + assert (Hc : AppendLog._count_since_flush self = k mod N).
      { destruct Htr as [|[? ?]]; [done|zabs; lia]. }
      destruct (mod_succ_small N k HN Hk ltac:(zabs; lia)) as [Hm Hq].
      destruct (IH _ _ _ _ (k + 1) n Hcfg1 ltac:(lia)
                  ltac:(left; rewrite Hcnt, Hm; zabs; lia) E2)
        as (Hn & Htr' & new & Hev & Hfl).
      replace (k + (1 + n)) with (k + 1 + n) by lia.
      split; [lia|]. split; [done|].
      eexists. rewrite Hev, He, <- (assoc_L (++)). split; [done|].
      rewrite flush_count_app.
      unfold AppendLog.flush_count in *. cbn [List.filter length]. zabs. lia.
    + assert (Hc : k mod N = N - 1).
      { destruct Htr as [?|[? ?]]; [zabs; lia|done]. }
      destruct (mod_succ_wrap N k HN Hk Hc) as [Hm Hq].
      destruct (IH _ _ _ _ (k + 1) n Hcfg1 ltac:(lia)
                  ltac:(left; rewrite Hcnt, Hm; zabs; lia) E2)
        as (Hn & Htr' & new & Hev & Hfl).
      replace (k + (1 + n)) with (k + 1 + n) by lia.
      split; [lia|]. split; [done|].
      eexists. rewrite Hev, He, <- (assoc_L (++)). split; [done|].
      rewrite flush_count_app.
      unfold AppendLog.flush_count in *. cbn [List.filter length]. zabs. lia.
    + assert (Hc : k mod N = N - 1).
      { destruct Htr as [?|[? ?]]; [zabs; lia|done]. }
      destruct (IH _ _ _ _ k n Hcfg1 Hk ltac:(right; zabs; lia) E2)
        as (Hn & Htr' & new & Hev & Hfl).
      split; [done|]. split; [done|].
      eexists. rewrite Hev, He, <- (assoc_L (++)). split; [done|].
      rewrite flush_count_app.
      unfold AppendLog.flush_count in *. cbn [List.filter length]. zabs. lia.
Qed.

Lemma write_samples_no_flush (calls : list (PinStates * option string * datetime)) :
  forall (self self' : AppendLog.PinSampleJSONLogger) (d d' : AppendLog.Disk)
         (oks : Z),
    AppendLog.flush_every (AppendLog.cfg self) <= 0 ->
    Spec.write_samples calls self d = (oks, self', d') ->
    exists new,
      AppendLog.events d' = AppendLog.events d ++ new
      /\ AppendLog.flush_count new = 0%nat.
Proof.
  induction calls as [|[[states ts] now] calls IH];
    intros self self' d d' oks HN Hrun.
  - simpl in Hrun. injection Hrun as <- <- <-. exists []. by rewrite app_nil_r.
  - simpl in Hrun.
    destruct (AppendLog.write_sample self states ts now d) as [[r self1] d1] eqn:E1.
    destruct (Spec.write_samples calls self1 d1) as [[n self2] d2] eqn:E2.
    injection Hrun as <- <- <-.
    apply write_sample_cases in E1 as (Hc1 & _ & _ & _ & Hcase).
    destruct (IH _ _ _ _ _ ltac:(by rewrite Hc1) E2) as (new & Hev & Hfl).
    destruct Hcase as [(e & -> & He & _)
                      |[(-> & He & _)
                       |[(-> & He & _ & Hge)|(e & -> & He & _ & Hge & _)]]];
      try lia.
    + exists new. by rewrite Hev, He.
    + eexists. rewrite Hev, He, <- (assoc_L (++)). split; [done|].
      rewrite flush_count_app.
      unfold AppendLog.flush_count in *. cbn [List.filter length]. zabs. lia.
Qed.

End CadenceFacts.

(** C4. With [flush_every = N > 0], after any sequence of [write_sample]
    calls on a logger whose counter is zero the number of forced flushes is
    the number of calls that returned normally divided by [N] (so a flush
    comes with every [N]-th such call and never in between); a call that
    flushes does so after writing its record, returns normally and leaves
    the counter at zero. With [N <= 0] no call flushes. [close()] on an
    open logger flushes once and then closes. *)
Theorem flush_cadence (self : AppendLog.PinSampleJSONLogger) (d : AppendLog.Disk) :
  let N := AppendLog.flush_every (AppendLog.cfg self) in
  (AppendLog._count_since_flush self = 0 ->
   forall calls oks self' d',
     Spec.write_samples calls self d = (oks, self', d') ->
     exists new,
       AppendLog.events d' = AppendLog.events d ++ new
       /\ (0 < N ->
           Z.of_nat (AppendLog.flush_count new) = oks / N
           /\ Spec.counter_tracks N oks (AppendLog._count_since_flush self'))
       /\ (N <= 0 -> AppendLog.flush_count new = 0%nat))
  /\ (forall states ts now r self' d' new,
        AppendLog.write_sample self states ts now d = (r, self', d') ->
        AppendLog.events d' = AppendLog.events d ++ new ->
        In AppendLog.IoFlush new ->
        r = Ok tt /\ 0 < N <= AppendLog._count_since_flush self + 1
        /\ AppendLog._count_since_flush self' = 0
        /\ new = [AppendLog.IoWrite
                    (dumps (AppendLog.make_rec states ts now) +:+ str1 nl);
                  AppendLog.IoFlush])
  /\ (forall fh,
        AppendLog._fh self = Some fh -> AppendLog.faults d = [] ->
        AppendLog.close self d
        = (Ok tt, AppendLog.set_fh None self,
           {| AppendLog.initial := AppendLog.initial d;
              AppendLog.events :=
                AppendLog.events d ++ [AppendLog.IoFlush; AppendLog.IoClose];
              AppendLog.faults := [] |})).
Proof.
  intros N. split; [|split].
  - intros Hc calls oks self' d' Hrun.
    destruct (Z.ltb_spec 0 N) as [HN|HN].
    + destruct (write_samples_cadence N calls HN self self' d d' 0 oks eq_refl
                  ltac:(lia) ltac:(left; by rewrite Hc, Z.mod_0_l by lia) Hrun)
        as (Hoks & Htr & new & Hev & Hfl).
      exists new. split; [done|]. split; [|lia]. intros _.
      rewrite Z.add_0_l in *. rewrite Z.div_0_l in Hfl by lia. split; [|done].
      rewrite Hfl. apply Z.sub_0_r.
    + destruct (write_samples_no_flush calls self self' d d' oks HN Hrun)
        as (new & Hev & Hfl).
      exists new. split; [done|]. split; [lia|done].
  - intros states ts now r self' d' new Hw Hev Hin.
    apply write_sample_cases in Hw as (_ & _ & _ & _ & Hcase). fold N in Hcase.
    destruct Hcase as [(e & -> & He & _)
                      |[(-> & He & _)
                       |[(-> & He & Hcnt & Hge)|(e & -> & He & _)]]];
      rewrite He in Hev.
    + rewrite <- (app_nil_r (AppendLog.events d)) in Hev at 1.
      apply app_inv_head in Hev. subst new. destruct Hin.
    + apply app_inv_head in Hev. subst new.
      destruct Hin as [Hin|[]]. discriminate Hin.
    + apply app_inv_head in Hev. subst new. done.
    + apply app_inv_head in Hev. subst new.
      destruct Hin as [Hin|[]]. discriminate Hin.
  - intros fh Hfh Hf. unfold AppendLog.close, AppendLog.io_call.
    rewrite Hfh, Hf. simpl. by rewrite <- (assoc_L (++)).
Qed.

Lemma flush_cadence_witness :
  let self := AppendLog.set_fh (Some {| AppendLog.name := "pin_samples.ndjson" |})
                (AppendLog.new {| AppendLog.path := "pin_samples.ndjson";
                                  AppendLog.flush_every := 2 |}) in
  let d := {| AppendLog.initial := EmptyString; AppendLog.events := [];
              AppendLog.faults := [] |} in
  let now := {| year := 2026; month := 1; day := 13; hour := 4; minute := 32;
                second := 10; microsecond := 123456 |} in
  let call := ({| states := <[4 := 1]> ∅ |}, @None string, now) in
  exists new,
    AppendLog.events (Spec.write_samples [call; call; call; call; call] self d).2
    = new
    /\ Z.of_nat (AppendLog.flush_count new) = 2.
Proof.
  intros self d now call.
  destruct (flush_cadence self d) as [H _].
  destruct (Spec.write_samples [call; call; call; call; call] self d)
    as [[oks self'] d'] eqn:E.
  destruct (H eq_refl _ _ _ _ E) as (new & Hev & Hpos & _).
  exists new. split; [exact Hev|].
  destruct (Hpos ltac:(reflexivity)) as [Hfl _]. rewrite Hfl.
  vm_compute in E. injection E as <- _ _. reflexivity.
Defined.

(** ** Records *)

Section RecordTheorems.

Lemma written_line (states : PinStates) (now : datetime) :
  valid now = true ->
  dumps (AppendLog.make_rec states None now) +:+ str1 nl
  = Spec.record_line (AppendLog.now_iso_utc now)
      (d4 states) (d5 states) (d6 states) (d7 states).
Proof.
  intros Hv. unfold AppendLog.make_rec, Spec.record_line.
  apply dumps_record. by apply now_iso_utc_plain.
Qed.

Lemma record_line_format (ts_ok : string -> bool) (ts : string)
  (o4 o5 o6 o7 : option Z) :
  Spec.all_chars Spec.plain ts = true -> ts_ok ts = true ->
  Spec.record_format ts_ok Spec.int_or_null (Spec.record_line ts o4 o5 o6 o7)
  = true.
Proof.
  intros Hts Hok. unfold Spec.record_format, Spec.record_line.
  rewrite record_then_tail, endswith1_app, drop_last_app.
  rewrite (no_newline_printable _ (record_printable ts o4 o5 o6 o7 Hts)).
  rewrite (loads_record ts o4 o5 o6 o7 Hts). cbn [andb].
  rewrite Hok.
  assert (Hpin : forall o, Spec.int_or_null (AppendLog.opt_int o) = true)
    by (by intros []).
  rewrite !Hpin.
  rewrite <- (append_nil_r (dumps _)), (dumps_record EmptyString ts o4 o5 o6 o7 Hts).
  rewrite !String.eqb_refl. reflexivity.
Qed.

End RecordTheorems.

(** C3, as the code has it. A record written by [write_sample] with the
    timestamp taken from the clock is one line of compact JSON with the
    keys [ts_utc], [d4], [d5], [d6], [d7] in this order, followed by a
    newline; each pin field is the integer the sample holds for that pin,
    whatever its value, or [null] when the pin is absent; and when the
    microsecond of the clock reading is not zero, [ts_utc] is ISO-8601 in
    UTC with six fractional digits and the suffix [Z]. *)
Theorem write_sample_record_format (self self' : AppendLog.PinSampleJSONLogger)
  (states : PinStates) (now : datetime) (d d' : AppendLog.Disk)
  (r : res exn unit) :
  valid now = true ->
  AppendLog.write_sample self states None now d = (r, self', d') ->
  let line := Spec.record_line (AppendLog.now_iso_utc now)
                (d4 states) (d5 states) (d6 states) (d7 states) in
  Spec.record_format (fun _ => true) Spec.int_or_null line = true
  /\ (microsecond now <> 0%N ->
      Spec.iso_utc_micro (AppendLog.now_iso_utc now) = true
      /\ Spec.record_format Spec.iso_utc_micro Spec.int_or_null line = true)
  /\ exists new,
      AppendLog.events d' = AppendLog.events d ++ new
      /\ (forall text, In (AppendLog.IoWrite text) new -> text = line)
      /\ (r = Ok tt -> exists flushed, new = AppendLog.IoWrite line :: flushed).
Proof.
  intros Hv Hw line. split; [|split].
  - apply record_line_format; [by apply now_iso_utc_plain|done].
  - intros Hus. split; [by apply now_iso_utc_shape|].
    apply record_line_format; [by apply now_iso_utc_plain|].
    by apply now_iso_utc_shape.
  - apply write_sample_cases in Hw as (_ & _ & _ & _ & Hcase).
    rewrite (written_line states now Hv) in Hcase. fold line in Hcase.
    destruct Hcase as [(e & -> & He & _)
                      |[(-> & He & _)
                       |[(-> & He & _)|(e & -> & He & _)]]].
    + exists []. rewrite app_nil_r. split; [done|]. split; [intros ? []|done].
    + eexists. split; [exact He|]. split; [|eauto].
      intros text [[= <-]|[]]. reflexivity.
    + eexists. split; [exact He|]. split; [|eauto].
      intros text [[= <-]|[Hin|[]]]; [reflexivity|discriminate Hin].
    + eexists. split; [exact He|]. split; [|done].
      intros text [[= <-]|[]]. reflexivity.
Qed.

Lemma write_sample_record_format_witness :
  let self := AppendLog.set_fh (Some {| AppendLog.name := "pin_samples.ndjson" |})
                (AppendLog.new AppendLog.default_config) in
  let d := {| AppendLog.initial := EmptyString; AppendLog.events := [];
              AppendLog.faults := [] |} in
  let now := {| year := 2026; month := 1; day := 13; hour := 4; minute := 32;
                second := 10; microsecond := 123456 |} in
  let sample := {| states := <[7 := 0]> (<[6 := 1]> (<[5 := 0]> (<[4 := 1]> ∅))) |} in
  Spec.record_format Spec.iso_utc_micro Spec.int_or_null
    (Spec.record_line (AppendLog.now_iso_utc now) (Some 1) (Some 0) (Some 1) (Some 0))
  = true.
Proof.
  intros self d now sample.
  destruct (AppendLog.write_sample self sample None now d) as [[r self'] d'] eqn:E.
  assert (Hus : microsecond now <> 0%N) by discriminate.
  exact (proj2 (proj1 (proj2 (write_sample_record_format self self' sample now
                                d d' r eq_refl E)) Hus)).
Defined.

(** C3, as the specification words it, fails: a pin field is not always 0,
    1 or null. The line [4,7] decodes to the sample [{4: 7}], whose record
    has [7] in its [d4] field. *)
Lemma write_sample_record_format_counterexample :
  let self := AppendLog.set_fh (Some {| AppendLog.name := "pin_samples.ndjson" |})
                (AppendLog.new AppendLog.default_config) in
  let d := {| AppendLog.initial := EmptyString; AppendLog.events := [];
              AppendLog.faults := [] |} in
  let now := {| year := 2026; month := 1; day := 13; hour := 4; minute := 32;
                second := 10; microsecond := 123456 |} in
  exists m self' d' text,
    parse_line "4,7" = Ok m
    /\ AppendLog.write_sample self {| states := m |} None now d = (Ok tt, self', d')
    /\ AppendLog.events d' = [AppendLog.IoWrite text; AppendLog.IoFlush]
    /\ Spec.record_format Spec.iso_utc_micro Spec.binary_or_null text = false
    /\ Spec.record_format Spec.iso_utc_micro Spec.int_or_null text = true.
Proof.
  intros self d now. eexists _, _, _, _.
  split; [vm_compute; reflexivity|].
  split; [vm_compute; reflexivity|].
  split; [reflexivity|].
  split; vm_compute; reflexivity.
Qed.

(** ** Reading a run back *)

Section SortFacts.

Lemma lex_leb_total (a : list N) :
  forall b, lex_leb a b = true \/ lex_leb b a = true.
Proof.
  induction a as [|x a IH]; intros [|y b]; simpl; auto.
  destruct (N.ltb_spec x y), (N.ltb_spec y x); auto.
Qed.

Lemma leb_total (a b : datetime) : leb a b = true \/ leb b a = true.
Proof. apply lex_leb_total. Qed.

Lemma nondecreasing_cons (a : datetime) (l : list datetime) :
  Spec.nondecreasing (a :: l)
  = match l with [] => true | b :: _ => leb a b end && Spec.nondecreasing l.
Proof. by destruct l. Qed.

Lemma insert_by_t_head (x : LogReader.Sample) (l : list LogReader.Sample) :
  match LogReader.insert_by_t x l with
  | [] => False
  | y :: _ => y = x \/ (exists l', l = y :: l' /\ leb (LogReader.t x) (LogReader.t y) = false)
  end.
Proof.
  destruct l as [|y l]; simpl; [auto|].
  destruct (leb (LogReader.t x) (LogReader.t y)) eqn:E; eauto.
Qed.

Lemma insert_by_t_sorted (x : LogReader.Sample) (l : list LogReader.Sample) :
  Spec.nondecreasing (map LogReader.t l) = true ->
  Spec.nondecreasing (map LogReader.t (LogReader.insert_by_t x l)) = true.
Proof.
  induction l as [|y l IH]; [done|].
  intros Hs. cbn [LogReader.insert_by_t].
  destruct (leb (LogReader.t x) (LogReader.t y)) eqn:E.
  - cbn [map]. rewrite nondecreasing_cons. cbn [map] in Hs. by rewrite E, Hs.
  - cbn [map] in *. rewrite nondecreasing_cons in Hs |- *.
    apply andb_true_iff in Hs as [Hy Hl]. rewrite (IH Hl), andb_true_r.
    pose proof (insert_by_t_head x l) as Hh.
    destruct (LogReader.insert_by_t x l) as [|z l'] eqn:Ei; [done|].
    cbn [map]. destruct Hh as [->|(l'' & -> & _)].
    + destruct (leb_total (LogReader.t x) (LogReader.t y)); congruence.
    + exact Hy.
Qed.

Lemma sort_by_t_sorted (l : list LogReader.Sample) :
  Spec.nondecreasing (map LogReader.t (LogReader.sort_by_t l)) = true.
Proof.
  induction l as [|x l IH]; [done|]. simpl. by apply insert_by_t_sorted.
Qed.

Lemma insert_by_t_perm (x : LogReader.Sample) (l : list LogReader.Sample) :
  LogReader.insert_by_t x l ≡ₚ x :: l.
Proof.
  induction l as [|y l IH]; simpl; [done|].
  destruct (leb (LogReader.t x) (LogReader.t y)); [done|].
  rewrite IH. apply Permutation_swap.
Qed.

Lemma sort_by_t_perm (l : list LogReader.Sample) : LogReader.sort_by_t l ≡ₚ l.
Proof.
  induction l as [|x l IH]; simpl; [done|]. by rewrite insert_by_t_perm, IH.
Qed.

(** A list already in order is left as it is. *)
Lemma sort_by_t_id (l : list LogReader.Sample) :
  Spec.nondecreasing (map LogReader.t l) = true -> LogReader.sort_by_t l = l.
Proof.
  induction l as [|x l IH]; [done|].
  cbn [map]. rewrite nondecreasing_cons.
  intros [Hx Hl]%andb_true_iff. simpl. rewrite (IH Hl).
  destruct l as [|y l]; [done|]. simpl in *. by rewrite Hx.
Qed.

End SortFacts.

Section RunFacts.

Lemma file_text_log (d : AppendLog.Disk) :
  AppendLog.file_text d
  = AppendLog.initial d +:+ Spec.log_text (AppendLog.events d).
Proof. reflexivity. Qed.

Lemma log_text_app (a b : list AppendLog.io_event) :
  Spec.log_text (a ++ b) = Spec.log_text a +:+ Spec.log_text b.
Proof.
  unfold Spec.log_text. induction a as [|ev a IH]; simpl; [done|].
  by rewrite IH, append_assoc.
Qed.

Lemma write_samples_text (samples : list (PinStates * datetime)) :
  Forall (fun sn => valid sn.2 = true) samples ->
  forall (self : AppendLog.PinSampleJSONLogger) (d : AppendLog.Disk),
    is_Some (AppendLog._fh self) -> AppendLog.faults d = [] ->
    match Spec.write_samples (map (fun sn => (sn.1, None, sn.2)) samples) self d with
    | (oks, self', d') =>
        oks = Z.of_nat (length samples)
        /\ is_Some (AppendLog._fh self') /\ AppendLog.faults d' = []
        /\ AppendLog.initial d' = AppendLog.initial d
        /\ Spec.log_text (AppendLog.events d')
           = Spec.log_text (AppendLog.events d) +:+ Spec.lines_of samples
    end.
Proof.
  induction 1 as [|[ps now] samples Hv _ IH]; intros self d Hfh Hf.
  - simpl. by rewrite append_nil_r.
  - cbn [map Spec.write_samples fst snd].
    destruct (AppendLog.write_sample self ps None now d) as [[r self1] d1] eqn:E1.
    apply write_sample_cases in E1 as (_ & Hfh1 & Hi1 & Hf1 & Hcase).
    specialize (IH self1 d1 ltac:(by rewrite Hfh1) (Hf1 Hf)).
    destruct (Spec.write_samples _ self1 d1) as [[n self2] d2].
    destruct IH as (-> & Hfh2 & Hf2 & Hi2 & Ht).
    rewrite (written_line ps now Hv) in Hcase. simpl in Hv.
    destruct Hfh as [fh Hfh].
    destruct Hcase as [(e & -> & He & _ & [Hn|Hn])
                      |[(-> & He & _)
                       |[(-> & He & _)|(e & -> & He & _ & _ & Hn)]]];
      try congruence.
    + split; [cbn [length]; lia|]. split; [done|]. split; [done|].
      split; [congruence|].
      rewrite Ht, He, log_text_app, append_assoc. simpl. by rewrite append_nil_r.
    + split; [cbn [length]; lia|]. split; [done|]. split; [done|].
      split; [congruence|].
      rewrite Ht, He, log_text_app, append_assoc. simpl. by rewrite append_nil_r.
Qed.

Lemma run_log_text (flush_every : Z) (samples : list (PinStates * datetime)) :
  Forall (fun sn => valid sn.2 = true) samples ->
  AppendLog.file_text (Spec.run_log flush_every [] samples) = Spec.lines_of samples.
Proof.
  intros Hv. unfold Spec.run_log.
  cbn [AppendLog.open AppendLog.new AppendLog._fh AppendLog.io_call
         AppendLog.faults AppendLog.events AppendLog.initial app].
  match goal with
  | |- context [Spec.write_samples _ ?lg ?d0] =>
      pose proof (write_samples_text samples Hv lg d0 ltac:(by eexists) eq_refl) as H;
      destruct (Spec.write_samples (map (λ sn, (sn.1, None, sn.2)) samples) lg d0)
        as [[oks lg2] d2]
  end.
  destruct H as (_ & [fh Hfh] & Hf & Hi & Ht).
  unfold AppendLog.close, AppendLog.io_call. rewrite Hfh, Hf.
  cbn [AppendLog.faults AppendLog.events AppendLog.initial].
  rewrite file_text_log. cbn [AppendLog.events AppendLog.initial].
  rewrite <- (assoc_L (++)), log_text_app, Hi, Ht. simpl.
  by rewrite append_nil_r.
Qed.

Lemma read_lines_of (samples : list (PinStates * datetime)) :
  Forall (fun sn => valid sn.2 = true) samples ->
  LogReader.read_lines None (LogReader.file_lines (Spec.lines_of samples))
  = map Spec.expected samples.
Proof.
  unfold LogReader.file_lines.
  induction 1 as [|[ps now] samples Hv _ IH]; [reflexivity|].
  cbn [Spec.lines_of map]. unfold Spec.record_line at 1.
  rewrite record_then_tail, append_assoc. cbn [str1 String.append].
  rewrite lines_from_line
    by (apply record_printable; by apply now_iso_utc_plain).
  cbn [String.append]. rewrite <- record_then_tail.
  fold (Spec.record_line (AppendLog.now_iso_utc now) (d4 ps) (d5 ps) (d6 ps) (d7 ps)).
  rewrite read_lines_line by done. by rewrite IH.
Qed.

End RunFacts.

Section ReadBackTheorems.

Lemma read_back_lines (minus_seconds : datetime -> Z -> datetime)
  (samples : list (PinStates * datetime)) (now : datetime) :
  Forall (fun sn => valid sn.2 = true) samples ->
  LogReader.read_ndjson minus_seconds (Spec.lines_of samples) None now
  = LogReader.sort_by_t (map Spec.expected samples).
Proof.
  intros Hv. unfold LogReader.read_ndjson. by rewrite read_lines_of.
Qed.

Lemma expected_times (samples : list (PinStates * datetime)) :
  map LogReader.t (map Spec.expected samples) = map snd samples.
Proof. induction samples as [|[ps now] l IH]; simpl; congruence. Qed.

End ReadBackTheorems.

(** C5, for the four tracked pins. A sample written by [write_sample] with
    the timestamp taken from the clock and read back by [read_ndjson] gives
    one record, with the clock reading as its time and, for each of the
    pins 4, 5, 6 and 7, the integer the sample holds for it, or null (not
    0) when the sample has no value for it. *)
Theorem record_round_trip (minus_seconds : datetime -> Z -> datetime)
  (self self' : AppendLog.PinSampleJSONLogger) (sample : PinStates)
  (now now' : datetime) (d d' : AppendLog.Disk) :
  valid now = true ->
  AppendLog.write_sample self sample None now d = (Ok tt, self', d') ->
  exists text flushed smp,
    AppendLog.events d' = AppendLog.events d ++ AppendLog.IoWrite text :: flushed
    /\ LogReader.read_ndjson minus_seconds text None now' = [smp]
    /\ LogReader.t smp = now
    /\ forall pin, In pin [4; 5; 6; 7] ->
         Spec.read_pin smp pin
         = Some (match get sample pin None with Some v => JInt v | None => JNull end).
Proof.
  intros Hv Hw.
  assert (Hback : LogReader.read_ndjson minus_seconds
                    (Spec.record_line (AppendLog.now_iso_utc now)
                       (d4 sample) (d5 sample) (d6 sample) (d7 sample)) None now'
                  = [Spec.expected (sample, now)]).
  { rewrite <- (append_nil_r (Spec.record_line _ _ _ _ _)).
    change (Spec.record_line _ _ _ _ _ +:+ EmptyString)
      with (Spec.lines_of [(sample, now)]).
    rewrite read_back_lines by (by repeat constructor). reflexivity. }
  apply write_sample_cases in Hw as (_ & _ & _ & _ & Hcase).
  rewrite (written_line sample now Hv) in Hcase.
  assert (Hpins : forall pin, In pin [4; 5; 6; 7] ->
            Spec.read_pin (Spec.expected (sample, now)) pin
            = Some (match get sample pin None with Some v => JInt v | None => JNull end)).
  { intros pin [<-|[<-|[<-|[<-|[]]]]]; unfold get;
      [change (states sample !! 4) with (d4 sample)
      |change (states sample !! 5) with (d5 sample)
      |change (states sample !! 6) with (d6 sample)
      |change (states sample !! 7) with (d7 sample)];
      cbn [Spec.read_pin Spec.expected fst snd LogReader.d4 LogReader.d5
             LogReader.d6 LogReader.d7 Z.eqb Pos.eqb]; f_equal;
      match goal with |- context [AppendLog.opt_int ?o] => by destruct o end. }
  destruct Hcase as [(e & He & _)
                    |[(_ & He & _)|[(_ & He & _)|(e & He & _)]]];
    try discriminate He; eauto 10.
Qed.

Lemma record_round_trip_witness :
  let self := AppendLog.set_fh (Some {| AppendLog.name := "pin_samples.ndjson" |})
                (AppendLog.new AppendLog.default_config) in
  let d := {| AppendLog.initial := EmptyString; AppendLog.events := [];
              AppendLog.faults := [] |} in
  let now := {| year := 2026; month := 1; day := 13; hour := 4; minute := 32;
                second := 10; microsecond := 0 |} in
  let sample := {| states := <[6 := 1]> (<[4 := 0]> ∅) |} in
  exists text flushed smp,
    AppendLog.events (AppendLog.write_sample self sample None now d).2
    = AppendLog.IoWrite text :: flushed
    /\ LogReader.read_ndjson Spec.no_window text None now = [smp]
    /\ Spec.read_pin smp 4 = Some (JInt 0)
    /\ Spec.read_pin smp 5 = Some JNull.
Proof.
  intros self d now sample.
  destruct (AppendLog.write_sample self sample None now d) as [[r self'] d'] eqn:E.
  assert (Hr : r = Ok tt) by (vm_compute in E; congruence). subst r.
  destruct (record_round_trip Spec.no_window self self' sample now now d d'
              eq_refl E) as (text & flushed & smp & Hev & Hback & _ & Hpins).
  exists text, flushed, smp. split; [exact Hev|]. split; [exact Hback|].
  split; [apply (Hpins 4)|apply (Hpins 5)]; simpl; tauto.
Defined.

(** C5 fails for a pin outside 4..7: the sample [{9: 1}] is written as the
    same record as the empty sample, so the state of pin 9 is not in what
    is read back. *)
Lemma record_round_trip_counterexample :
  let self := AppendLog.set_fh (Some {| AppendLog.name := "pin_samples.ndjson" |})
                (AppendLog.new AppendLog.default_config) in
  let d := {| AppendLog.initial := EmptyString; AppendLog.events := [];
              AppendLog.faults := [] |} in
  let now := {| year := 2026; month := 1; day := 13; hour := 4; minute := 32;
                second := 10; microsecond := 123456 |} in
  exists m self' d' text smp,
    parse_line "9,1" = Ok m /\ m !! 9 = Some 1
    /\ AppendLog.write_sample self {| states := m |} None now d = (Ok tt, self', d')
    /\ AppendLog.events d' = [AppendLog.IoWrite text; AppendLog.IoFlush]
    /\ AppendLog.write_sample self {| states := ∅ |} None now d = (Ok tt, self', d')
    /\ LogReader.read_ndjson Spec.no_window text None now = [smp]
    /\ smp = {| LogReader.t := now; LogReader.d4 := JNull; LogReader.d5 := JNull;
                LogReader.d6 := JNull; LogReader.d7 := JNull |}
    /\ Spec.read_pin smp 9 = None.
Proof.
  intros self d now. eexists _, _, _, _, _.
  split; [vm_compute; reflexivity|].
  split; [vm_compute; reflexivity|].
  split; [vm_compute; reflexivity|].
  split; [reflexivity|].
  split; [vm_compute; reflexivity|].
  split; [vm_compute; reflexivity|].
  split; reflexivity.
Qed.

(** C6, under a clock that does not step back. One run on a new
    destination with a working file system, read back in full: the
    records are those of the samples
    written (same tracked pin fields, the clock reading as time), in
    non-decreasing order of time whatever the clock did; when the readings
    taken at the writes are non-decreasing, they are in the order
    written. *)
Theorem log_read_back (minus_seconds : datetime -> Z -> datetime)
  (flush_every : Z) (samples : list (PinStates * datetime)) (now : datetime) :
  Forall (fun sn => valid sn.2 = true) samples ->
  let back := LogReader.read_ndjson minus_seconds
                (AppendLog.file_text (Spec.run_log flush_every [] samples))
                None now in
  back ≡ₚ map Spec.expected samples
  /\ Spec.nondecreasing (map LogReader.t back) = true
  /\ (Spec.nondecreasing (map snd samples) = true ->
      back = map Spec.expected samples).
Proof.
  intros Hv back. subst back.
  rewrite (run_log_text flush_every samples Hv), (read_back_lines _ _ _ Hv).
  split; [apply sort_by_t_perm|]. split; [apply sort_by_t_sorted|].
  intros Hs. apply sort_by_t_id. by rewrite expected_times.
Qed.

Lemma log_read_back_witness :
  let t1 := {| year := 2026; month := 1; day := 13; hour := 4; minute := 32;
               second := 10; microsecond := 999999 |} in
  let t2 := {| year := 2026; month := 1; day := 13; hour := 4; minute := 32;
               second := 11; microsecond := 0 |} in
  let s1 := ({| states := <[4 := 1]> ∅ |}, t1) in
  let s2 := ({| states := <[4 := 0]> ∅ |}, t2) in
  LogReader.read_ndjson Spec.no_window
    (AppendLog.file_text (Spec.run_log 1 [] [s1; s2])) None t2
  = [Spec.expected s1; Spec.expected s2].
Proof.
  intros t1 t2 s1 s2.
  assert (Hv : Forall (fun sn : PinStates * datetime => valid sn.2 = true) [s1; s2])
    by (repeat constructor).
  exact (proj2 (proj2 (log_read_back Spec.no_window 1 [s1; s2] t2 Hv)) eq_refl).
Defined.

(** C6 fails when the clock steps back between two writes: the reader
    sorts by time, so the two records come back in the other order. *)
Lemma log_read_back_counterexample :
  let t1 := {| year := 2026; month := 1; day := 13; hour := 4; minute := 32;
               second := 11; microsecond := 250000 |} in
  let t2 := {| year := 2026; month := 1; day := 13; hour := 4; minute := 32;
               second := 10; microsecond := 999999 |} in
  let s1 := ({| states := <[4 := 1]> ∅ |}, t1) in
  let s2 := ({| states := <[4 := 0]> ∅ |}, t2) in
  LogReader.read_ndjson Spec.no_window
    (AppendLog.file_text (Spec.run_log 1 [] [s1; s2])) None t1
  = [Spec.expected s2; Spec.expected s1]
  /\ [Spec.expected s2; Spec.expected s1] <> map Spec.expected [s1; s2].
Proof.
  intros t1 t2 s1 s2. split; [vm_compute; reflexivity|].
  vm_compute. discriminate.
Qed.

(** ** Acquisition Service *)

Section ServiceFacts.
Variable decode : list Byte.byte -> string.
Variable c : Service.PinLoggingServiceConfig.

Lemma with_lock_inv (f : Service.Status -> Service.Status) (r : Service.Run) :
  (Spec.cache_filled (Service.status r) -> Spec.cache_filled (f (Service.status r))) ->
  Spec.cache_inv r -> Spec.cache_inv (Service.with_lock f r).
Proof.
  intros Hf [Hs Hp]. split; simpl; [auto|].
  apply Forall_app. split; [done|]. constructor; auto.
Qed.

Lemma set_world_inv (w : Service.World) (r : Service.Run) :
  Spec.cache_inv r -> Spec.cache_inv (Service.set_world w r).
Proof. by intros [Hs Hp]. Qed.

Lemma echo_inv (line : string) (r : Service.Run) :
  Spec.cache_inv r -> Spec.cache_inv (Service.echo c line r).
Proof. unfold Service.echo. destruct (Service.print_errors c); [apply set_world_inv|done]. Qed.

Lemma report_inv (prefix : string) (e : exn) (r : Service.Run) :
  Spec.cache_inv r -> Spec.cache_inv (Service.report c prefix e r).
Proof.
  intros H. unfold Service.report. apply echo_inv. by apply with_lock_inv.
Qed.

Lemma acquire_inv (polls : nat) :
  forall logger mon r,
    Spec.cache_inv r -> Spec.cache_inv (Service.acquire decode c polls logger mon r).2.
Proof.
  induction polls as [|polls IH]; intros logger mon r Hr; [done|].
  cbn [Service.acquire].
  destruct (SampleSource.read_states decode mon (Service.serial (Service.world r)))
    as [[[states|]|e] p].
  - unfold Service.read_time, Service.read_utc.
    match goal with
    | |- context [AppendLog.write_sample ?lg ?st ?ts ?now ?d] =>
        destruct (AppendLog.write_sample lg st ts now d) as [[[u|e] lg'] d']
    end.
    + apply IH. apply with_lock_inv.
      { intros _ _. simpl. split; by eexists. }
      apply set_world_inv. apply set_world_inv. apply with_lock_inv.
      { intros _ _. simpl. split; by eexists. }
      do 2 apply set_world_inv. done.
    + apply IH. apply report_inv.
      apply set_world_inv. apply set_world_inv. apply with_lock_inv.
      { intros _ _. simpl. split; by eexists. }
      do 2 apply set_world_inv. done.
  - apply IH. apply with_lock_inv; [done|]. by apply set_world_inv.
  - simpl. by apply set_world_inv.
Qed.

Lemma run_inv (r : Service.Run) :
  Spec.cache_inv r -> Spec.cache_inv (Service._run decode c r).1.1.
Proof.
  intros Hr. unfold Service._run, Service.read_time.
  set (r1 := Service.with_lock _ (Service.tick r)).
  assert (H1 : Spec.cache_inv r1).
  { apply with_lock_inv; [done|]. by apply set_world_inv. }
  clearbody r1.
  assert (H2 : Spec.cache_inv (Service.run_body decode c
                            (AppendLog.new {| AppendLog.path := Service.json_path c;
                                              AppendLog.flush_every := Service.flush_every c |})
                            r1).2).
  { unfold Service.run_body.
    destruct (AppendLog.open _ _) as [[[u|e] lg] d]; [|by apply set_world_inv].
    destruct (SampleSource.open _ _) as [[[u'|e] mon] p]; [|by do 2 apply set_world_inv].
    match goal with
    | |- context [Service.acquire decode c ?n ?lg ?mon ?r] =>
        pose proof (acquire_inv n lg mon r ltac:(by do 2 apply set_world_inv)) as Ha;
        destruct (Service.acquire decode c n lg mon r) as [[res lg2] r2]
    end.
    destruct (SampleSource.close _ _) as [mon2 p']. by apply set_world_inv. }
  destruct (Service.run_body _ _ _ _) as [[[res lg1] mon] r2]. simpl in H2.
  assert (H3 : Spec.cache_inv match res with
                         | Raise e => Service.report c "fatal: " e r2
                         | Ok _ => r2
                         end).
  { destruct res; [done|by apply report_inv]. }
  destruct (AppendLog.close _ _) as [[res' lg2] d]. simpl.
  apply with_lock_inv; [done|]. by apply set_world_inv.
Qed.

End ServiceFacts.

(** C7. Take a run of the worker from a status whose cache is filled once
    a sample is counted (the status of a new service is one). Every value
    the locked fields take during the run, each locked block of the worker
    being one step, keeps that property, and a snapshot is computed from
    one such value, possibly with the running flag cleared by [stop()]:
    when it reports at least one sample written, the cached
    last sample and its time are present, the snapshot's pin fields are
    those of that sample, and its age is given (for a reading of
    [time.time()] other than zero, which Python takes for false). *)
Theorem status_snapshot_consistent (decode : list Byte.byte -> string)
  (c : Service.PinLoggingServiceConfig) (s0 : Service.Status) (w : Service.World)
  (self : Service.PinLoggingService) (now : Z) :
  Spec.cache_filled s0 ->
  let run := (Service._run decode c
                {| Service.status := s0; Service.world := w;
                   Service.published := [] |}).1.1 in
  (exists s, In s (s0 :: Service.published run)
             /\ (Service.locked self = s
                 \/ Service.locked self = Service.set_running false s)) ->
  let snap := Service.get_status self now in
  1 <= Service.samples_written snap ->
  exists last t0,
    Service._last_states (Service.locked self) = Some last
    /\ Service._last_sample_at (Service.locked self) = Some t0
    /\ Service.pins snap
       = {| Service.pin_d4 := d4 last; Service.pin_d5 := d5 last;
            Service.pin_d6 := d6 last; Service.pin_d7 := d7 last |}
    /\ (t0 <> 0 -> Service.last_sample_age_s snap = Some (now - t0)).
Proof.
  intros H0 run Hin snap Hn.
  assert (Hinv : Spec.cache_inv run).
  { apply run_inv. split; [done|constructor]. }
  assert (Hs : Spec.cache_filled (Service.locked self)).
  { destruct Hin as (s & Hin & Hs).
    assert (Hc : Spec.cache_filled s).
    { destruct Hin as [<-|Hin]; [done|].
      destruct Hinv as [_ Hp]. rewrite List.Forall_forall in Hp. by apply Hp. }
    destruct Hs as [->| ->]; done. }
  destruct (Hs Hn) as [[last Hl] [t0 Ht]].
  exists last, t0. split; [done|]. split; [done|]. split.
  - unfold snap, Service.get_status. simpl. by rewrite Hl.
  - intros Hne. unfold snap, Service.get_status, Service.since. simpl.
    rewrite Ht. by destruct (Z.eqb_spec t0 0).
Qed.

Section FailureFacts.

Lemma close_released (lg lg' : AppendLog.PinSampleJSONLogger)
  (d d' : AppendLog.Disk) (r : res exn unit) :
  AppendLog.close lg d = (r, lg', d') -> AppendLog._fh lg' = None.
Proof.
  unfold AppendLog.close. destruct (AppendLog._fh lg) eqn:E.
  - destruct (AppendLog.io_call AppendLog.IoFlush d) as [[u|e] d1].
    + destruct (AppendLog.io_call AppendLog.IoClose d1) as [r2 d2].
      by intros [= <- <- <-].
    + by intros [= <- <- <-].
  - by intros [= <- <- <-].
Qed.

Lemma close_again (lg : AppendLog.PinSampleJSONLogger) (d : AppendLog.Disk) :
  AppendLog._fh lg = None -> AppendLog.close lg d = (Ok tt, lg, d).
Proof. intros H. unfold AppendLog.close. by rewrite H. Qed.

Lemma monitor_close_again (mon : SampleSource.ArduinoPinMonitor)
  (p : SampleSource.Port) :
  SampleSource._ser mon = None -> SampleSource.close mon p = (mon, p).
Proof. intros H. unfold SampleSource.close. by rewrite H. Qed.

Lemma open_new_ok (cfg : AppendLog.JSONLogConfig) (d : AppendLog.Disk) :
  AppendLog.faults d = [] ->
  AppendLog.open (AppendLog.new cfg) d
  = (Ok tt,
     AppendLog.set_fh (Some {| AppendLog.name := AppendLog.path cfg |})
       (AppendLog.new cfg),
     {| AppendLog.initial := AppendLog.initial d;
        AppendLog.events :=
          AppendLog.events d ++ [AppendLog.IoMakedirs; AppendLog.IoOpen];
        AppendLog.faults := [] |}).
Proof.
  intros Hf. unfold AppendLog.open, AppendLog.io_call. simpl. rewrite Hf. simpl.
  by rewrite <- (assoc_L (++)).
Qed.

Lemma close_open_ok (lg : AppendLog.PinSampleJSONLogger) (d : AppendLog.Disk)
  (fh : AppendLog.TextIO) :
  AppendLog._fh lg = Some fh -> AppendLog.faults d = [] ->
  AppendLog.close lg d
  = (Ok tt, AppendLog.set_fh None lg,
     {| AppendLog.initial := AppendLog.initial d;
        AppendLog.events :=
          AppendLog.events d ++ [AppendLog.IoFlush; AppendLog.IoClose];
        AppendLog.faults := [] |}).
Proof.
  intros Hfh Hf. unfold AppendLog.close, AppendLog.io_call. rewrite Hfh, Hf. simpl.
  by rewrite <- (assoc_L (++)).
Qed.

Lemma report_status (c : Service.PinLoggingServiceConfig) (prefix : string)
  (e : exn) (r : Service.Run) :
  Service.status (Service.report c prefix e r)
  = Service.set_error (prefix +:+ exn_str e) (Service.status r)
  /\ Service.disk (Service.world (Service.report c prefix e r))
     = Service.disk (Service.world r)
  /\ Service.serial (Service.world (Service.report c prefix e r))
     = Service.serial (Service.world r).
Proof.
  unfold Service.report, Service.echo. by destruct (Service.print_errors c).
Qed.

End FailureFacts.

(** C8. When the serial connection cannot be opened, a run of the worker
    ends without a single read: the status has a non-empty last error and
    the running flag cleared, the counters are untouched, the logger and
    the monitor are left closed (closing them again changes nothing), and
    [_run] returns normally. With a working file system the log has been
    opened and closed again and the error is the one of the connection. *)
Theorem serial_open_failure (decode : list Byte.byte -> string)
  (c : Service.PinLoggingServiceConfig) (s0 : Service.Status) (w : Service.World)
  (msg : string) :
  SampleSource.open_error (Service.serial w) = Some msg ->
  match Service._run decode c
          {| Service.status := s0; Service.world := w; Service.published := [] |} with
  | (run, logger, mon) =>
      (exists err, Service._last_error (Service.status run) = Some err
                   /\ err <> EmptyString)
      /\ Service._running (Service.status run) = false
      /\ Service._samples_written (Service.status run) = Service._samples_written s0
      /\ Service._bad_reads (Service.status run) = Service._bad_reads s0
      /\ Service.serial (Service.world run) = Service.serial w
      /\ AppendLog._fh logger = None
      /\ SampleSource._ser mon = None
      /\ (forall d, AppendLog.close logger d = (Ok tt, logger, d))
      /\ (forall p, SampleSource.close mon p = (mon, p))
      /\ (AppendLog.faults (Service.disk w) = [] ->
          AppendLog.events (Service.disk (Service.world run))
          = AppendLog.events (Service.disk w)
            ++ [AppendLog.IoMakedirs; AppendLog.IoOpen; AppendLog.IoFlush;
                AppendLog.IoClose]
          /\ Service._last_error (Service.status run) = Some ("fatal: " +:+ msg))
  end.
Proof.
  intros Hopen. unfold Service._run, Service.run_body, Service.read_time.
  cbn [Service.world Service.tick Service.with_lock Service.set_world Service.disk
         Service.status Service.set_disk Service.serial].
  destruct (AppendLog.open _ (Service.disk w)) as [[[u|e] lg] d1] eqn:Eo.
  - cbn [Service.world Service.tick Service.with_lock Service.set_world Service.disk
           Service.status Service.set_disk Service.serial].
    unfold SampleSource.open.
    cbn [SampleSource.ser_is_open SampleSource.new SampleSource._ser].
    rewrite Hopen.
    match goal with
    | |- context [Service.report c ?p ?e ?r] =>
        destruct (report_status c p e r) as (Hs & Hd & Hp);
        set (r3 := Service.report c p e r) in *
    end.
    rewrite Hd. cbn [Service.world Service.set_serial Service.set_world Service.disk
                       Service.set_disk] in *.
    destruct (AppendLog.close lg d1) as [[res lg2] d2] eqn:Ec.
    pose proof (close_released _ _ _ _ _ Ec) as Hfh.
    cbn [Service.world Service.with_lock Service.set_world Service.disk
           Service.status Service.set_disk Service.serial].
    rewrite Hs, Hp.
    split_and!; try done.
    + eexists. split; [reflexivity|]. discriminate.
    + intros d. by apply close_again.
    + intros Hf. rewrite (open_new_ok _ _ Hf) in Eo. injection Eo as _ <- <-.
      erewrite close_open_ok in Ec; [|reflexivity|reflexivity].
      injection Ec as _ _ <-.
      cbn [AppendLog.events]. by rewrite <- (assoc_L (++)).
  - match goal with
    | |- context [Service.report c ?p ?e ?r] =>
        destruct (report_status c p e r) as (Hs & Hd & Hp);
        set (r3 := Service.report c p e r) in *
    end.
    rewrite Hd. cbn [Service.world Service.set_serial Service.set_world Service.disk
                       Service.set_disk] in *.
    destruct (AppendLog.close lg d1) as [[res lg2] d2] eqn:Ec.
    pose proof (close_released _ _ _ _ _ Ec) as Hfh.
    cbn [Service.world Service.with_lock Service.set_world Service.disk
           Service.status Service.set_disk Service.serial].
    rewrite Hs, Hp.
    split_and!; try done.
    + eexists. split; [reflexivity|]. discriminate.
    + intros d. by apply close_again.
    + intros Hf. rewrite (open_new_ok _ _ Hf) in Eo. discriminate Eo.
Qed.


Lemma status_snapshot_consistent_witness :
  let c := {| Service.port := "COM3"; Service.baud := 115200;
              Service.json_path := "pin_samples.ndjson";
              Service.flush_every := 1; Service.print_errors := false |} in
  let now := {| year := 2026; month := 1; day := 13; hour := 4; minute := 32;
                second := 10; microsecond := 123456 |} in
  let w := {| Service.disk := {| AppendLog.initial := EmptyString;
                                 AppendLog.events := []; AppendLog.faults := [] |};
              Service.serial :=
                {| open_error := None; reset_fails := false; buffered := [];
                   incoming := [RxBytes (list_byte_of_string "4,1,5,0")];
                   os_open := false |};
              Service.time_time := fun _ => 1768278730;
              Service.utc_now := fun _ => now;
              Service.readings := 0; Service.stop_after := 1;
              Service.stdout := [] |} in
  let run := (Service._run Spec.decode_ascii c
                {| Service.status := Service.initial_status; Service.world := w;
                   Service.published := [] |}).1.1 in
  let self := {| Service.cfg := c; Service._stop := false;
                 Service._thread := Some {| Service.is_alive := true |};
                 Service.locked := Service.status run; Service.spawned := 1 |} in
  Service.samples_written (Service.get_status self 1768278731) = 1
  /\ exists last t0,
      Service._last_states (Service.locked self) = Some last
      /\ Service._last_sample_at (Service.locked self) = Some t0
      /\ Service.pins (Service.get_status self 1768278731)
         = {| Service.pin_d4 := d4 last; Service.pin_d5 := d5 last;
              Service.pin_d6 := d6 last; Service.pin_d7 := d7 last |}
      /\ (t0 <> 0 ->
          Service.last_sample_age_s (Service.get_status self 1768278731)
          = Some (1768278731 - t0)).
Proof.
  intros c now w run self.
  assert (H1 : Spec.cache_filled Service.initial_status).
  { intros H. vm_compute in H. contradiction. }
  assert (H2 : exists s, In s (Service.initial_status :: Service.published run)
                         /\ (Service.locked self = s
                             \/ Service.locked self = Service.set_running false s)).
  { exists (Service.status run). split; [|by left].
    vm_compute. do 4 right. left. reflexivity. }
  assert (H3 : 1 <= Service.samples_written (Service.get_status self 1768278731)).
  { vm_compute. discriminate. }
  split; [vm_compute; reflexivity|].
  exact (status_snapshot_consistent Spec.decode_ascii c Service.initial_status w
           self 1768278731 H1 H2 H3).
Defined.

Lemma serial_open_failure_witness :
  let c := {| Service.port := "COM3"; Service.baud := 115200;
              Service.json_path := "pin_samples.ndjson";
              Service.flush_every := 1; Service.print_errors := true |} in
  let now := {| year := 2026; month := 1; day := 13; hour := 4; minute := 32;
                second := 10; microsecond := 123456 |} in
  let w := {| Service.disk := {| AppendLog.initial := EmptyString;
                                 AppendLog.events := []; AppendLog.faults := [] |};
              Service.serial :=
                {| open_error := Some "could not open port COM3";
                   reset_fails := false; buffered := [];
                   incoming := [RxBytes (list_byte_of_string "4,1,5,0")];
                   os_open := false |};
              Service.time_time := fun _ => 1768278730;
              Service.utc_now := fun _ => now;
              Service.readings := 0; Service.stop_after := 3;
              Service.stdout := [] |} in
  let run := (Service._run Spec.decode_ascii c
                {| Service.status := Service.initial_status; Service.world := w;
                   Service.published := [] |}).1.1 in
  Service._running (Service.status run) = false
  /\ Service._last_error (Service.status run)
     = Some "fatal: could not open port COM3"
  /\ Service.serial (Service.world run) = Service.serial w.
Proof.
  intros c now w run. subst run.
  pose proof (serial_open_failure Spec.decode_ascii c Service.initial_status w
                "could not open port COM3" eq_refl) as H.
  destruct (Service._run Spec.decode_ascii c _) as [[run logger] mon].
  destruct H as (_ & Hrun & _ & _ & Hser & _ & _ & _ & _ & Hok).
  destruct (Hok eq_refl) as [_ Herr].
  split; [exact Hrun|]. split; [exact Herr|exact Hser].
Defined.

(** C9. [stop()] on a service that was never started leaves the locked
    fields, the snapshot and [is_running()] as they were and starts no
    worker, and a later [start()] behaves as on a service that was never
    stopped. [start()] on a service whose worker is alive changes nothing,
    so two calls in a row start exactly one worker. *)
Theorem start_stop_idempotent (self : Service.PinLoggingService)
  (j : Service.join_outcome) (now : Z) :
  (Service._thread self = None ->
   Service._running (Service.locked self) = false ->
   Service.locked (Service.stop self j) = Service.locked self
   /\ Service.get_status (Service.stop self j) now = Service.get_status self now
   /\ Service.is_running (Service.stop self j) = false
   /\ Service.spawned (Service.stop self j) = Service.spawned self
   /\ Service.start (Service.stop self j) = Service.start self)
  /\ (Service.is_running self = true -> Service.start self = self)
  /\ Service.start (Service.start self) = Service.start self
  /\ (Service.is_running self = false ->
      Service.spawned (Service.start (Service.start self))
      = S (Service.spawned self)
      /\ Service.is_running (Service.start (Service.start self)) = true).
Proof.
  split; [|split; [|split]].
  - intros Hth Hrun. destruct self as [c st th s n]. simpl in *. subst th.
    unfold Service.stop. simpl.
    assert (Hs : Service.set_running false s = s).
    { destruct s. simpl in *. by subst. }
    rewrite Hs. done.
  - intros H. unfold Service.start. by rewrite H.
  - unfold Service.start. destruct (Service.is_running self) eqn:E.
    + by rewrite E.
    + reflexivity.
  - intros H. unfold Service.start. rewrite H. done.
Qed.

Lemma start_stop_idempotent_witness :
  let c := {| Service.port := "COM3"; Service.baud := 115200;
              Service.json_path := "pin_samples.ndjson";
              Service.flush_every := 1; Service.print_errors := true |} in
  Service.get_status (Service.stop (Service.new c) (Service.Joined Service.initial_status)) 7
  = Service.get_status (Service.new c) 7
  /\ Service.spawned (Service.start (Service.start (Service.new c))) = 1%nat.
Proof.
  intros c.
  destruct (start_stop_idempotent (Service.new c)
              (Service.Joined Service.initial_status) 7)
    as (Hstop & _ & _ & Hstart).
  destruct (Hstop eq_refl eq_refl) as (_ & Hsnap & _).
  destruct (Hstart eq_refl) as [Hsp _].
  split; [exact Hsnap|exact Hsp].
Defined.

(** C10. A line that is not empty after trimming but has no non-empty
    token between its commas is not a bad read: [read_states] returns the
    sample with the empty mapping, and the loop iteration that reads it, on
    an open log with a working file system, appends the record whose four
    pin fields are null and counts one more sample written. *)
Theorem commas_only_line_is_logged (decode : list Byte.byte -> string)
  (c : Service.PinLoggingServiceConfig) (logger : AppendLog.PinSampleJSONLogger)
  (mon : ArduinoPinMonitor) (r : Service.Run) (raw : list Byte.byte)
  (p' : Port) (k : nat) (fh : AppendLog.TextIO) :
  ser_is_open mon = true ->
  readline (Service.serial (Service.world r)) = (RxBytes raw, p') ->
  raw <> [] ->
  strip (decode raw) <> EmptyString ->
  tokens (strip (decode raw)) = [] ->
  read_states decode mon (Service.serial (Service.world r))
  = (Ok (Some {| states := ∅ |}), p')
  /\ (AppendLog._fh logger = Some fh ->
      AppendLog.faults (Service.disk (Service.world r)) = [] ->
      exists logger' r' ts flushed,
        Service.acquire decode c (S k) logger mon r
        = Service.acquire decode c k logger' mon r'
        /\ Service._samples_written (Service.status r')
           = Service._samples_written (Service.status r) + 1
        /\ Service._bad_reads (Service.status r') = Service._bad_reads (Service.status r)
        /\ Service._last_states (Service.status r') = Some {| states := ∅ |}
        /\ AppendLog.events (Service.disk (Service.world r'))
           = AppendLog.events (Service.disk (Service.world r))
             ++ AppendLog.IoWrite
                  (dumps (JObj [("ts_utc", JStr ts); ("d4", JNull); ("d5", JNull);
                                ("d6", JNull); ("d7", JNull)]) +:+ str1 nl)
                :: flushed).
Proof.
  intros Hopen Hread Hraw Hline Htok.
  assert (Hrs : read_states decode mon (Service.serial (Service.world r))
                = (Ok (Some {| states := ∅ |}), p')).
  { unfold read_states. rewrite Hopen, Hread. simpl negb. cbv iota.
    destruct raw as [|b raw]; [done|]. cbn [length Nat.eqb].
    destruct (strip (decode (b :: raw))) as [|a line] eqn:E; [done|].
    cbn [is_empty]. unfold parse_line. rewrite Htok. reflexivity. }
  split; [exact Hrs|]. intros Hfh Hf.
  cbn [Service.acquire]. rewrite Hrs. unfold Service.read_time, Service.read_utc.
  match goal with
  | |- context [AppendLog.write_sample ?lg ?st ?ts ?now ?d] =>
      destruct (AppendLog.write_sample lg st ts now d) as [[res lg'] d'] eqn:Ew
  end.
  apply write_sample_cases in Ew as (_ & _ & _ & _ & Hcase).
  cbn [Service.disk Service.world Service.tick Service.with_lock Service.set_world
         Service.set_serial] in Hcase.
  destruct Hcase as [(e & -> & _ & _ & [Hn|Hn])
                    |[(-> & He & _)|[(-> & He & _)|(e & -> & _ & _ & _ & Hn)]]];
    try congruence.
  - eexists _, _, _, [].
    split; [reflexivity|]. split; [reflexivity|]. split; [reflexivity|].
    split; [reflexivity|]. exact He.
  - eexists _, _, _, [AppendLog.IoFlush].
    split; [reflexivity|]. split; [reflexivity|]. split; [reflexivity|].
    split; [reflexivity|]. exact He.
Qed.

Lemma commas_only_line_is_logged_witness :
  let c := {| Service.port := "COM3"; Service.baud := 115200;
              Service.json_path := "pin_samples.ndjson";
              Service.flush_every := 1; Service.print_errors := false |} in
  let now := {| year := 2026; month := 1; day := 13; hour := 4; minute := 32;
                second := 10; microsecond := 123456 |} in
  let raw := list_byte_of_string " ,, , " in
  let rest := {| open_error := None; reset_fails := false; buffered := [];
                 incoming := []; os_open := true |} in
  let w := {| Service.disk := {| AppendLog.initial := EmptyString;
                                 AppendLog.events := []; AppendLog.faults := [] |};
              Service.serial :=
                {| open_error := None; reset_fails := false; buffered := [];
                   incoming := [RxBytes raw]; os_open := true |};
              Service.time_time := fun _ => 1768278730;
              Service.utc_now := fun _ => now;
              Service.readings := 0; Service.stop_after := 1;
              Service.stdout := [] |} in
  let mon := set_ser (Some {| is_open := true |}) (SampleSource.new "COM3" 115200) in
  let logger := AppendLog.set_fh (Some {| AppendLog.name := "pin_samples.ndjson" |})
                  (AppendLog.new AppendLog.default_config) in
  let r := {| Service.status := Service.initial_status; Service.world := w;
              Service.published := [] |} in
  read_states Spec.decode_ascii mon (Service.serial w) = (Ok (Some {| states := ∅ |}), rest)
  /\ Service._samples_written
       (Service.status (Service.acquire Spec.decode_ascii c 1 logger mon r).2) = 1.
Proof.
  intros c now raw rest w mon logger r.
  assert (Hraw : raw <> []) by discriminate.
  assert (Hline : strip (Spec.decode_ascii raw) <> EmptyString) by discriminate.
  destruct (commas_only_line_is_logged Spec.decode_ascii c logger mon r raw rest 0
              {| AppendLog.name := "pin_samples.ndjson" |}
              eq_refl eq_refl Hraw Hline eq_refl) as [Hrs Hloop].
  split; [exact Hrs|].
  destruct (Hloop eq_refl eq_refl) as (logger' & r' & ts & flushed & Hacq & Hn & _).
  rewrite Hacq. simpl. rewrite Hn. reflexivity.
Defined.

(** ** The scenarios of the specification *)

(** The line [4,1,5,0,6,1,7,0] is decoded and logged. *)
Example scenario_sample_logged :
  parse_line "4,1,5,0,6,1,7,0"
  = Ok (<[7 := 0]> (<[6 := 1]> (<[5 := 0]> (<[4 := 1]> ∅))))
  /\ AppendLog.events (Service.disk (Service.world (Spec.scenario_run ["4,1,5,0,6,1,7,0"] 1)))
     = [AppendLog.IoMakedirs; AppendLog.IoOpen;
        AppendLog.IoWrite
          (Spec.record_line "2026-01-13T04:32:10.123456Z"
             (Some 1) (Some 0) (Some 1) (Some 0));
        AppendLog.IoFlush; AppendLog.IoFlush; AppendLog.IoClose]
  /\ Service._samples_written (Service.status (Spec.scenario_run ["4,1,5,0,6,1,7,0"] 1)) = 1
  /\ Service._bad_reads (Service.status (Spec.scenario_run ["4,1,5,0,6,1,7,0"] 1)) = 0.
Proof. repeat split; vm_compute; reflexivity. Qed.

(** The line [4,1,5] has an odd number of tokens: a bad read, nothing
    appended. *)
Example scenario_odd_tokens :
  parse_line "4,1,5" = Raise (ValueError_odd_fields ["4"; "1"; "5"])
  /\ AppendLog.events (Service.disk (Service.world (Spec.scenario_run ["4,1,5"] 1)))
     = [AppendLog.IoMakedirs; AppendLog.IoOpen; AppendLog.IoFlush;
        AppendLog.IoClose]
  /\ Service._samples_written (Service.status (Spec.scenario_run ["4,1,5"] 1)) = 0
  /\ Service._bad_reads (Service.status (Spec.scenario_run ["4,1,5"] 1)) = 1.
Proof. repeat split; vm_compute; reflexivity. Qed.

(** A read that times out: a bad read, nothing appended, no error. *)
Example scenario_timeout :
  AppendLog.events (Service.disk (Service.world (Spec.scenario_run [] 2)))
  = [AppendLog.IoMakedirs; AppendLog.IoOpen; AppendLog.IoFlush; AppendLog.IoClose]
  /\ Service._bad_reads (Service.status (Spec.scenario_run [] 2)) = 2
  /\ Service._last_error (Service.status (Spec.scenario_run [] 2)) = None.
Proof. repeat split; vm_compute; reflexivity. Qed.

(** On a whole second [isoformat()] has no fraction, and neither has the
    timestamp of the record. *)
Example scenario_whole_second :
  AppendLog.now_iso_utc
    {| year := 2026; month := 1; day := 13; hour := 4; minute := 32;
       second := 10; microsecond := 0 |}
  = "2026-01-13T04:32:10Z".
Proof. vm_compute. reflexivity. Qed.


(** ** The library models on small inputs *)

Example py_int_forms :
  py_int " -1_000 " = Some (-1000) /\ py_int "007" = Some 7
  /\ py_int "+12" = Some 12 /\ py_int "1__0" = None /\ py_int "_1" = None
  /\ py_int "1_" = None /\ py_int "+" = None /\ py_int "4 2" = None
  /\ py_int "0x10" = None /\ py_int "1.0" = None.
Proof. repeat split; vm_compute; reflexivity. Qed.

(** [int()] reads 4300 digits and no more. *)
Example py_int_limit :
  is_Some (py_int (string_of_list_ascii (List.repeat "1"%char 4300)))
  /\ py_int (string_of_list_ascii (List.repeat "1"%char 4301)) = None.
Proof.
  split; vm_compute; [eexists|]; reflexivity.
Qed.

Example split_and_tokens :
  split "," "a,,b," = ["a"; EmptyString; "b"; EmptyString]
  /\ split "," EmptyString = [EmptyString]
  /\ tokens " 4 , 1 ,, 5,0 " = ["4"; "1"; "5"; "0"]
  /\ tokens ",, ," = [].
Proof. repeat split; vm_compute; reflexivity. Qed.

Example dumps_escapes :
  dumps (JStr (String "a" (String dquote (String nl (String backslash "b")))))
  = String dquote
      (String "a" (String backslash (String dquote
         (String backslash (String "n" (String backslash (String backslash
            (String "b" (String dquote EmptyString))))))))).
Proof. vm_compute. reflexivity. Qed.

Example loads_forms :
  loads " { } " = Some (JObj [])
  /\ loads "[1, -2, null, true]" = Some (JArr [JInt 1; JInt (-2); JNull; JBool true])
  /\ loads "-0" = Some (JInt 0)
  /\ loads "1.5e3" = Some (JFloat "1.5e3")
  /\ loads "01" = None /\ loads "[1,]" = None /\ loads "nul" = None
  /\ loads "{} x" = None.
Proof. repeat split; vm_compute; reflexivity. Qed.

Example fromisoformat_forms :
  fromisoformat_utc "2026-01-13T04:32:10.123456+00:00"
  = Some {| year := 2026; month := 1; day := 13; hour := 4; minute := 32;
            second := 10; microsecond := 123456 |}
  /\ fromisoformat_utc "2026-01-13 04:32:10.123+00:00"
     = Some {| year := 2026; month := 1; day := 13; hour := 4; minute := 32;
               second := 10; microsecond := 123000 |}
  /\ fromisoformat_utc "2026-02-30T04:32:10+00:00" = None
  /\ fromisoformat_utc "2024-02-29T23:59:59+00:00"
     = Some {| year := 2024; month := 2; day := 29; hour := 23; minute := 59;
               second := 59; microsecond := 0 |}
  /\ fromisoformat_utc "2026-01-13T04:32:10.1234+00:00" = None.
Proof. repeat split; vm_compute; reflexivity. Qed.

(** * Further properties of the code *)

(** ** Line Codec: composition and round trip *)

Section LineComposition.

Lemma parse_pairs_app (ta tb : list string) :
  forall out m,
    (length ta mod 2 = 0)%nat ->
    parse_pairs ta out = Ok m ->
    parse_pairs (ta ++ tb) out = parse_pairs tb m.
Proof.
  induction ta as [|x|x y ta IH] using pairs_ind; intros out m Hlen H.
  - simpl in H. by inversion H.
  - discriminate Hlen.
  - simpl in H |- *. destruct (py_int x); [|done]. destruct (py_int y); [|done].
    apply IH; [|done]. rewrite <- (mod2_SS (length ta)). exact Hlen.
Qed.

Lemma parse_pairs_over (t : list string) :
  forall out m,
    parse_pairs t ∅ = Ok m -> parse_pairs t out = Ok (m ∪ out).
Proof.
  assert (G : forall base out m, parse_pairs t base = Ok m ->
                exists m', parse_pairs t (base ∪ out) = Ok m' /\ m' = m ∪ out).
  { induction t as [|x|x y t IH] using pairs_ind; intros base out m H.
    - simpl in *. inversion H; subst. eauto.
    - simpl in *. destruct (py_int x); discriminate.
    - simpl in *. destruct (py_int x) as [p|]; [|done].
      destruct (py_int y) as [v|]; [|done].
      rewrite (insert_union_l base out p v). by apply IH. }
  intros out m H. destruct (G ∅ out m H) as (m' & Hm' & ->).
  by rewrite (left_id_L ∅ (∪)) in Hm'.
Qed.

Lemma parse_line_ok_inv (line : string) (m : gmap Z Z) :
  parse_line line = Ok m ->
  (length (tokens line) mod 2 = 0)%nat /\ parse_pairs (tokens line) ∅ = Ok m.
Proof.
  unfold parse_line.
  destruct (Nat.eqb_spec (length (tokens line) mod 2) 0); simpl; [done|].
  discriminate.
Qed.

(** X1. Two lines that decode, joined by a comma, decode to the values
    of the second line over those of the first: a pin of both lines has
    the value of the second. *)
Theorem parse_line_concat (a b : string) (ma mb : gmap Z Z) :
  parse_line a = Ok ma -> parse_line b = Ok mb ->
  parse_line (a +:+ "," +:+ b) = Ok (mb ∪ ma).
Proof.
  intros [Ha Hpa]%parse_line_ok_inv [Hb Hpb]%parse_line_ok_inv.
  unfold parse_line. change ("," +:+ b) with (String "," b).
  rewrite tokens_app, length_app.
  assert (E : ((length (tokens a) + length (tokens b)) mod 2 = 0)%nat).
  { rewrite Nat.Div0.add_mod, Ha, Hb. reflexivity. }
  rewrite E. simpl.
  rewrite (parse_pairs_app _ _ _ _ Ha Hpa). by apply parse_pairs_over.
Qed.

Lemma parse_line_concat_witness :
  parse_line ("4,1,5,0" +:+ "," +:+ "4,0,6,1")
  = Ok ((<[6 := 1]> (<[4 := 0]> ∅)) ∪ (<[5 := 0]> (<[4 := 1]> ∅))).
Proof.
  apply (parse_line_concat "4,1,5,0" "4,0,6,1"); vm_compute; reflexivity.
Defined.

End LineComposition.

Section LineRoundTrip.

Lemma int_digits_digits_w (w : nat) (n : N) :
  forall acc : Z,
    int_digits (digits_w (S w) n) acc false
    = Some (acc * Z.of_N (Spec.pow10 (S w)) + Z.of_N (n mod Spec.pow10 (S w))).
Proof.
  assert (G : forall w acc prev, (prev = true \/ (1 <= w)%nat) ->
            int_digits (digits_w w n) acc prev
            = Some (acc * Z.of_N (Spec.pow10 w) + Z.of_N (n mod Spec.pow10 w))).
  { clear w. induction w as [|w IH]; intros acc prev Hp.
    - destruct Hp as [->|Hp]; [|lia]. simpl. rewrite N.mod_1_r.
      unfold Spec.pow10. simpl. f_equal; lia.
    - rewrite digits_w_step. cbn [int_digits]. rewrite digit_val_digit_of.
      rewrite IH by (by left).
      rewrite (mod_pow10_S w n), pow10_S. f_equal.
      set (q := ((n / Spec.pow10 w) mod 10)%N). set (r := (n mod Spec.pow10 w)%N).
      set (p := Spec.pow10 w). clearbody q r p. lia. }
  intros acc. apply G. right. lia.
Qed.

Lemma int_digits_decimal (n : N) : int_digits (decimal n) 0 false = Some (Z.of_N n).
Proof.
  unfold decimal. destruct (ndigits_bounds n) as (H1 & H2 & _).
  destruct (ndigits n) as [|k]; [lia|].
  rewrite int_digits_digits_w. rewrite N.mod_small by exact H2. f_equal; lia.
Qed.

Lemma digit_token (a : ascii) : is_digit a = true -> Props.token_char a = true.
Proof.
  unfold is_digit, digit_val, Props.token_char, is_space. rewrite eqb_code.
  change (N_of_ascii ",") with 44%N.
  set (n := N_of_ascii a). clearbody n.
  destruct (N.leb_spec 48 n); [|done]. destruct (N.leb_spec n 57); [|done].
  intros _.
  repeat match goal with
         | |- context [(n =? ?k)%N] => destruct (N.eqb_spec n k); [lia|]
         | |- context [(?k <=? n)%N] => destruct (N.leb_spec k n)
         | |- context [(n <=? ?k)%N] => destruct (N.leb_spec n k)
         end; simpl; try done; lia.
Qed.

Lemma decimal_token (n : N) : Spec.all_chars Props.token_char (decimal n) = true.
Proof.
  unfold decimal.
  apply (all_chars_impl is_digit); [apply digit_token|apply digits_w_all_digits].
Qed.

Lemma Zdecimal_token (z : Z) : Spec.all_chars Props.token_char (Zdecimal z) = true.
Proof.
  unfold Zdecimal. destruct (z <? 0); [|apply decimal_token].
  simpl. apply decimal_token.
Qed.

Lemma Zdecimal_nonempty (z : Z) : is_empty (Zdecimal z) = false.
Proof.
  unfold Zdecimal. destruct (z <? 0); [done|].
  destruct (decimal_head (Z.to_N z)) as (q & tail & -> & _). done.
Qed.

Lemma rstrip_token (s : string) :
  Spec.all_chars Props.token_char s = true -> rstrip s = s.
Proof.
  induction s as [|a s IH]; [done|]. simpl.
  intros [Ha Hs]%andb_true_iff. rewrite (IH Hs).
  unfold Props.token_char in Ha. apply andb_true_iff in Ha as [_ Ha].
  apply negb_true_iff in Ha. by rewrite Ha.
Qed.

Lemma strip_token (s : string) :
  Spec.all_chars Props.token_char s = true -> strip s = s.
Proof.
  intros Hs. unfold strip.
  assert (E : lstrip s = s).
  { destruct s as [|a s]; [done|]. simpl in *.
    apply andb_true_iff in Hs as [Ha _]. unfold Props.token_char in Ha.
    apply andb_true_iff in Ha as [_ Ha]. apply negb_true_iff in Ha.
    by rewrite Ha. }
  rewrite E. by apply rstrip_token.
Qed.

Lemma count_digits_all (s : string) :
  Spec.all_chars is_digit s = true -> count_digits s = N.of_nat (String.length s).
Proof.
  induction s as [|a s IH]; [done|]. cbn [Spec.all_chars count_digits String.length].
  intros [Ha Hs]%andb_true_iff. unfold is_digit in Ha.
  destruct (digit_val a); [|done]. rewrite (IH Hs). lia.
Qed.

Lemma count_digits_decimal (n : N) :
  (n < 10 ^ max_str_digits)%N ->
  (max_str_digits <? count_digits (decimal n))%N = false.
Proof.
  intros Hn. apply N.ltb_ge. unfold decimal.
  rewrite count_digits_all by apply digits_w_all_digits.
  rewrite digits_w_length.
  pose proof (ndigits_le (N.to_nat max_str_digits) n) as H.
  unfold Spec.pow10 in H. rewrite N2Nat.id in H.
  specialize (H ltac:(vm_compute; lia) Hn). lia.
Qed.

Lemma short_int_N (z : Z) :
  Props.short_int z -> (Z.to_N (Z.abs z) < 10 ^ max_str_digits)%N.
Proof.
  unfold Props.short_int. intros Hz. apply N2Z.inj_lt.
  rewrite N2Z.inj_pow, Z2N.id by lia. exact Hz.
Qed.

(** [int(str(z)) == z] *)
Lemma py_int_Zdecimal (z : Z) : Props.short_int z -> py_int (Zdecimal z) = Some z.
Proof.
  intros Hz%short_int_N. unfold py_int.
  rewrite (strip_token _ (Zdecimal_token z)). cbv zeta.
  unfold Zdecimal. destruct (Z.ltb_spec z 0) as [Hneg|Hpos].
  - replace (Z.abs z) with (- z) in Hz by lia.
    change (count_digits (String "-" (decimal (Z.to_N (- z)))))
      with (count_digits (decimal (Z.to_N (- z)))).
    rewrite (count_digits_decimal _ Hz).
    rewrite int_digits_decimal. simpl. f_equal. lia.
  - replace (Z.abs z) with z in Hz by lia.
    rewrite (count_digits_decimal _ Hz).
    destruct (decimal_head (Z.to_N z)) as (q & tail & E & _).
    pose proof (int_digits_decimal (Z.to_N z)) as Hd. rewrite E in *.
    pose proof (digit_of_cases q) as Hq. simpl in Hq.
    assert (Hz' : Z.of_N (Z.to_N z) = z) by lia. rewrite Hz' in Hd.
    revert Hd. repeat (destruct Hq as [<-|Hq]; [intros Hd; exact Hd|]). done.
Qed.

(** What [int()] reads has no more digits than the text. *)
Lemma int_digits_bound (s : string) :
  forall (acc : Z) (prev : bool) (v : Z),
    0 <= acc ->
    int_digits s acc prev = Some v ->
    acc * 10 ^ Z.of_N (count_digits s) <= v
    < (acc + 1) * 10 ^ Z.of_N (count_digits s).
Proof.
  induction s as [|c s IH]; intros acc prev v Hacc Hv.
  - cbn [int_digits count_digits] in *. destruct prev; [|done].
    injection Hv as <-. change (10 ^ Z.of_N 0) with 1. lia.
  - cbn [int_digits count_digits] in *.
    destruct (digit_val c) as [d|] eqn:Hd.
    + assert (Hd9 : (d <= 9)%N).
      { unfold digit_val in Hd.
        destruct (N.leb_spec 48 (N_of_ascii c)); [|done].
        destruct (N.leb_spec (N_of_ascii c) 57); [|done].
        injection Hd as <-. lia. }
      apply IH in Hv; [|lia].
      rewrite N2Z.inj_succ, Z.pow_succ_r by lia.
      assert (HP : 0 < 10 ^ Z.of_N (count_digits s))
        by (apply Z.pow_pos_nonneg; lia).
      set (P := 10 ^ Z.of_N (count_digits s)) in *. clearbody P. nia.
    + destruct (Ascii.eqb c "_" && prev); [|done]. by apply IH in Hv.
Qed.

Lemma py_int_short (s : string) (z : Z) : py_int s = Some z -> Props.short_int z.
Proof.
  unfold py_int, Props.short_int. cbv zeta.
  destruct (N.ltb_spec max_str_digits (count_digits (strip s))) as [|Hc]; [done|].
  assert (Hpow : forall c : N, (c <= count_digits (strip s))%N ->
                   10 ^ Z.of_N c <= 10 ^ Z.of_N max_str_digits).
  { intros c Hle. apply Z.pow_le_mono_r; lia. }
  assert (Hplain : forall t v, (count_digits t <= count_digits (strip s))%N ->
                     int_digits t 0 false = Some v ->
                     0 <= v < 10 ^ Z.of_N max_str_digits).
  { intros t v Ht Hv. apply int_digits_bound in Hv; [|lia].
    specialize (Hpow _ Ht). lia. }
  destruct (strip s) as [|a r] eqn:E.
  - intros Hz. destruct (Hplain EmptyString z ltac:(lia) Hz). lia.
  - assert (Hsign : (Ascii.eqb a "-" = true \/ Ascii.eqb a "+" = true) ->
                    (count_digits r <= count_digits (String a r))%N).
    { intros [->%Ascii.eqb_eq| ->%Ascii.eqb_eq]; cbn [count_digits]; simpl; lia. }
    destruct a as [[] [] [] [] [] [] [] []];
      try (intros Hz; destruct (Hplain _ z (N.le_refl _) Hz); lia).
    + intros Hz. destruct (Hplain r z (Hsign (or_intror eq_refl)) Hz). lia.
    + destruct (int_digits r 0 false) as [v|] eqn:Hv; [|done].
      intros [= <-]. destruct (Hplain r v (Hsign (or_introl eq_refl)) Hv). lia.
Qed.

(** [parse_line] yields no pin and no value of more than
    [max_str_digits] digits: [str()] can write every number of a
    sample that was read from a line. *)
Lemma parse_pairs_short (parts : list string) :
  forall out m : gmap Z Z,
    parse_pairs parts out = Ok m ->
    (forall k v, out !! k = Some v -> Props.short_int k /\ Props.short_int v) ->
    forall k v, m !! k = Some v -> Props.short_int k /\ Props.short_int v.
Proof.
  induction parts as [|a|a b parts IH] using pairs_ind; intros out m Hm Hout.
  - injection Hm as <-. exact Hout.
  - cbn [parse_pairs] in Hm. by destruct (py_int a).
  - cbn [parse_pairs] in Hm.
    destruct (py_int a) as [p|] eqn:Hp; [|done].
    destruct (py_int b) as [w|] eqn:Hw; [|done].
    apply (IH _ _ Hm). intros k v [[-> ->]|[_ Hk]]%lookup_insert_Some.
    + split; [by apply (py_int_short a)|by apply (py_int_short b)].
    + by apply Hout.
Qed.

Lemma parse_line_short (line : string) (m : gmap Z Z) :
  parse_line line = Ok m ->
  forall k v, m !! k = Some v -> Props.short_int k /\ Props.short_int v.
Proof.
  unfold parse_line. destruct (negb _); [done|]. intros Hm.
  apply (parse_pairs_short _ _ _ Hm). intros k v Hk.
  by rewrite lookup_empty in Hk.
Qed.

Lemma split_from_token (s cur : string) :
  Spec.all_chars Props.token_char s = true ->
  split_from "," cur s = [cur +:+ s].
Proof.
  revert cur. induction s as [|a s IH]; intros cur Hs.
  - simpl. by rewrite append_nil_r.
  - simpl in Hs. apply andb_true_iff in Hs as [Ha Hs].
    cbn [split_from]. unfold Props.token_char in Ha.
    apply andb_true_iff in Ha as [Ha _]. apply negb_true_iff in Ha.
    rewrite Ha, (IH _ Hs), append_assoc. reflexivity.
Qed.

Lemma tokens_token (x : string) :
  Spec.all_chars Props.token_char x = true -> is_empty x = false -> tokens x = [x].
Proof.
  intros Hx Hne. unfold tokens, split. rewrite split_from_token by done.
  cbn [String.append List.filter]. rewrite (strip_token x Hx), Hne.
  cbn [negb map]. by rewrite (strip_token x Hx).
Qed.

Lemma tokens_join (l : list string) :
  Forall (fun s => Spec.all_chars Props.token_char s = true /\ is_empty s = false) l ->
  tokens (join "," l) = l.
Proof.
  induction l as [|x l IH]; intros HF; [reflexivity|].
  inversion HF as [|? ? [Hx Hne] HF']; subst.
  destruct l as [|y l].
  - cbn [join]. by apply tokens_token.
  - change (join "," (x :: y :: l)) with (x +:+ "," +:+ join "," (y :: l)).
    change ("," +:+ join "," (y :: l)) with (String "," (join "," (y :: l))).
    rewrite tokens_app, (IH HF'), tokens_token by done. reflexivity.
Qed.

Lemma line_tokens (ps : list (Z * Z)) :
  tokens (Props.line_of ps)
  = flat_map (fun pv => [Zdecimal pv.1; Zdecimal pv.2]) ps.
Proof.
  apply tokens_join. induction ps as [|[p v] ps IH]; simpl; [constructor|].
  repeat constructor; auto using Zdecimal_token, Zdecimal_nonempty.
Qed.

(** X2. The line made of the decimal forms of a list of (pin, value)
    readings, separated by commas, decodes to the mapping built from
    the readings in order, when every number has at most 4300 digits:
    [str()] writes no longer one and [int()] reads no longer one. *)
Theorem parse_line_of_readings (ps : list (Z * Z)) :
  Forall (fun pv => Props.short_int pv.1 /\ Props.short_int pv.2) ps ->
  parse_line (Props.line_of ps) = Ok (foldl Spec.put ∅ ps).
Proof.
  intros Hshort. unfold parse_line. rewrite line_tokens.
  assert (Hlen : (length (flat_map (fun pv : Z * Z => [Zdecimal pv.1; Zdecimal pv.2]) ps)
                  mod 2 = 0)%nat).
  { clear. induction ps as [|pv ps IH]; [reflexivity|].
    cbn [flat_map app length]. by rewrite mod2_SS. }
  rewrite Hlen. simpl.
  assert (Hzs : Spec.pair_up (flat_map (fun pv : Z * Z => [pv.1; pv.2]) ps) = ps).
  { clear. induction ps as [|[p v] ps IH]; [done|].
    cbn [flat_map app Spec.pair_up fst snd]. by rewrite IH. }
  rewrite <- Hzs at 2. apply parse_pairs_ok; [|exact Hlen].
  clear Hlen Hzs. induction Hshort as [|[p v] ps [Hp Hv] _ IH]; simpl; [constructor|].
  repeat constructor; auto using py_int_Zdecimal.
Qed.

Lemma parse_line_of_readings_witness :
  parse_line (Props.line_of [(4, 1); (5, 0); (-7, 12); (4, 0)])
  = Ok (foldl Spec.put ∅ [(4, 1); (5, 0); (-7, 12); (4, 0)]).
Proof.
  apply (parse_line_of_readings [(4, 1); (5, 0); (-7, 12); (4, 0)]).
  repeat (constructor; [split; vm_compute; reflexivity|]). constructor.
Defined.

End LineRoundTrip.

(** ** Runs of the worker *)

Section RunSummary.
Variable decode : list Byte.byte -> string.
Variable c : Service.PinLoggingServiceConfig.

Lemma readline_pending (p p' : SampleSource.Port) (ev : SampleSource.rx_event) :
  SampleSource.readline p = (ev, p') ->
  SampleSource.os_open p' = SampleSource.os_open p
  /\ SampleSource.open_error p' = SampleSource.open_error p
  /\ Props.pending p' = skipn 1 (Props.pending p)
  /\ (Props.pending p = ev :: Props.pending p'
      \/ (Props.pending p = [] /\ ev = SampleSource.RxBytes [])).
Proof.
  unfold SampleSource.readline, Props.pending.
  destruct (SampleSource.buffered p) as [|b bs] eqn:Eb.
  - destruct (SampleSource.incoming p) as [|i rest] eqn:Ei.
    + intros [= <- <-]. rewrite Eb, Ei. simpl. split_and!; auto.
    + intros [= <- <-]. simpl. split_and!; auto.
  - intros [= <- <-]. simpl. split_and!; auto.
Qed.

Lemma read_states_port (mon : SampleSource.ArduinoPinMonitor)
  (p p' : SampleSource.Port) (r : res exn (option PinStates)) :
  SampleSource.ser_is_open mon = true ->
  SampleSource.read_states decode mon p = (r, p') ->
  SampleSource.os_open p' = SampleSource.os_open p
  /\ Props.pending p' = skipn 1 (Props.pending p)
  /\ match r with
     | Raise e => exists msg, e = SerialException msg
                              /\ head (Props.pending p) = Some (SampleSource.RxFail msg)
     | Ok _ => forall msg, head (Props.pending p) <> Some (SampleSource.RxFail msg)
     end.
Proof.
  intros Hopen. unfold SampleSource.read_states. rewrite Hopen. simpl.
  destruct (SampleSource.readline p) as [ev p1] eqn:E.
  apply readline_pending in E as (Ho & _ & Hd & Hp).
  assert (Hev : forall raw, ev = SampleSource.RxBytes raw ->
                forall msg, head (Props.pending p) <> Some (SampleSource.RxFail msg)).
  { intros raw -> msg. destruct Hp as [->|[-> _]]; simpl; congruence. }
  destruct ev as [raw|msg].
  - destruct (length raw =? 0)%nat; [intros [= <- <-]; eauto|].
    destruct (is_empty _); [intros [= <- <-]; eauto|].
    destruct (parse_line _); intros [= <- <-]; eauto.
  - intros [= <- <-]. split_and!; [done..|]. exists msg. split; [done|].
    destruct Hp as [->|[_ ?]]; [done|congruence].
Qed.


Lemma write_count_app (a b : list AppendLog.io_event) :
  Props.write_count (a ++ b) = (Props.write_count a + Props.write_count b)%nat.
Proof. unfold Props.write_count. by rewrite List.filter_app, length_app. Qed.

Lemma write_count_write (text : string) (rest : list AppendLog.io_event) :
  Props.write_count (AppendLog.IoWrite text :: rest) = S (Props.write_count rest).
Proof. reflexivity. Qed.

(** What [write_sample] does to the file, whatever it returns. *)
Lemma write_sample_effect (lg lg' : AppendLog.PinSampleJSONLogger)
  (states : PinStates) (ts : option string) (now : Datetime.datetime)
  (d d' : AppendLog.Disk) (r : res exn unit) :
  AppendLog.write_sample lg states ts now d = (r, lg', d') ->
  AppendLog.cfg lg' = AppendLog.cfg lg
  /\ AppendLog._fh lg' = AppendLog._fh lg
  /\ AppendLog.initial d' = AppendLog.initial d
  /\ (AppendLog.faults d = [] -> AppendLog.faults d' = [])
  /\ match r with
     | Ok _ => Props.write_count (AppendLog.events d')
               = S (Props.write_count (AppendLog.events d))
     | Raise _ =>
         (Props.write_count (AppendLog.events d)
          <= Props.write_count (AppendLog.events d')
          <= S (Props.write_count (AppendLog.events d)))%nat
         /\ (AppendLog._fh lg = None \/ AppendLog.faults d <> [])
     end.
Proof.
  intros H. apply write_sample_cases in H as (Hc & Hf & Hi & Hfa & H).
  split_and!; try done.
  destruct H as [(e & -> & He & _ & Hw)|[(-> & He & _)|[(-> & He & _)|(e & -> & He & _ & _ & Hw)]]];
    rewrite He, ?write_count_app, ?write_count_write;
    change (Props.write_count []) with 0%nat;
    change (Props.write_count [AppendLog.IoFlush]) with 0%nat; try lia.
  - split; [lia|done].
  - split; [lia|by right].
Qed.

Lemma bytes_step (polls : nat) (l : list SampleSource.rx_event) :
  forallb Props.is_bytes (take (S polls) l) = true ->
  forallb Props.is_bytes (take polls (skipn 1 l)) = true
  /\ forall msg, head l <> Some (SampleSource.RxFail msg).
Proof.
  destruct l as [|[raw|m] l]; simpl.
  - by rewrite take_nil.
  - rewrite drop_0. intros ->. split; [done|]. congruence.
  - discriminate.
Qed.

Lemma bytes_head (polls : nat) (l : list SampleSource.rx_event) (msg : string) :
  head l = Some (SampleSource.RxFail msg) ->
  forallb Props.is_bytes (take (S polls) l) = true -> False.
Proof. destruct l as [|[raw|m] l]; simpl; congruence. Qed.

Lemma bytes_cons (n : nat) (l : list SampleSource.rx_event) :
  (forall msg, head l <> Some (SampleSource.RxFail msg)) ->
  forallb Props.is_bytes (take n (skipn 1 l)) = true ->
  forallb Props.is_bytes (take (S n) l) = true.
Proof.
  destruct l as [|[raw|m] l]; simpl; [done| |].
  - by rewrite drop_0.
  - intros H. by destruct (H m).
Qed.

(** After the first read of an iteration. *)
Lemma bytes_cons_eq (n k : nat) (l : list SampleSource.rx_event) :
  k = S n ->
  (forall msg, head l <> Some (SampleSource.RxFail msg)) ->
  forallb Props.is_bytes (take n (skipn 1 l)) = true ->
  forallb Props.is_bytes (take k l) = true.
Proof. intros ->. apply bytes_cons. Qed.

Ltac after_read Hpend Hhead Hok Hraise n :=
  rewrite Hpend in *;
  split_and!; try done; try lia; try congruence;
  [ intros Hr; destruct (Hok Hr) as (H1 & H2 & H3);
    split; [lia|]; split; [by rewrite H2, drop_drop|by apply bytes_cons]
  | let e := fresh "e" in
    let msg := fresh "msg" in
    intros e Hr; destruct (Hraise e Hr) as (msg & -> & H1 & H2 & H3);
    exists msg; split; [done|];
    rewrite lookup_drop in H1; rewrite drop_drop in H2;
    split; [rewrite <- H1; f_equal; lia|];
    split; [rewrite H2; f_equal; lia|];
    by apply (bytes_cons_eq n); [lia|..]
  | let Hby := fresh "Hby" in
    intros Hby; apply bytes_step in Hby as [Hby _]; auto
  | .. ].

Lemma acquire_summary (polls : nat) :
  forall (lg lg' : AppendLog.PinSampleJSONLogger)
         (mon : SampleSource.ArduinoPinMonitor) (r r' : Service.Run)
         (res : res exn unit),
    SampleSource.ser_is_open mon = true ->
    Service.acquire decode c polls lg mon r = (res, lg', r') ->
    exists nb nw nf : nat,
      Service._bad_reads (Service.status r')
      = Service._bad_reads (Service.status r) + Z.of_nat nb
      /\ Service._samples_written (Service.status r')
         = Service._samples_written (Service.status r) + Z.of_nat nw
      /\ (nb + nw + nf <= polls)%nat
      /\ (res = Ok tt ->
          (nb + nw + nf = polls)%nat
          /\ Props.pending (Service.serial (Service.world r'))
             = skipn polls (Props.pending (Service.serial (Service.world r)))
          /\ forallb Props.is_bytes
               (take polls (Props.pending (Service.serial (Service.world r)))) = true)
      /\ (forall e, res = Raise e ->
            exists msg, e = SerialException msg
              /\ Props.pending (Service.serial (Service.world r))
                  !! (nb + nw + nf)%nat = Some (SampleSource.RxFail msg)
              /\ Props.pending (Service.serial (Service.world r'))
                 = skipn (S (nb + nw + nf))
                     (Props.pending (Service.serial (Service.world r)))
              /\ forallb Props.is_bytes
                   (take (nb + nw + nf)
                      (Props.pending (Service.serial (Service.world r)))) = true)
      /\ (forallb Props.is_bytes
            (take polls (Props.pending (Service.serial (Service.world r)))) = true ->
          res = Ok tt)
      /\ (nf = 0%nat ->
          Service._last_error (Service.status r') = Service._last_error (Service.status r))
      /\ (nf <> 0%nat ->
          exists e, Service._last_error (Service.status r')
                    = Some ("JSON write error: " +:+ exn_str e))
      /\ (Props.write_count (AppendLog.events (Service.disk (Service.world r))) + nw
          <= Props.write_count (AppendLog.events (Service.disk (Service.world r')))
          <= Props.write_count (AppendLog.events (Service.disk (Service.world r))) + nw + nf)%nat
      /\ (AppendLog.faults (Service.disk (Service.world r)) = [] ->
          is_Some (AppendLog._fh lg) ->
          nf = 0%nat /\ AppendLog.faults (Service.disk (Service.world r')) = [])
      /\ AppendLog.initial (Service.disk (Service.world r'))
         = AppendLog.initial (Service.disk (Service.world r))
      /\ SampleSource.os_open (Service.serial (Service.world r'))
         = SampleSource.os_open (Service.serial (Service.world r))
      /\ AppendLog._fh lg' = AppendLog._fh lg
      /\ AppendLog.cfg lg' = AppendLog.cfg lg
      /\ Service._running (Service.status r') = Service._running (Service.status r)
      /\ Service._started_at (Service.status r') = Service._started_at (Service.status r).
Proof.
  induction polls as [|polls IH]; intros lg lg' mon r r' res Hopen.
  - simpl. intros [= <- <- <-]. exists 0%nat, 0%nat, 0%nat.
    split_and!; try done; try lia.
  - cbn [Service.acquire].
    destruct (SampleSource.read_states decode mon (Service.serial (Service.world r)))
      as [rs p] eqn:Er.
    apply (read_states_port _ _ _ _ Hopen) in Er as (Hos & Hpend & Hhead).
    destruct rs as [[states|]|e].
    + (* a sample *)
      unfold Service.read_time, Service.read_utc.
      cbn [Service.world Service.tick Service.with_lock Service.set_world
             Service.disk Service.status Service.set_disk Service.set_serial
             Service.serial Service.utc_now Service.time_time Service.readings].
      match goal with
      | |- context [AppendLog.write_sample ?l ?st ?ts ?now ?d] =>
          destruct (AppendLog.write_sample l st ts now d) as [[rw lg1] d1] eqn:Ew
      end.
      apply write_sample_effect in Ew as (Hcfg & Hfh & Hini & Hfa & Hw).
      destruct rw as [u|e]; intros Hacq;
        apply (IH _ _ _ _ _ _ Hopen) in Hacq
          as (nb & nw & nf & Hb & Hn & Hle & Hok & Hraise & Hbytes & Herr0 & Herr1
              & Hwc & Hclean & Hinit & Hopen' & Hfh' & Hcfg' & Hrun & Hst);
        unfold Service.report, Service.echo in *;
        destruct (Service.print_errors c);
        cbn [Service.world Service.tick Service.with_lock Service.set_world
               Service.disk Service.status Service.set_disk Service.set_serial
               Service.serial Service.count_written Service.set_last
               Service.set_error Service._bad_reads Service._samples_written
               Service._last_error Service._running Service._started_at] in *.
      * exists nb, (S nw), nf. after_read Hpend Hhead Hok Hraise (nb + nw + nf)%nat.
        intros Hf Hs. apply Hclean; [auto|by rewrite Hfh].
      * exists nb, (S nw), nf. after_read Hpend Hhead Hok Hraise (nb + nw + nf)%nat.
        intros Hf Hs. apply Hclean; [auto|by rewrite Hfh].
      * destruct Hw as [Hw Hwhy]. exists nb, nw, (S nf).
        after_read Hpend Hhead Hok Hraise (nb + nw + nf)%nat.
        -- intros _. destruct (Nat.eq_dec nf 0%nat) as [Hz|Hz]; [|auto].
           rewrite (Herr0 Hz). by eexists.
        -- intros Hf [fh Hs]. exfalso. destruct Hwhy; congruence.
      * destruct Hw as [Hw Hwhy]. exists nb, nw, (S nf).
        after_read Hpend Hhead Hok Hraise (nb + nw + nf)%nat.
        -- intros _. destruct (Nat.eq_dec nf 0%nat) as [Hz|Hz]; [|auto].
           rewrite (Herr0 Hz). by eexists.
        -- intros Hf [fh Hs]. exfalso. destruct Hwhy; congruence.
    + (* nothing decoded *)
      intros Hacq.
      apply (IH _ _ _ _ _ _ Hopen) in Hacq
        as (nb & nw & nf & Hb & Hn & Hle & Hok & Hraise & Hbytes & Herr0 & Herr1
            & Hwc & Hclean & Hinit & Hopen' & Hfh' & Hcfg' & Hrun & Hst).
      cbn [Service.world Service.tick Service.with_lock Service.set_world
             Service.disk Service.status Service.set_disk Service.set_serial
             Service.serial Service.count_bad_read Service._bad_reads
             Service._samples_written Service._last_error Service._running
             Service._started_at] in *.
      exists (S nb), nw, nf. after_read Hpend Hhead Hok Hraise (nb + nw + nf)%nat.
    + (* the line fails *)
      intros [= <- <- <-]. destruct Hhead as (msg & -> & Hhead).
      cbn [Service.world Service.set_world Service.disk Service.status
             Service.set_serial Service.serial].
      exists 0%nat, 0%nat, 0%nat. split_and!; try done; try lia.
      * intros e [= <-]. exists msg. split; [done|]. split.
        -- by rewrite <- head_lookup.
        -- done.
      * intros Hby. exfalso. by eapply bytes_head.
Qed.


Lemma monitor_open_new (name : string) (baud : Z) (p : SampleSource.Port) :
  match SampleSource.open (SampleSource.new name baud) p with
  | (Raise e, mon, p') =>
      (exists msg, SampleSource.open_error p = Some msg /\ e = SerialException msg)
      /\ SampleSource._ser mon = None /\ p' = p
  | (Ok _, mon, p') =>
      SampleSource.open_error p = None
      /\ SampleSource.ser_is_open mon = true
      /\ SampleSource.os_open p' = true
      /\ Props.pending p'
         = (if SampleSource.reset_fails p then Props.pending p
            else SampleSource.incoming p)
      /\ (forall q, SampleSource.close mon q
                     = (SampleSource.set_ser None mon,
                        SampleSource.set_os_open false q))
  end.
Proof.
  unfold SampleSource.open. simpl.
  destruct (SampleSource.open_error p) as [msg|] eqn:E; [by eauto|].
  simpl. destruct (SampleSource.reset_fails p) eqn:Er; simpl; rewrite ?Er; done.
Qed.


Lemma logger_open_new (cfg : AppendLog.JSONLogConfig) (d : AppendLog.Disk) :
  match AppendLog.open (AppendLog.new cfg) d with
  | (r, lg, d') =>
      AppendLog.initial d' = AppendLog.initial d
      /\ Props.write_count (AppendLog.events d')
         = Props.write_count (AppendLog.events d)
      /\ AppendLog.cfg lg = cfg
      /\ match r with
         | Ok _ => is_Some (AppendLog._fh lg)
         | Raise _ => AppendLog._fh lg = None /\ AppendLog.faults d <> []
         end
      /\ (AppendLog.faults d = [] -> AppendLog.faults d' = [])
  end.
Proof.
  unfold AppendLog.open. cbn [AppendLog.new AppendLog._fh].
  destruct (AppendLog.io_call AppendLog.IoMakedirs d) as [r1 d1] eqn:E1.
  apply io_call_inv in E1 as [Hi [(-> & He & Hf)|(e & -> & He & Hf)]].
  2:{ rewrite He. split_and!; auto; try done. }
  destruct (AppendLog.io_call AppendLog.IoOpen d1) as [r2 d2] eqn:E2.
  apply io_call_inv in E2 as [Hi2 [(-> & He2 & Hf2)|(e & -> & He2 & Hf2)]].
  - rewrite He2, He, !write_count_app. cbn [AppendLog.set_fh AppendLog._fh AppendLog.cfg].
    change (Props.write_count [AppendLog.IoMakedirs]) with 0%nat.
    change (Props.write_count [AppendLog.IoOpen]) with 0%nat.
    split_and!; eauto; try congruence; lia.
  - rewrite He2, He, !write_count_app.
    change (Props.write_count [AppendLog.IoMakedirs]) with 0%nat.
    split_and!; eauto; try congruence; try lia.
    intros Hd. exfalso. auto.
Qed.

Lemma logger_close_effect (lg : AppendLog.PinSampleJSONLogger) (d : AppendLog.Disk) :
  match AppendLog.close lg d with
  | (r, lg', d') =>
      AppendLog._fh lg' = None
      /\ AppendLog.initial d' = AppendLog.initial d
      /\ Props.write_count (AppendLog.events d')
         = Props.write_count (AppendLog.events d)
      /\ (AppendLog.faults d = [] -> is_Some (AppendLog._fh lg) ->
          AppendLog.events d'
          = AppendLog.events d ++ [AppendLog.IoFlush; AppendLog.IoClose])
  end.
Proof.
  unfold AppendLog.close. destruct (AppendLog._fh lg) as [fh|] eqn:Hfh.
  2:{ split_and!; try done. }
  destruct (AppendLog.io_call AppendLog.IoFlush d) as [r1 d1] eqn:E1.
  apply io_call_inv in E1 as [Hi [(-> & He & Hf)|(e & -> & He & Hf)]].
  2:{ rewrite He. split_and!; auto; try done. }
  destruct (AppendLog.io_call AppendLog.IoClose d1) as [r2 d2] eqn:E2.
  apply io_call_inv in E2 as [Hi2 [(-> & He2 & Hf2)|(e & -> & He2 & Hf2)]];
    rewrite He2, He, ?write_count_app;
    change (Props.write_count [AppendLog.IoFlush]) with 0%nat;
    change (Props.write_count [AppendLog.IoClose]) with 0%nat;
    split_and!; try done; try congruence; try lia.
  - intros _ _. by rewrite <- (assoc_L (++)).
  - intros Hd _. exfalso. auto.
Qed.


(** The three ways a run of the worker goes: the log cannot be opened,
    the serial port cannot be opened, or the loop runs. *)
Lemma run_summary (r : Service.Run) :
  match Service._run decode c r with
  | (run, logger, mon) =>
      let s := Service.status r in
      let s' := Service.status run in
      let d := Service.disk (Service.world r) in
      let d' := Service.disk (Service.world run) in
      let p := Service.serial (Service.world r) in
      let p' := Service.serial (Service.world run) in
      let stream := if SampleSource.reset_fails p then Props.pending p
                    else SampleSource.incoming p in
      let polls := Service.stop_after (Service.world r) in
      Service._running s' = false
      /\ AppendLog._fh logger = None
      /\ SampleSource._ser mon = None
      /\ last (Service.published run) = Some s'
      /\ AppendLog.initial d' = AppendLog.initial d
      /\ ((exists e,
             ((AppendLog.open
                 (AppendLog.new {| AppendLog.path := Service.json_path c;
                                   AppendLog.flush_every := Service.flush_every c |})
                 d).1.1 = Raise e
              \/ (exists msg, SampleSource.open_error p = Some msg
                              /\ e = SerialException msg))
             /\ Service._last_error s' = Some ("fatal: " +:+ exn_str e)
             /\ Service._bad_reads s' = Service._bad_reads s
             /\ Service._samples_written s' = Service._samples_written s
             /\ p' = p
             /\ Props.write_count (AppendLog.events d')
                = Props.write_count (AppendLog.events d))
          \/ (exists (nb nw nf : nat) (res : res exn unit),
                SampleSource.open_error p = None
                /\ Service._bad_reads s' = Service._bad_reads s + Z.of_nat nb
                /\ Service._samples_written s'
                   = Service._samples_written s + Z.of_nat nw
                /\ (nb + nw + nf <= polls)%nat
                /\ SampleSource.os_open p' = false
                /\ (res = Ok tt ->
                    (nb + nw + nf = polls)%nat
                    /\ Props.pending p' = skipn polls stream
                    /\ forallb Props.is_bytes (take polls stream) = true
                    /\ (nf = 0%nat -> Service._last_error s' = None)
                    /\ (nf <> 0%nat ->
                        exists e, Service._last_error s'
                                  = Some ("JSON write error: " +:+ exn_str e)))
                /\ (forall e, res = Raise e ->
                      exists msg,
                        stream !! (nb + nw + nf)%nat = Some (SampleSource.RxFail msg)
                        /\ Props.pending p' = skipn (S (nb + nw + nf)) stream
                        /\ forallb Props.is_bytes (take (nb + nw + nf) stream) = true
                        /\ Service._last_error s' = Some ("fatal: " +:+ msg))
                /\ (forallb Props.is_bytes (take polls stream) = true -> res = Ok tt)
                /\ (Props.write_count (AppendLog.events d) + nw
                    <= Props.write_count (AppendLog.events d')
                    <= Props.write_count (AppendLog.events d) + nw + nf)%nat
                /\ (AppendLog.faults d = [] ->
                    nf = 0%nat
                    /\ last (AppendLog.events d') = Some AppendLog.IoClose)))
  end.
Proof.
  unfold Service._run, Service.run_body, Service.read_time.
  cbn [Service.world Service.tick Service.with_lock Service.set_world Service.disk
         Service.status Service.set_disk Service.serial Service.stop_after].
  pose proof (logger_open_new
                {| AppendLog.path := Service.json_path c;
                   AppendLog.flush_every := Service.flush_every c |}
                (Service.disk (Service.world r))) as Ho.
  destruct (AppendLog.open _ (Service.disk (Service.world r))) as [[[u|e] lg] d1].
  - destruct Ho as (Hi1 & Hw1 & _ & Hfh1 & Hf1).
    cbn [fst].
    cbn [Service.world Service.tick Service.with_lock Service.set_world Service.disk
           Service.status Service.set_disk Service.serial Service.stop_after].
    pose proof (monitor_open_new (Service.port c) (Service.baud c)
                  (Service.serial (Service.world r))) as Hm.
    destruct (SampleSource.open _ _) as [[[u'|e] mon1] p1].
    + destruct Hm as (Herr & Hopen & Hos & Hpend & Hclose).
      match goal with
      | |- context [Service.acquire decode c ?n ?l ?m ?r0] =>
          destruct (Service.acquire decode c n l m r0) as [[res lg2] r2] eqn:Ea
      end.
      apply (acquire_summary _ _ _ _ _ _ _ Hopen) in Ea
        as (nb & nw & nf & Hb & Hn & Hle & Hok & Hraise & Hbytes & Herr0 & Herr1
            & Hwc & Hclean & Hinit & Hopen' & Hfh' & Hcfg' & Hrun & Hst).
      cbn [Service.world Service.set_serial Service.set_world Service.serial
             Service.status Service.mark_started Service._bad_reads
             Service._samples_written Service.disk Service._last_error
             Service.set_disk Service.with_lock Service.tick
             Service.stop_after] in *.
      rewrite Hclose.
      cbn [Service.world Service.set_serial Service.set_world Service.serial
             Service.status Service.disk].
      set (r2' := Service.set_serial _ r2).
      set (r3 := match res with Ok _ => r2' | Raise e => Service.report c "fatal: " e r2' end).
      assert (H3 : Service.status r3
                   = match res with
                     | Ok _ => Service.status r2
                     | Raise e => Service.set_error ("fatal: " +:+ exn_str e)
                                    (Service.status r2)
                     end
                   /\ Service.disk (Service.world r3) = Service.disk (Service.world r2)
                   /\ Service.serial (Service.world r3)
                      = SampleSource.set_os_open false (Service.serial (Service.world r2))).
      { unfold r3. destruct res as [u1|e1]; [done|].
        destruct (report_status c "fatal: " e1 r2') as (-> & -> & ->). done. }
      clearbody r3. destruct H3 as (Hs3 & Hd3 & Hp3).
      pose proof (logger_close_effect lg2 (Service.disk (Service.world r3))) as Hc.
      destruct (AppendLog.close lg2 _) as [[rc lg3] d3].
      destruct Hc as (Hfh3 & Hi3 & Hw3 & He3).
      cbn [Service.world Service.with_lock Service.set_world Service.disk
             Service.status Service.set_disk Service.serial Service.published
             Service.set_running Service._running Service._bad_reads
             Service._samples_written Service._last_error SampleSource.set_ser
             SampleSource._ser].
      rewrite Hs3, Hp3, Hd3 in *.
      split_and!; try done.
      { apply last_snoc. }
      { congruence. }
      right. exists nb, nw, nf, res.
      assert (Hpf : Props.pending (SampleSource.set_os_open false
                                     (Service.serial (Service.world r2)))
                    = Props.pending (Service.serial (Service.world r2))) by done.
      rewrite Hpf, <- Hpend.
      split_and!; try done.
      * by destruct res.
      * by destruct res.
      * intros ->. destruct (Hok eq_refl) as (H1 & H2 & H4).
        split_and!; try done.
      * intros e ->. destruct (Hraise e eq_refl) as (msg & -> & H1 & H2 & H4).
        exists msg. split_and!; done.
      * lia.
      * lia.
      * intros Hf. destruct (Hclean (Hf1 Hf) Hfh1) as [Hz Hf2].
        split; [done|]. rewrite He3; [|done|by rewrite Hfh'].
        by rewrite last_app.
    + destruct Hm as ((msg & Hmsg & ->) & Hser & ->).
      match goal with
      | |- context [Service.report c ?p ?e ?r] =>
          destruct (report_status c p e r) as (Hs & Hd & Hp);
          set (r3 := Service.report c p e r) in *
      end.
      clearbody r3.
      pose proof (logger_close_effect lg (Service.disk (Service.world r3))) as Hc.
      destruct (AppendLog.close lg _) as [[rc lg3] d3].
      destruct Hc as (Hfh3 & Hi3 & Hw3 & He3).
      cbn [Service.world Service.with_lock Service.set_world Service.disk
             Service.status Service.set_disk Service.serial Service.published
             Service.set_running Service._running Service._bad_reads
             Service._samples_written Service._last_error Service.set_serial] in *.
      rewrite Hs, Hp, Hd in *.
      split_and!; try done.
      { apply last_snoc. }
      { congruence. }
      left. exists (SerialException msg). split_and!; try done; eauto.
      congruence.
  - destruct Ho as (Hi1 & Hw1 & _ & [Hfh1 Hne] & Hf1).
    cbn [fst].
    match goal with
    | |- context [Service.report c ?p ?e ?r] =>
        destruct (report_status c p e r) as (Hs & Hd & Hp);
        set (r3 := Service.report c p e r) in *
    end.
    clearbody r3.
    pose proof (logger_close_effect lg (Service.disk (Service.world r3))) as Hc.
    destruct (AppendLog.close lg _) as [[rc lg3] d3].
    destruct Hc as (Hfh3 & Hi3 & Hw3 & He3).
    cbn [Service.world Service.with_lock Service.set_world Service.disk
           Service.status Service.set_disk Service.serial Service.published
           Service.set_running Service._running Service._bad_reads
           Service._samples_written Service._last_error Service.set_serial
           SampleSource.new SampleSource._ser] in *.
    rewrite Hs, Hp, Hd in *.
    split_and!; try done.
    { apply last_snoc. }
    { congruence. }
    left. exists e. split_and!; try done; eauto.
    congruence.
Qed.

End RunSummary.


Lemma forallb_take_lookup {A : Type} (f : A -> bool) (l : list A) (n i : nat) (x : A) :
  forallb f (take n l) = true -> (i < n)%nat -> l !! i = Some x -> f x = true.
Proof.
  revert n i. induction l as [|a l IH]; intros n i Hall Hi Hx; [done|].
  destruct n as [|n]; [lia|]. simpl in Hall.
  apply andb_true_iff in Hall as [Ha Hl].
  destruct i as [|i]; simpl in Hx.
  - by injection Hx as <-.
  - apply (IH n i); [done|lia|done].
Qed.

Lemma forallb_all_take {A : Type} (f : A -> bool) (l : list A) (n : nat) :
  forallb f l = true -> forallb f (take n l) = true.
Proof.
  revert n. induction l as [|a l IH]; intros n H; [by rewrite take_nil|].
  simpl in H. apply andb_true_iff in H as [Ha Hl].
  destruct n; simpl; [done|]. by rewrite Ha, IH.
Qed.

Lemma forallb_app_r {A : Type} (f : A -> bool) (a b : list A) :
  forallb f (a ++ b) = true -> forallb f b = true.
Proof. rewrite forallb_app. by intros [_ ?]%andb_true_iff. Qed.

(** X3. Whatever the file system and the serial line do, a run of the
    worker ends with the running flag cleared, the logger and the
    monitor closed and the serial port released; the status published
    last is the final one and the two counters have not decreased. *)
Theorem run_releases_everything (decode : list Byte.byte -> string)
  (c : Service.PinLoggingServiceConfig) (r : Service.Run) :
  match Service._run decode c r with
  | (run, logger, mon) =>
      Service._running (Service.status run) = false
      /\ AppendLog._fh logger = None
      /\ SampleSource._ser mon = None
      /\ (SampleSource.os_open (Service.serial (Service.world r)) = false ->
          SampleSource.os_open (Service.serial (Service.world run)) = false)
      /\ last (Service.published run) = Some (Service.status run)
      /\ Service._samples_written (Service.status r)
         <= Service._samples_written (Service.status run)
      /\ Service._bad_reads (Service.status r)
         <= Service._bad_reads (Service.status run)
  end.
Proof.
  pose proof (run_summary decode c r) as H.
  destruct (Service._run decode c r) as [[run logger] mon].
  destruct H as (Hrun & Hfh & Hser & Hlast & _ & H).
  split_and!; try done.
  - destruct H as [(e & _ & _ & _ & _ & -> & _)|(nb & nw & nf & res & _ & _ & _ & _ & H & _)];
      [done|by rewrite H].
  - destruct H as [(e & _ & _ & _ & -> & _)|(nb & nw & nf & res & _ & _ & -> & _)]; lia.
  - destruct H as [(e & _ & _ & -> & _)|(nb & nw & nf & res & _ & -> & _)]; lia.
Qed.

Lemma run_releases_everything_witness :
  match Service._run Spec.decode_ascii Spec.scenario_config
          {| Service.status := Service.initial_status;
             Service.world := Spec.scenario_world ["4,1"; "oops"] 3;
             Service.published := [] |} with
  | (run, logger, mon) =>
      SampleSource.os_open (Service.serial (Service.world run)) = false
      /\ Service._samples_written (Service.status run) = 1
  end.
Proof.
  pose proof (run_releases_everything Spec.decode_ascii Spec.scenario_config
                {| Service.status := Service.initial_status;
                   Service.world := Spec.scenario_world ["4,1"; "oops"] 3;
                   Service.published := [] |}) as H.
  destruct (Service._run _ _ _) as [[run logger] mon] eqn:E.
  destruct H as (_ & _ & _ & H & _). split; [by apply H|].
  vm_compute in E. by injection E as <- _ _.
Defined.

(** X4. When the log and the serial port can be opened and the serial
    line never fails, every iteration of the loop is a bad read, a
    sample written, or a failed write: the two counters grow by at most
    the number of iterations, the last error is empty at the end exactly
    when they grew by that number, and every sample counted has its
    record in the file. With a file system that never fails, no error is
    left and the file has exactly one new record for each sample
    counted. *)
Theorem run_accounts_for_every_poll (decode : list Byte.byte -> string)
  (c : Service.PinLoggingServiceConfig) (r : Service.Run) :
  (AppendLog.open
     (AppendLog.new {| AppendLog.path := Service.json_path c;
                       AppendLog.flush_every := Service.flush_every c |})
     (Service.disk (Service.world r))).1.1 = Ok tt ->
  SampleSource.open_error (Service.serial (Service.world r)) = None ->
  forallb Props.is_bytes (Props.pending (Service.serial (Service.world r))) = true ->
  let run := (Service._run decode c r).1.1 in
  let polls := Z.of_nat (Service.stop_after (Service.world r)) in
  let bad := Service._bad_reads (Service.status run)
             - Service._bad_reads (Service.status r) in
  let written := Service._samples_written (Service.status run)
                 - Service._samples_written (Service.status r) in
  let records :=
    Z.of_nat (Props.write_count (AppendLog.events (Service.disk (Service.world run))))
    - Z.of_nat (Props.write_count (AppendLog.events (Service.disk (Service.world r)))) in
  0 <= bad /\ 0 <= written /\ bad + written <= polls
  /\ (Service._last_error (Service.status run) = None <-> bad + written = polls)
  /\ written <= records <= polls - bad
  /\ (AppendLog.faults (Service.disk (Service.world r)) = [] ->
      Service._last_error (Service.status run) = None /\ records = written).
Proof.
  intros Hlog Hser Hline.
  pose proof (run_summary decode c r) as H.
  destruct (Service._run decode c r) as [[run logger] mon]. cbn [fst].
  destruct H as (_ & _ & _ & _ & _ & H).
  destruct H as [(e & [He|(msg & He & _)] & _)|H]; [congruence..|].
  destruct H as (nb & nw & nf & res & _ & Hb & Hw & Hle & _ & Hok & _ & Hbytes & Hwc & Hclean).
  assert (Hres : res = Ok tt).
  { apply Hbytes. apply forallb_all_take.
    destruct (SampleSource.reset_fails _); [done|].
    by apply forallb_app_r in Hline. }
  destruct (Hok Hres) as (Hn & _ & _ & Hz & Hnz).
  rewrite Hb, Hw. split_and!; try lia.
  - split.
    + intros Hnone. destruct (Nat.eq_dec nf 0%nat) as [->|Hne]; [lia|].
      destruct (Hnz Hne) as [e He]. congruence.
    + intros Hsum. apply Hz. lia.
  - intros Hf. destruct (Hclean Hf) as [-> _]. split; [by apply Hz|lia].
Qed.

Lemma run_accounts_for_every_poll_witness :
  let run := Spec.scenario_run ["4,1,5,0"; ""; "7,oops"; "4,0"] 5 in
  Service._last_error (Service.status run) = None
  /\ Service._samples_written (Service.status run) = 2
  /\ Service._bad_reads (Service.status run) = 3.
Proof.
  pose proof (run_accounts_for_every_poll Spec.decode_ascii Spec.scenario_config
                {| Service.status := Service.initial_status;
                   Service.world :=
                     Spec.scenario_world ["4,1,5,0"; ""; "7,oops"; "4,0"] 5;
                   Service.published := [] |} eq_refl eq_refl eq_refl) as H.
  destruct H as (_ & _ & _ & _ & _ & H). destruct (H eq_refl) as [Hnone _].
  split; [exact Hnone|]. split; vm_compute; reflexivity.
Defined.

(** X5. When the serial line fails at a read, after some lines that were
    read without failure and before the stop request, the run ends there:
    the last error is the line's failure marked as fatal, the lines after
    it are left unread, the counters account for the lines before it, the
    records written for them are in the file, which is flushed and closed,
    and the serial port is released. (A file system that never fails and
    nothing buffered before the port is opened.) *)
Theorem read_failure_is_fatal (decode : list Byte.byte -> string)
  (c : Service.PinLoggingServiceConfig) (r : Service.Run)
  (pre post : list SampleSource.rx_event) (msg : string) :
  AppendLog.faults (Service.disk (Service.world r)) = [] ->
  SampleSource.open_error (Service.serial (Service.world r)) = None ->
  SampleSource.buffered (Service.serial (Service.world r)) = [] ->
  SampleSource.incoming (Service.serial (Service.world r))
  = pre ++ SampleSource.RxFail msg :: post ->
  forallb Props.is_bytes pre = true ->
  (length pre < Service.stop_after (Service.world r))%nat ->
  let run := (Service._run decode c r).1.1 in
  Service._last_error (Service.status run) = Some ("fatal: " +:+ msg)
  /\ Service._running (Service.status run) = false
  /\ Props.pending (Service.serial (Service.world run)) = post
  /\ SampleSource.os_open (Service.serial (Service.world run)) = false
  /\ (Service._bad_reads (Service.status run)
      - Service._bad_reads (Service.status r))
     + (Service._samples_written (Service.status run)
        - Service._samples_written (Service.status r))
     = Z.of_nat (length pre)
  /\ Z.of_nat (Props.write_count (AppendLog.events (Service.disk (Service.world run))))
     - Z.of_nat (Props.write_count (AppendLog.events (Service.disk (Service.world r))))
     = Service._samples_written (Service.status run)
       - Service._samples_written (Service.status r)
  /\ last (AppendLog.events (Service.disk (Service.world run)))
     = Some AppendLog.IoClose.
Proof.
  intros Hf Hser Hbuf Hinc Hpre Hlen.
  pose proof (run_summary decode c r) as H.
  pose proof (logger_open_new
                {| AppendLog.path := Service.json_path c;
                   AppendLog.flush_every := Service.flush_every c |}
                (Service.disk (Service.world r))) as Ho.
  destruct (Service._run decode c r) as [[run logger] mon]. cbn [fst].
  destruct H as (Hrun & _ & _ & _ & _ & H).
  destruct H as [(e & [He|(m & He & _)] & _)|H]; [|congruence|].
  { destruct (AppendLog.open _ _) as [[ro lg] d1]. simpl in He. subst ro.
    destruct Ho as (_ & _ & _ & [_ Hne] & _). done. }
  clear Ho.
  destruct H as (nb & nw & nf & res & _ & Hb & Hw & Hle & Hos & Hok & Hraise & _ & Hwc & Hclean).
  destruct (Hclean Hf) as [-> Hlast].
  assert (Hstream : (if SampleSource.reset_fails (Service.serial (Service.world r))
                     then Props.pending (Service.serial (Service.world r))
                     else SampleSource.incoming (Service.serial (Service.world r)))
                    = pre ++ SampleSource.RxFail msg :: post).
  { unfold Props.pending. rewrite Hbuf, Hinc. by destruct (SampleSource.reset_fails _). }
  rewrite Hstream in *.
  assert (Hat : (pre ++ SampleSource.RxFail msg :: post) !! length pre
                = Some (SampleSource.RxFail msg)).
  { by rewrite lookup_app_r, Nat.sub_diag by lia. }
  destruct res as [[]|e].
  { destruct (Hok eq_refl) as (_ & _ & Hall & _).
    by pose proof (forallb_take_lookup _ _ _ _ _ Hall Hlen Hat). }
  destruct (Hraise e eq_refl) as (m & Hm & Hp & Hall & Herr).
  assert (Hn : (nb + nw + 0)%nat = length pre).
  { destruct (Nat.lt_trichotomy (nb + nw + 0) (length pre)) as [Hlt|[Heq|Hgt]];
      [|done|].
    - rewrite lookup_app_l in Hm by done.
      assert (Hpre' : forallb Props.is_bytes (take (length pre) pre) = true)
        by (by apply forallb_all_take).
      by pose proof (forallb_take_lookup _ _ _ _ _ Hpre' Hlt Hm).
    - by pose proof (forallb_take_lookup _ _ _ _ _ Hall Hgt Hat). }
  rewrite Hn in *. rewrite Hat in Hm. injection Hm as <-.
  split_and!; try done; try lia.
  rewrite Hp. replace (S (length pre)) with (length pre + 1)%nat by lia.
  rewrite <- drop_drop, drop_app_length. reflexivity.
Qed.

Lemma read_failure_is_fatal_witness :
  let w :=
    {| Service.disk := {| AppendLog.initial := EmptyString;
                          AppendLog.events := []; AppendLog.faults := [] |};
       Service.serial :=
         {| SampleSource.open_error := None; SampleSource.reset_fails := false;
            SampleSource.buffered := [];
            SampleSource.incoming :=
              [SampleSource.RxBytes (list_byte_of_string "4,1");
               SampleSource.RxFail "device disconnected";
               SampleSource.RxBytes (list_byte_of_string "4,0")];
            SampleSource.os_open := false |};
       Service.time_time := fun _ => 1768278730;
       Service.utc_now := fun _ => Spec.scenario_clock;
       Service.readings := 0; Service.stop_after := 5;
       Service.stdout := [] |} in
  let run := (Service._run Spec.decode_ascii Spec.scenario_config
                {| Service.status := Service.initial_status;
                   Service.world := w; Service.published := [] |}).1.1 in
  Service._last_error (Service.status run) = Some "fatal: device disconnected"
  /\ Props.pending (Service.serial (Service.world run))
     = [SampleSource.RxBytes (list_byte_of_string "4,0")].
Proof.
  intros w run.
  pose proof (read_failure_is_fatal Spec.decode_ascii Spec.scenario_config
                {| Service.status := Service.initial_status;
                   Service.world := w; Service.published := [] |}
                [SampleSource.RxBytes (list_byte_of_string "4,1")]
                [SampleSource.RxBytes (list_byte_of_string "4,0")]
                "device disconnected" eq_refl eq_refl eq_refl eq_refl eq_refl
                ltac:(simpl; lia)) as H.
  destruct H as (H1 & _ & H2 & _). split; [exact H1|exact H2].
Defined.

Section RunLog.
Variable decode : list Byte.byte -> string.
Variable c : Service.PinLoggingServiceConfig.

Lemma read_states_sample (mon : SampleSource.ArduinoPinMonitor)
  (p : SampleSource.Port) :
  SampleSource.ser_is_open mon = true ->
  match SampleSource.read_states decode mon p with
  | (r, p') =>
      match Props.pending p with
      | [] => r = Ok None /\ Props.pending p' = []
      | SampleSource.RxBytes raw :: rest =>
          r = Ok (Props.sample_of decode raw) /\ Props.pending p' = rest
      | SampleSource.RxFail msg :: rest =>
          r = Raise (SerialException msg) /\ Props.pending p' = rest
      end
  end.
Proof.
  intros Hopen. unfold SampleSource.read_states. rewrite Hopen. simpl.
  destruct (SampleSource.readline p) as [ev p1] eqn:E.
  apply readline_pending in E as (_ & _ & Hd & Hp).
  destruct Hp as [Hp|[Hp ->]]; rewrite Hp in *; simpl in Hd.
  - rewrite drop_0 in Hd. destruct ev as [raw|msg]; [|done].
    unfold Props.sample_of.
    destruct (length raw =? 0)%nat; [done|].
    destruct (is_empty _); [done|]. by destruct (parse_line _).
  - done.
Qed.

Lemma acquire_log (polls : nat) :
  forall (lg : AppendLog.PinSampleJSONLogger)
         (mon : SampleSource.ArduinoPinMonitor) (r : Service.Run),
    SampleSource.ser_is_open mon = true ->
    is_Some (AppendLog._fh lg) ->
    AppendLog.faults (Service.disk (Service.world r)) = [] ->
    (forall i, valid (Service.utc_now (Service.world r) i) = true) ->
    match Service.acquire decode c polls lg mon r with
    | (res, lg', r') =>
        let logged :=
          Props.logged_samples decode (Service.utc_now (Service.world r)) polls
            (Service.readings (Service.world r))
            (Props.pending (Service.serial (Service.world r))) in
        Spec.log_text (AppendLog.events (Service.disk (Service.world r')))
        = Spec.log_text (AppendLog.events (Service.disk (Service.world r)))
          +:+ Spec.lines_of logged
        /\ Service._samples_written (Service.status r')
           = Service._samples_written (Service.status r) + Z.of_nat (length logged)
        /\ (forall ps now, last logged = Some (ps, now) ->
            Service._last_states (Service.status r') = Some ps)
        /\ (logged = [] ->
            Service._last_states (Service.status r')
            = Service._last_states (Service.status r))
    end.
Proof.
  induction polls as [|polls IH]; intros lg mon r Hopen Hfh Hf Hv.
  - simpl. rewrite append_nil_r. split_and!; [done|lia|done|done].
  - cbn [Service.acquire Props.logged_samples].
    pose proof (read_states_sample mon (Service.serial (Service.world r)) Hopen) as Hr.
    destruct (SampleSource.read_states decode mon _) as [rs p].
    destruct (Props.pending (Service.serial (Service.world r))) as [|[raw|msg] rest].
    + destruct Hr as [-> Hp].
      specialize (IH lg mon (Service.with_lock Service.count_bad_read
                               (Service.set_serial p r)) Hopen Hfh Hf Hv).
      destruct (Service.acquire _ _ _ _ _ _) as [[res lg'] r'].
      cbn [Service.world Service.with_lock Service.set_world Service.disk
             Service.status Service.set_serial Service.serial Service.utc_now
             Service.readings Service.count_bad_read Service._samples_written
             Service._last_states] in IH.
      rewrite Hp in IH.
      assert (E : Props.logged_samples decode (Service.utc_now (Service.world r)) polls
                    (Service.readings (Service.world r)) [] = [])
        by (by destruct polls).
      rewrite E in IH. exact IH.
    + destruct Hr as [-> Hp].
      destruct (Props.sample_of decode raw) as [ps|].
      * unfold Service.read_time, Service.read_utc.
        cbn [Service.world Service.tick Service.with_lock Service.set_world
               Service.disk Service.status Service.set_disk Service.set_serial
               Service.serial Service.utc_now Service.time_time Service.readings].
        match goal with
        | |- context [AppendLog.write_sample ?l ?st ?ts ?now ?d] =>
            destruct (AppendLog.write_sample l st ts now d) as [[rw lg1] d1] eqn:Ew
        end.
        pose proof Ew as Ew'.
        apply write_sample_cases in Ew as (_ & Hfh1 & _ & Hf1 & Hcase).
        rewrite (written_line ps _ (Hv _)) in Hcase.
        destruct Hfh as [fh Hfh].
        assert (Hev : rw = Ok tt
                      /\ Spec.log_text (AppendLog.events d1)
                         = Spec.log_text (AppendLog.events (Service.disk (Service.world r)))
                           +:+ Spec.record_line
                                 (AppendLog.now_iso_utc
                                    (Service.utc_now (Service.world r)
                                       (S (Service.readings (Service.world r)))))
                                 (d4 ps) (d5 ps) (d6 ps) (d7 ps)).
        { destruct Hcase as [(e & -> & He & _ & [Hn|Hn])
                            |[(-> & He & _)
                             |[(-> & He & _)|(e & -> & He & _ & _ & Hn)]]];
            try congruence.
          - split; [done|]. rewrite He, log_text_app. simpl. by rewrite append_nil_r.
          - split; [done|]. rewrite He, log_text_app. simpl. by rewrite append_nil_r. }
        destruct Hev as [-> Hev].
        match goal with
        | |- context [Service.acquire decode c polls lg1 mon ?r0] =>
            specialize (IH lg1 mon r0 Hopen ltac:(by rewrite Hfh1) (Hf1 Hf) Hv)
        end.
        destruct (Service.acquire _ _ _ _ _ _) as [[res lg'] r'].
        cbn [Service.world Service.tick Service.with_lock Service.set_world
               Service.disk Service.status Service.set_disk Service.set_serial
               Service.serial Service.utc_now Service.time_time Service.readings
               Service.count_written Service.set_last Service._samples_written
               Service._last_states] in IH.
        rewrite Hp in IH. destruct IH as (Ht & Hn & Hl & Hl0).
        split_and!.
        -- rewrite Ht, Hev, append_assoc. reflexivity.
        -- rewrite Hn. cbn [length]. lia.
        -- intros ps' now'. cbn [last].
           destruct (Props.logged_samples _ _ _ _ _) as [|x l] eqn:El.
           ++ intros [= <- <-]. by rewrite Hl0.
           ++ apply Hl.
        -- discriminate.
      * specialize (IH lg mon (Service.with_lock Service.count_bad_read
                                 (Service.set_serial p r)) Hopen Hfh Hf Hv).
        destruct (Service.acquire _ _ _ _ _ _) as [[res lg'] r'].
        cbn [Service.world Service.with_lock Service.set_world Service.disk
               Service.status Service.set_serial Service.serial Service.utc_now
               Service.readings Service.count_bad_read Service._samples_written
               Service._last_states] in IH.
        by rewrite Hp in IH.
    + destruct Hr as [-> Hp]. simpl. rewrite append_nil_r.
      split_and!; [done|lia|done|done].
Qed.

End RunLog.

(** X6. With a file system that never fails, a serial port that opens
    and valid clock readings, a run of the worker appends to the log one
    record line for each line of the device that decodes to a sample, in
    the order read, stamped with the UTC reading taken for it; the
    counter of samples grows by their number, the cached sample is the
    last of them, and read back from a new file they are the records
    found, sorted by time. *)
Theorem run_logs_decodable_lines (decode : list Byte.byte -> string)
  (c : Service.PinLoggingServiceConfig) (r : Service.Run)
  (minus_seconds : datetime -> Z -> datetime) (now : datetime) :
  AppendLog.faults (Service.disk (Service.world r)) = [] ->
  SampleSource.open_error (Service.serial (Service.world r)) = None ->
  (forall i, valid (Service.utc_now (Service.world r) i) = true) ->
  let run := (Service._run decode c r).1.1 in
  let p := Service.serial (Service.world r) in
  let stream := if SampleSource.reset_fails p then Props.pending p
                else SampleSource.incoming p in
  let logged :=
    Props.logged_samples decode (Service.utc_now (Service.world r))
      (Service.stop_after (Service.world r))
      (S (Service.readings (Service.world r))) stream in
  AppendLog.file_text (Service.disk (Service.world run))
  = AppendLog.file_text (Service.disk (Service.world r)) +:+ Spec.lines_of logged
  /\ Service._samples_written (Service.status run)
     = Service._samples_written (Service.status r) + Z.of_nat (length logged)
  /\ (forall ps t0, last logged = Some (ps, t0) ->
      Service._last_states (Service.status run) = Some ps)
  /\ (AppendLog.file_text (Service.disk (Service.world r)) = EmptyString ->
      LogReader.read_ndjson minus_seconds
        (AppendLog.file_text (Service.disk (Service.world run))) None now
      = LogReader.sort_by_t (map Spec.expected logged)).
Proof.
  intros Hf Hser Hv run p stream logged.
  assert (Hvl : Forall (fun sn : PinStates * datetime => valid sn.2 = true) logged).
  { unfold logged. generalize (S (Service.readings (Service.world r))).
    generalize stream. clear -Hv.
    induction (Service.stop_after (Service.world r)) as [|n IH]; intros st i;
      [constructor|].
    simpl. destruct st as [|[raw|msg] rest]; [constructor| |constructor].
    destruct (Props.sample_of decode raw); [|apply IH].
    constructor; [apply Hv|apply IH]. }
  assert (Hmain :
    AppendLog.file_text (Service.disk (Service.world run))
    = AppendLog.file_text (Service.disk (Service.world r)) +:+ Spec.lines_of logged
    /\ Service._samples_written (Service.status run)
       = Service._samples_written (Service.status r) + Z.of_nat (length logged)
    /\ (forall ps t0, last logged = Some (ps, t0) ->
        Service._last_states (Service.status run) = Some ps)).
  { unfold run, logged, stream, p. clear run logged stream p Hvl.
    unfold Service._run, Service.run_body, Service.read_time.
    cbn [Service.world Service.tick Service.with_lock Service.set_world Service.disk
           Service.status Service.set_disk Service.serial Service.stop_after].
    rewrite (open_new_ok _ _ Hf).
    cbn [Service.world Service.tick Service.with_lock Service.set_world Service.disk
           Service.status Service.set_disk Service.serial Service.stop_after].
    pose proof (monitor_open_new (Service.port c) (Service.baud c)
                  (Service.serial (Service.world r))) as Hm.
    destruct (SampleSource.open _ _) as [[[u'|e] mon1] p1].
    2:{ destruct Hm as ((msg & Hmsg & _) & _). congruence. }
    destruct Hm as (_ & Hopen & _ & Hpend & Hclose).
    match goal with
    | |- context [Service.acquire decode c ?n ?l ?m ?r0] =>
        pose proof (acquire_log decode c n l m r0 Hopen ltac:(by eexists) eq_refl Hv)
          as Ha;
        destruct (Service.acquire decode c n l m r0) as [[res lg2] r2] eqn:Ea
    end.
    apply (acquire_summary decode c _ _ _ _ _ _ _ Hopen) in Ea
      as (nb & nw & nf & _ & _ & _ & _ & _ & _ & _ & _ & _
          & Hclean & Hinit & _ & Hfh2 & _).
    destruct (Hclean eq_refl ltac:(by eexists)) as [_ Hf2].
    cbn [Service.world Service.tick Service.with_lock Service.set_world Service.disk
           Service.status Service.set_disk Service.serial Service.utc_now
           Service.readings Service.set_serial Service.mark_started
           Service._samples_written Service._last_states AppendLog.events
           AppendLog.initial] in Ha, Hinit.
    rewrite Hpend in Ha. destruct Ha as (Ht & Hn & Hl & _).
    rewrite Hclose.
    set (r2' := Service.set_serial _ r2).
    set (r3 := match res with Ok _ => r2' | Raise e => Service.report c "fatal: " e r2' end).
    assert (H3 : Service._samples_written (Service.status r3)
                 = Service._samples_written (Service.status r2)
                 /\ Service._last_states (Service.status r3)
                    = Service._last_states (Service.status r2)
                 /\ Service.disk (Service.world r3) = Service.disk (Service.world r2)).
    { unfold r3. destruct res as [u1|e1]; [done|].
      destruct (report_status c "fatal: " e1 r2') as (-> & -> & _). done. }
    clearbody r3. destruct H3 as (Hs3 & Hl3 & Hd3).
    rewrite Hd3. cbn [fst].
    erewrite close_open_ok; [|by rewrite Hfh2|done].
    cbn [fst Service.world Service.with_lock Service.set_world Service.disk
           Service.status Service.set_disk Service.set_running
           Service._samples_written Service._last_states].
    rewrite Hs3, Hl3. split_and!; [|done|done].
    rewrite !file_text_log. cbn [AppendLog.initial AppendLog.events].
    rewrite Hinit, log_text_app, Ht, log_text_app.
    cbn [Spec.log_text fold_right AppendLog.written_text String.append].
    rewrite !append_nil_r, !append_assoc. reflexivity. }
  destruct Hmain as (Htext & Hn & Hl). split_and!; try done.
  intros Hempty. rewrite Htext, Hempty. cbn [String.append].
  by apply read_back_lines.
Qed.

Lemma run_logs_decodable_lines_witness :
  let r := {| Service.status := Service.initial_status;
              Service.world := Spec.scenario_world ["4,1,5,0"; "oops"; "4,0"] 4;
              Service.published := [] |} in
  let run := (Service._run Spec.decode_ascii Spec.scenario_config r).1.1 in
  AppendLog.file_text (Service.disk (Service.world run))
  = Spec.record_line "2026-01-13T04:32:10.123456Z" (Some 1) (Some 0) None None
    +:+ Spec.record_line "2026-01-13T04:32:10.123456Z" (Some 0) None None None
  /\ Service._samples_written (Service.status run) = 2.
Proof.
  intros r run.
  pose proof (run_logs_decodable_lines Spec.decode_ascii Spec.scenario_config r
                Spec.no_window Spec.scenario_clock eq_refl eq_refl
                (fun _ => eq_refl)) as H.
  destruct H as (H1 & H2 & _). split.
  - etransitivity; [exact H1|]. vm_compute. reflexivity.
  - etransitivity; [exact H2|]. vm_compute. reflexivity.
Defined.

(** ** The monitor and the logger as objects *)

(** X7. A new monitor opened on a port that can be opened is open and
    holds the port; what was received before is dropped when the input
    buffer can be reset and kept when it cannot (that failure is not
    reported), and the first line read is the first one left. *)
Theorem monitor_open_drops_stale_input (decode : list Byte.byte -> string)
  (name : string) (rate : Z) (p : Port) :
  open_error p = None ->
  match SampleSource.open (SampleSource.new name rate) p with
  | (r, mon, p1) =>
      r = Ok tt
      /\ ser_is_open mon = true
      /\ os_open p1 = true
      /\ Props.pending p1 = (if reset_fails p then Props.pending p else incoming p)
      /\ forall raw rest,
           Props.pending p1 = RxBytes raw :: rest ->
           (read_states decode mon p1).1 = Ok (Props.sample_of decode raw)
           /\ Props.pending (read_states decode mon p1).2 = rest
  end.
Proof.
  intros Herr.
  pose proof (monitor_open_new name rate p) as H.
  destruct (SampleSource.open _ p) as [[[u|e] mon] p1].
  - destruct H as (_ & Hopen & Hos & Hpend & _). destruct u.
    split_and!; try done.
    intros raw rest Hp1.
    pose proof (read_states_sample decode mon p1 Hopen) as Hr.
    destruct (read_states decode mon p1) as [r p2]. rewrite Hp1 in Hr.
    destruct Hr as [-> Hr]. split; [done|exact Hr].
  - destruct H as ((msg & Hmsg & _) & _). congruence.
Qed.

Lemma monitor_open_drops_stale_input_witness :
  let p := {| open_error := None; reset_fails := false;
              buffered := [RxBytes (list_byte_of_string "4,0")];
              incoming := [RxBytes (list_byte_of_string "4,1")];
              os_open := false |} in
  match SampleSource.open (SampleSource.new "COM3" 115200) p with
  | (r, mon, p1) =>
      (read_states Spec.decode_ascii mon p1).1
      = Ok (Some {| states := <[4 := 1]> ∅ |})
  end.
Proof.
  intros p.
  pose proof (monitor_open_drops_stale_input Spec.decode_ascii "COM3" 115200 p
                eq_refl) as H.
  destruct (SampleSource.open _ p) as [[r mon] p1] eqn:E.
  destruct H as (_ & _ & _ & Hpend & H).
  destruct (H (list_byte_of_string "4,1") [] Hpend) as [H1 _].
  etransitivity; [exact H1|]. vm_compute. reflexivity.
Defined.

(** X8. Closing a monitor, open or not, leaves it without a connection:
    the port is released if it was held, nothing of the line is
    consumed, a read raises the not-open error without touching the
    port, and closing again changes nothing. *)
Theorem monitor_closed_refuses_reads (decode : list Byte.byte -> string)
  (mon : ArduinoPinMonitor) (p : Port) :
  match SampleSource.close mon p with
  | (mon1, p1) =>
      _ser mon1 = None
      /\ (is_Some (_ser mon) -> os_open p1 = false)
      /\ Props.pending p1 = Props.pending p
      /\ read_states decode mon1 p1
         = (Raise (RuntimeError SampleSource.not_open_msg), p1)
      /\ SampleSource.close mon1 p1 = (mon1, p1)
  end.
Proof.
  unfold SampleSource.close. destruct (_ser mon) as [ser|] eqn:E.
  - split_and!; try done.
  - rewrite E. split_and!; try done.
    unfold read_states, ser_is_open. by rewrite E.
Qed.

Lemma io_call_cases (ev : AppendLog.io_event) (d : AppendLog.Disk) :
  match AppendLog.io_call ev d with
  | (r, d') =>
      AppendLog.initial d' = AppendLog.initial d
      /\ ((r = Ok tt /\ AppendLog.events d' = AppendLog.events d ++ [ev])
          \/ (exists msg, r = Raise (OSError msg)
                          /\ AppendLog.events d' = AppendLog.events d))
  end.
Proof.
  unfold AppendLog.io_call.
  destruct (AppendLog.faults d) as [|[msg|] rest]; simpl; eauto.
Qed.

(** X9. [close()] on the logger always leaves it without a file: when
    it returns normally on an open logger the file was flushed and then
    closed; when the flush fails the file is never closed, when the
    close fails the flush has been done; afterwards a write raises the
    not-open error and writes nothing, and closing again does nothing.
    The count of records since the last flush is kept. *)
Theorem logger_close_detaches (lg : AppendLog.PinSampleJSONLogger)
  (d : AppendLog.Disk) (states : PinStates) (ts : option string)
  (now : datetime) :
  match AppendLog.close lg d with
  | (rc, lg1, d1) =>
      AppendLog._fh lg1 = None
      /\ AppendLog._count_since_flush lg1 = AppendLog._count_since_flush lg
      /\ AppendLog.file_text d1 = AppendLog.file_text d
      /\ match rc with
         | Ok _ =>
             AppendLog.events d1
             = AppendLog.events d
               ++ match AppendLog._fh lg with
                  | Some _ => [AppendLog.IoFlush; AppendLog.IoClose]
                  | None => []
                  end
         | Raise e =>
             is_Some (AppendLog._fh lg)
             /\ (exists msg, e = OSError msg)
             /\ (AppendLog.events d1 = AppendLog.events d
                 \/ AppendLog.events d1 = AppendLog.events d ++ [AppendLog.IoFlush])
         end
      /\ AppendLog.write_sample lg1 states ts now d1
         = (Raise (RuntimeError AppendLog.not_open_msg), lg1, d1)
      /\ AppendLog.close lg1 d1 = (Ok tt, lg1, d1)
  end.
Proof.
  unfold AppendLog.close at 1. destruct (AppendLog._fh lg) as [fh|] eqn:Hfh.
  2:{ unfold AppendLog.write_sample, AppendLog.close. rewrite Hfh.
      split_and!; try done. by rewrite app_nil_r. }
  pose proof (io_call_cases AppendLog.IoFlush d) as H1.
  destruct (AppendLog.io_call AppendLog.IoFlush d) as [r1 d1].
  destruct H1 as [Hi1 [[-> He1]|(msg & -> & He1)]].
  - pose proof (io_call_cases AppendLog.IoClose d1) as H2.
    destruct (AppendLog.io_call AppendLog.IoClose d1) as [r2 d2].
    destruct H2 as [Hi2 [[-> He2]|(msg & -> & He2)]];
      unfold AppendLog.write_sample, AppendLog.close;
      cbn [AppendLog.set_fh AppendLog._fh AppendLog._count_since_flush];
      rewrite !file_text_log, He2, He1, Hi2, Hi1, ?log_text_app;
      split_and!; eauto.
    + by rewrite !append_nil_r.
    + by rewrite <- (assoc_L (++)).
    + by rewrite !append_nil_r.
  - unfold AppendLog.write_sample, AppendLog.close.
    cbn [AppendLog.set_fh AppendLog._fh AppendLog._count_since_flush].
    rewrite !file_text_log, He1, Hi1. split_and!; eauto.
Qed.

Section AnyTimestamp.

Lemma scan_escape_char (c : ascii) :
  forall r : string,
    scan_string (escape_char c +:+ r)
    = match scan_string r with
      | Some (t, rest) => Some (String c t, rest)
      | None => None
      end.
Proof.
  destruct c as [[] [] [] [] [] [] [] []]; intros r; reflexivity.
Qed.

Lemma escape_char_printable (c : ascii) :
  Spec.all_chars Spec.printable (escape_char c) = true.
Proof. destruct c as [[] [] [] [] [] [] [] []]; reflexivity. Qed.

Lemma scan_string_escape (s rest : string) :
  scan_string (escape s +:+ String dquote rest) = Some (s, rest).
Proof.
  induction s as [|a s IH]; [reflexivity|].
  cbn [escape]. rewrite append_assoc, scan_escape_char, IH. reflexivity.
Qed.

Lemma escape_printable (s : string) :
  Spec.all_chars Spec.printable (escape s) = true.
Proof.
  induction s as [|a s IH]; [reflexivity|].
  cbn [escape]. by rewrite all_chars_app, escape_char_printable, IH.
Qed.

Lemma dumps_record_any (tail ts : string) (o4 o5 o6 o7 : option Z) :
  dumps (JObj [("ts_utc", JStr ts); ("d4", AppendLog.opt_int o4);
               ("d5", AppendLog.opt_int o5); ("d6", AppendLog.opt_int o6);
               ("d7", AppendLog.opt_int o7)]) +:+ tail
  = Spec.record_then tail (escape ts) o4 o5 o6 o7.
Proof.
  simpl. rewrite !dumps_opt_int.
  unfold Spec.record_then. repeat (rewrite !append_assoc; simpl).
  reflexivity.
Qed.

Lemma record_any_printable (body : string) (o4 o5 o6 o7 : option Z) :
  Spec.all_chars Spec.printable body = true ->
  Spec.all_chars Spec.printable (Spec.record_then EmptyString body o4 o5 o6 o7)
  = true.
Proof.
  intros Hb. rewrite record_then_open, all_chars_app. unfold Spec.record_open.
  by rewrite !all_chars_app, !pin_field_printable, Hb.
Qed.

Lemma parse_value_string_any (f : nat) (ts rest : string) :
  parse_value (S f) (skip_ws (String dquote (escape ts +:+ String dquote rest)))
  = Some (JStr ts, rest).
Proof.
  cbn [skip_ws]. change (is_json_ws dquote) with false.
  cbn [parse_value]. change (Ascii.eqb dquote dquote) with true.
  cbv iota. by rewrite scan_string_escape.
Qed.

Ltac member key :=
  cbn [skip_ws]; change (is_json_ws ",") with false; cbv iota;
  change (Ascii.eqb "," ",") with true; cbv iota;
  change (is_json_ws dquote) with false; cbv iota;
  etransitivity; [apply (parse_members_step _ key); done|];
  rewrite parse_value_pin_field by done.

Lemma parse_record_any (f : nat) (tail ts : string) (o4 o5 o6 o7 : option Z) :
  parse_value (S (S (S (S (S (S (S f)))))))
    (Spec.record_then tail (escape ts) o4 o5 o6 o7)
  = Some (JObj [("ts_utc", JStr ts); ("d4", AppendLog.opt_int o4);
                ("d5", AppendLog.opt_int o5); ("d6", AppendLog.opt_int o6);
                ("d7", AppendLog.opt_int o7)], tail).
Proof.
  unfold Spec.record_then. simpl String.append.
  rewrite parse_value_object.
  etransitivity; [apply (parse_members_step _ "ts_utc"); done|].
  rewrite parse_value_string_any.
  member "d4". member "d5". member "d6". member "d7".
  reflexivity.
Qed.

Lemma loads_record_any (ts : string) (o4 o5 o6 o7 : option Z) :
  loads (Spec.record_then EmptyString (escape ts) o4 o5 o6 o7)
  = Some (JObj [("ts_utc", JStr ts); ("d4", AppendLog.opt_int o4);
                ("d5", AppendLog.opt_int o5); ("d6", AppendLog.opt_int o6);
                ("d7", AppendLog.opt_int o7)]).
Proof.
  unfold loads.
  assert (Hlen : exists f, String.length (Spec.record_then EmptyString (escape ts) o4 o5 o6 o7)
                           = S (S (S (S (S (S f)))))).
  { unfold Spec.record_then. simpl String.append. cbn [String.length]. eauto. }
  destruct Hlen as [f ->].
  assert (Hws : skip_ws (Spec.record_then EmptyString (escape ts) o4 o5 o6 o7)
                = Spec.record_then EmptyString (escape ts) o4 o5 o6 o7) by reflexivity.
  rewrite Hws, parse_record_any. reflexivity.
Qed.

End AnyTimestamp.

(** X10. Whatever text the caller gives as timestamp (quotes, backslashes,
    control characters and line ends included), a call of
    [write_sample] that returns normally has written one line: a text
    without any line end, followed by a newline, that [json.loads]
    decodes to exactly the record of the call (the caller's timestamp
    unchanged when it is not empty, the clock's otherwise), and then at
    most forced a flush. *)
Theorem written_record_decodes (self self' : AppendLog.PinSampleJSONLogger)
  (states : PinStates) (ts : option string) (now : datetime)
  (d d' : AppendLog.Disk) :
  AppendLog.write_sample self states ts now d = (Ok tt, self', d') ->
  exists text flushed,
    AppendLog.events d' = AppendLog.events d ++ AppendLog.IoWrite text :: flushed
    /\ (flushed = [] \/ flushed = [AppendLog.IoFlush])
    /\ endswith1 text nl = true
    /\ Spec.no_newline (drop_last text) = true
    /\ loads (drop_last text) = Some (AppendLog.make_rec states ts now)
    /\ forall t, ts = Some t -> t <> EmptyString ->
         AppendLog.make_rec states ts now
         = JObj [("ts_utc", JStr t); ("d4", AppendLog.opt_int (d4 states));
                 ("d5", AppendLog.opt_int (d5 states));
                 ("d6", AppendLog.opt_int (d6 states));
                 ("d7", AppendLog.opt_int (d7 states))].
Proof.
  intros Hw.
  apply write_sample_cases in Hw as (_ & _ & _ & _ & Hcase).
  set (line := dumps (AppendLog.make_rec states ts now) +:+ str1 nl) in *.
  assert (Hline : endswith1 line nl = true
                  /\ Spec.no_newline (drop_last line) = true
                  /\ loads (drop_last line) = Some (AppendLog.make_rec states ts now)).
  { unfold line, AppendLog.make_rec.
    set (stamp := match ts with
                  | Some t => if is_empty t then AppendLog.now_iso_utc now else t
                  | None => AppendLog.now_iso_utc now
                  end).
    rewrite endswith1_app, drop_last_app.
    rewrite <- (append_nil_r (dumps _)), dumps_record_any.
    split; [done|]. split; [|apply loads_record_any].
    apply no_newline_printable, record_any_printable, escape_printable. }
  destruct Hline as (H1 & H2 & H3).
  assert (Hts : forall t, ts = Some t -> t <> EmptyString ->
            AppendLog.make_rec states ts now
            = JObj [("ts_utc", JStr t); ("d4", AppendLog.opt_int (d4 states));
                    ("d5", AppendLog.opt_int (d5 states));
                    ("d6", AppendLog.opt_int (d6 states));
                    ("d7", AppendLog.opt_int (d7 states))]).
  { intros t -> Hne. unfold AppendLog.make_rec. by destruct t. }
  destruct Hcase as [(e & He & _)|[(_ & He & _)|[(_ & He & _)|(e & He & _)]]];
    try discriminate.
  - exists line, []. split_and!; auto.
  - exists line, [AppendLog.IoFlush]. split_and!; auto.
Qed.

Lemma written_record_decodes_witness :
  let lg := AppendLog.set_fh (Some {| AppendLog.name := "pin_samples.ndjson" |})
              (AppendLog.new AppendLog.default_config) in
  let d := {| AppendLog.initial := EmptyString; AppendLog.events := [];
              AppendLog.faults := [] |} in
  let ts := String dquote (String nl "x") in
  let ps := {| states := <[4 := 1]> ∅ |} in
  exists text flushed,
    AppendLog.events (AppendLog.write_sample lg ps (Some ts) Spec.scenario_clock d).2
    = AppendLog.IoWrite text :: flushed
    /\ Spec.no_newline (drop_last text) = true
    /\ loads (drop_last text)
       = Some (JObj [("ts_utc", JStr ts); ("d4", JInt 1); ("d5", JNull);
                     ("d6", JNull); ("d7", JNull)]).
Proof.
  intros lg d ts ps.
  destruct (AppendLog.write_sample lg ps (Some ts) Spec.scenario_clock d)
    as [[r lg'] d'] eqn:E.
  assert (Hr : r = Ok tt) by (vm_compute in E; by injection E as <- _ _).
  subst r.
  destruct (written_record_decodes _ _ _ _ _ _ _ E)
    as (text & flushed & He & _ & _ & Hn & Hl & Hts).
  exists text, flushed. split; [exact He|]. split; [exact Hn|].
  rewrite Hl. rewrite (Hts ts eq_refl ltac:(discriminate)). reflexivity.
Defined.


(** ** The log reader on any file *)

Section ReaderFacts.

Lemma endswith1_zone (s : string) : endswith1 (s +:+ "+00:00") "Z" = false.
Proof.
  induction s as [|a s IH]; [reflexivity|].
  cbn [String.append endswith1]. rewrite IH.
  destruct s; reflexivity.
Qed.







Lemma read_record_cutoff (cutoff : datetime) (line : string) :
  LogReader.read_record (Some cutoff) line
  = match LogReader.read_record None line with
    | Some smp => if leb cutoff (LogReader.t smp) then Some smp else None
    | None => None
    end.
Proof.
  unfold LogReader.read_record.
  destruct (loads line) as [[| | | | | |rec]|]; try done.
  destruct (dict_get "ts_utc" rec) as [[| | | |ts| |]|]; try done.
  destruct (LogReader._parse_ts ts) as [t0|]; [|done].
  unfold ltb. simpl. by destruct (leb cutoff t0).
Qed.

Lemma read_lines_cutoff (cutoff : datetime) (lines : list string) :
  LogReader.read_lines (Some cutoff) lines
  = List.filter (fun smp => leb cutoff (LogReader.t smp))
      (LogReader.read_lines None lines).
Proof.
  induction lines as [|line lines IH]; [done|].
  cbn [LogReader.read_lines]. destruct (is_empty (strip line)); [done|].
  rewrite read_record_cutoff.
  destruct (LogReader.read_record None (strip line)) as [smp|]; [|done].
  cbn [List.filter]. destruct (leb cutoff (LogReader.t smp)); by rewrite IH.
Qed.


End ReaderFacts.

(** X11. [_parse_ts] gives back the instant from both forms of its
    timestamp, the logger's (with [Z]) and [isoformat]'s own (with
    [+00:00]), also at a whole second, where the fraction is left out;
    and the two forms of one text are read alike. *)
Theorem parse_ts_round_trip (t : datetime) (body : string) :
  (valid t = true ->
   LogReader._parse_ts (AppendLog.now_iso_utc t) = Some t
   /\ LogReader._parse_ts (isoformat t) = Some t)
  /\ LogReader._parse_ts (body +:+ "Z") = LogReader._parse_ts (body +:+ "+00:00").
Proof.
  split.
  - intros Hv. split; [by apply parse_ts_now|].
    unfold LogReader._parse_ts. rewrite (isoformat_body t), endswith1_zone.
    by apply fromisoformat_isoformat.
  - unfold LogReader._parse_ts. rewrite endswith1_zone.
    change "Z" with (str1 "Z"). by rewrite endswith1_app, drop_last_app.
Qed.

Lemma parse_ts_round_trip_witness :
  let t := {| year := 2026; month := 1; day := 13; hour := 4; minute := 32;
              second := 10; microsecond := 0 |} in
  AppendLog.now_iso_utc t = "2026-01-13T04:32:10Z"
  /\ LogReader._parse_ts "2026-01-13T04:32:10Z" = Some t
  /\ LogReader._parse_ts "2026-01-13T04:32:10+00:00" = Some t.
Proof.
  intros t. split; [vm_compute; reflexivity|].
  destruct (parse_ts_round_trip t EmptyString) as [H _].
  destruct (H eq_refl) as [H1 H2]. split; [exact H1|exact H2].
Defined.



(** ** What the JSON decoder leaves unread *)

Section Unread.
Variable P : ascii -> bool.

Lemma skip_ws_keeps (s : string) :
  Spec.all_chars P s = true -> Spec.all_chars P (skip_ws s) = true.
Proof.
  induction s as [|a s IH]; [done|]. simpl.
  intros [Ha Hs]%andb_true_iff. destruct (is_json_ws a); [auto|].
  simpl. by rewrite Ha, Hs.
Qed.

Lemma scan_string_keeps (n : nat) :
  forall s t rest,
    (String.length s <= n)%nat ->
    scan_string s = Some (t, rest) ->
    Spec.all_chars P s = true -> Spec.all_chars P rest = true.
Proof.
  induction n as [|n IH]; intros s t rest Hlen.
  - destruct s; [discriminate|simpl in Hlen; lia].
  - destruct s as [|c r]; [discriminate|]. simpl in Hlen.
    cbn [scan_string]. intros H [Hc Hr]%andb_true_iff.
    destruct (Ascii.eqb c dquote); [by injection H as _ <-|].
    destruct (Ascii.eqb c backslash).
    + destruct r as [|e r1]; [discriminate|].
      simpl in Hr. apply andb_true_iff in Hr as [He Hr1].
      destruct (Ascii.eqb e "u").
      * destruct r1 as [|h1 [|h2 [|h3 [|h4 r2]]]]; try discriminate.
        destruct (hex4 h1 h2 h3 h4); [|discriminate].
        destruct (scan_string r2) as [[t' rest']|] eqn:E; [|discriminate].
        injection H as _ <-.
        simpl in Hr1. repeat (apply andb_true_iff in Hr1 as [_ Hr1]).
        apply (IH r2 t' rest'); [simpl in Hlen; lia|done|done].
      * destruct (unescape1 e); [|discriminate].
        destruct (scan_string r1) as [[t' rest']|] eqn:E; [|discriminate].
        injection H as _ <-.
        apply (IH r1 t' rest'); [simpl in Hlen; lia|done|done].
    + destruct (N_of_ascii c <? 32)%N; [discriminate|].
      destruct (scan_string r) as [[t' rest']|] eqn:E; [|discriminate].
      injection H as _ <-. apply (IH r t' rest'); [lia|done|done].
Qed.

Lemma span_digits_keeps (s : string) :
  Spec.all_chars P s = true -> Spec.all_chars P (span_digits s).2 = true.
Proof.
  induction s as [|a s IH]; [done|]. cbn [span_digits].
  intros H. pose proof H as [Ha Hs]%andb_true_iff.
  destruct (is_digit a); [|done].
  specialize (IH Hs). by destruct (span_digits s).
Qed.

Lemma int_part_keeps (s : string) :
  Spec.all_chars P s = true -> Spec.all_chars P (int_part s).2 = true.
Proof.
  destruct s as [|a s]; [done|]. unfold int_part.
  intros H. pose proof H as [Ha Hs]%andb_true_iff.
  destruct (Ascii.eqb a "0"); [done|]. by apply span_digits_keeps.
Qed.

Lemma frac_part_keeps (s : string) :
  Spec.all_chars P s = true -> Spec.all_chars P (frac_part s).2 = true.
Proof.
  destruct s as [|a s]; [done|]. unfold frac_part.
  intros H. pose proof H as [Ha Hs]%andb_true_iff.
  destruct (Ascii.eqb a "."); [|done].
  pose proof (span_digits_keeps s Hs) as Hd.
  destruct (span_digits s) as [dg rest]. by destruct (is_empty dg).
Qed.

Lemma exp_part_keeps (s : string) :
  Spec.all_chars P s = true -> Spec.all_chars P (exp_part s).2 = true.
Proof.
  destruct s as [|a s]; [done|]. unfold exp_part.
  intros H. pose proof H as [Ha Hs]%andb_true_iff.
  destruct (Ascii.eqb a "e" || Ascii.eqb a "E"); [|done].
  assert (Hr1 : Spec.all_chars P
                  (match s with
                   | String c2 r2 =>
                       if Ascii.eqb c2 "+" || Ascii.eqb c2 "-"
                       then (str1 c2, r2) else (EmptyString, s)
                   | EmptyString => (EmptyString, s)
                   end).2 = true).
  { destruct s as [|c2 r2]; [done|].
    destruct (Ascii.eqb c2 "+" || Ascii.eqb c2 "-"); [|done].
    simpl in Hs. by apply andb_true_iff in Hs as [_ ?]. }
  destruct (match s with String _ _ => _ | EmptyString => _ end) as [sg r1].
  pose proof (span_digits_keeps r1 Hr1) as Hd.
  destruct (span_digits r1) as [dg rest]. by destruct (is_empty dg).
Qed.

Lemma parse_number_keeps (s : string) (v : json) (rest : string) :
  parse_number s = Some (v, rest) ->
  Spec.all_chars P s = true -> Spec.all_chars P rest = true.
Proof.
  unfold parse_number. intros H Hs.
  assert (Hs1 : Spec.all_chars P
                  (match s with
                   | String c r => if Ascii.eqb c "-" then (true, r) else (false, s)
                   | EmptyString => (false, s)
                   end).2 = true).
  { destruct s as [|c r]; [done|]. destruct (Ascii.eqb c "-"); [|done].
    simpl in Hs. by apply andb_true_iff in Hs as [_ ?]. }
  destruct (match s with String _ _ => _ | EmptyString => _ end) as [neg s1].
  pose proof (int_part_keeps s1 Hs1) as H1.
  destruct (int_part s1) as [ip r1]. destruct (is_empty ip); [discriminate|].
  pose proof (frac_part_keeps r1 H1) as H2.
  destruct (frac_part r1) as [fp r2].
  pose proof (exp_part_keeps r2 H2) as H3.
  destruct (exp_part r2) as [ep r3].
  destruct (is_empty fp && is_empty ep); by injection H as _ <-.
Qed.

Lemma drop_keeps (n : nat) (s : string) :
  Spec.all_chars P s = true -> Spec.all_chars P (Json.drop n s) = true.
Proof.
  revert s. induction n as [|n IH]; intros [|a s]; try done.
  simpl. intros [_ Hs]%andb_true_iff. by apply IH.
Qed.

Lemma literal_keeps (lit : string) (v0 v : json) (s rest : string) :
  literal lit v0 s = Some (v, rest) ->
  Spec.all_chars P s = true -> Spec.all_chars P rest = true.
Proof.
  unfold literal. destruct (String.prefix lit s); [|discriminate].
  intros [= _ <-]. apply drop_keeps.
Qed.

Lemma parse_keeps (f : nat) :
  (forall s v rest,
      parse_value f s = Some (v, rest) ->
      Spec.all_chars P s = true -> Spec.all_chars P rest = true)
  /\ (forall s acc v rest,
         parse_members f s acc = Some (v, rest) ->
         Spec.all_chars P s = true -> Spec.all_chars P rest = true)
  /\ (forall s acc v rest,
         parse_elements f s acc = Some (v, rest) ->
         Spec.all_chars P s = true -> Spec.all_chars P rest = true).
Proof.
  induction f as [|f (IHv & IHm & IHe)]; [by split_and!|].
  split_and!.
  - intros s v rest. cbn [parse_value].
    destruct s as [|c r]; [discriminate|].
    intros H Hs. pose proof Hs as [Hc Hr]%andb_true_iff.
    destruct (Ascii.eqb c dquote).
    { destruct (scan_string r) as [[t rest']|] eqn:E; [|discriminate].
      injection H as _ <-. by eapply scan_string_keeps. }
    destruct (Ascii.eqb c "{").
    { pose proof (skip_ws_keeps r Hr) as Hw.
      destruct (skip_ws r) as [|c1 r1]; [discriminate|].
      destruct (Ascii.eqb c1 "}").
      - injection H as _ <-. simpl in Hw. by apply andb_true_iff in Hw as [_ ?].
      - by eapply IHm. }
    destruct (Ascii.eqb c "[").
    { pose proof (skip_ws_keeps r Hr) as Hw.
      destruct (skip_ws r) as [|c1 r1]; [discriminate|].
      destruct (Ascii.eqb c1 "]").
      - injection H as _ <-. simpl in Hw. by apply andb_true_iff in Hw as [_ ?].
      - by eapply IHe. }
    repeat (match type of H with
            | (if ?b then _ else _) = _ =>
                destruct b; [by eapply literal_keeps|]
            end).
    by eapply parse_number_keeps.
  - intros s acc v rest. cbn [parse_members].
    destruct s as [|c r]; [discriminate|].
    intros H Hs. pose proof Hs as [Hc Hr]%andb_true_iff.
    destruct (Ascii.eqb c dquote); [|discriminate].
    destruct (scan_string r) as [[k r1]|] eqn:E; [|discriminate].
    pose proof (scan_string_keeps _ _ _ _ (Nat.le_refl _) E Hr) as H1.
    pose proof (skip_ws_keeps r1 H1) as Hw1.
    destruct (skip_ws r1) as [|c2 r2]; [discriminate|].
    destruct (Ascii.eqb c2 ":"); [|discriminate].
    simpl in Hw1. apply andb_true_iff in Hw1 as [_ Hr2].
    destruct (parse_value f (skip_ws r2)) as [[v1 r3]|] eqn:Ev; [|discriminate].
    pose proof (IHv _ _ _ Ev (skip_ws_keeps r2 Hr2)) as H3.
    pose proof (skip_ws_keeps r3 H3) as Hw3.
    destruct (skip_ws r3) as [|c3 r4]; [discriminate|].
    simpl in Hw3. apply andb_true_iff in Hw3 as [_ Hr4].
    destruct (Ascii.eqb c3 ",").
    + eapply IHm; [exact H|]. by apply skip_ws_keeps.
    + destruct (Ascii.eqb c3 "}"); [|discriminate]. by injection H as _ <-.
  - intros s acc v rest. cbn [parse_elements]. intros H Hs.
    destruct (parse_value f s) as [[v1 r1]|] eqn:Ev; [|discriminate].
    pose proof (IHv _ _ _ Ev Hs) as H1.
    pose proof (skip_ws_keeps r1 H1) as Hw1.
    destruct (skip_ws r1) as [|c r2]; [discriminate|].
    simpl in Hw1. apply andb_true_iff in Hw1 as [_ Hr2].
    destruct (Ascii.eqb c ",").
    + eapply IHe; [exact H|]. by apply skip_ws_keeps.
    + destruct (Ascii.eqb c "]"); [|discriminate]. by injection H as _ <-.
Qed.

End Unread.

Section Truncated.

(** Without a closing brace no object is decoded. *)
Lemma parse_members_unclosed (f : nat) :
  forall s acc,
    Spec.all_chars Props.open_char s = true -> parse_members f s acc = None.
Proof.
  induction f as [|f IH]; intros s acc Hs; [done|].
  cbn [parse_members]. destruct s as [|c r]; [done|].
  pose proof Hs as [Hc Hr]%andb_true_iff.
  destruct (Ascii.eqb c dquote); [|done].
  destruct (scan_string r) as [[k r1]|] eqn:E; [|done].
  pose proof (scan_string_keeps _ _ _ _ _ (Nat.le_refl _) E Hr) as H1.
  pose proof (skip_ws_keeps _ r1 H1) as Hw1.
  destruct (skip_ws r1) as [|c2 r2]; [done|].
  destruct (Ascii.eqb c2 ":"); [|done].
  simpl in Hw1. apply andb_true_iff in Hw1 as [_ Hr2].
  destruct (parse_value f (skip_ws r2)) as [[v1 r3]|] eqn:Ev; [|done].
  destruct (parse_keeps Props.open_char f) as (IHv & _ & _).
  pose proof (IHv _ _ _ Ev (skip_ws_keeps _ r2 Hr2)) as H3.
  pose proof (skip_ws_keeps _ r3 H3) as Hw3.
  destruct (skip_ws r3) as [|c3 r4]; [done|].
  simpl in Hw3. apply andb_true_iff in Hw3 as [Hc3 Hr4].
  destruct (Ascii.eqb c3 ","); [apply IH; by apply skip_ws_keeps|].
  unfold Props.open_char in Hc3. apply negb_true_iff in Hc3. by rewrite Hc3.
Qed.

Lemma loads_unclosed (r : string) :
  Spec.all_chars Props.open_char r = true -> loads (String "{" r) = None.
Proof.
  intros Hr. unfold loads. cbn [skip_ws]. change (is_json_ws "{") with false.
  cbv iota. cbn [String.length parse_value].
  change (Ascii.eqb "{" dquote) with false. change (Ascii.eqb "{" "{") with true.
  cbv iota.
  pose proof (skip_ws_keeps _ r Hr) as Hw.
  destruct (skip_ws r) as [|c1 r1]; [done|].
  simpl in Hw. apply andb_true_iff in Hw as [Hc1 Hr1].
  pose proof Hc1 as Hc1'. unfold Props.open_char in Hc1'. apply negb_true_iff in Hc1'.
  rewrite Hc1'.
  rewrite parse_members_unclosed; [done|]. simpl. by rewrite Hc1, Hr1.
Qed.

Lemma prefix_of_body (cut rest body : string) (c : ascii) :
  cut +:+ rest = body +:+ str1 c -> rest <> EmptyString ->
  exists rest', body = cut +:+ rest'.
Proof.
  revert body. induction cut as [|a cut IH]; intros body H Hne; [by exists body|].
  destruct body as [|b body].
  - cbn [String.append str1] in H. injection H as _ H.
    destruct cut; [simpl in H; congruence|discriminate].
  - cbn [String.append] in H. injection H as <- H.
    destruct (IH body H Hne) as [rest' ->]. by exists rest'.
Qed.

Lemma solid_inv (a : ascii) :
  Props.solid a = true ->
  Spec.printable a = true /\ Props.open_char a = true /\ is_space a = false.
Proof.
  unfold Props.solid, Props.open_char. intros [[Hp Hs]%andb_true_iff Hb]%andb_true_iff.
  split_and!; try done.
  revert Hp Hs. clear. unfold Spec.printable, is_space. rewrite eqb_code.
  change (N_of_ascii " ") with 32%N. set (n := N_of_ascii a). clearbody n.
  intros Hp Hs.
  repeat match goal with
         | |- context [(?x <=? ?y)%N] => destruct (N.leb_spec x y)
         | |- context [(?x =? ?y)%N] => destruct (N.eqb_spec x y)
         | H : context [(?x <=? ?y)%N] |- _ => destruct (N.leb_spec x y)
         | H : context [(?x =? ?y)%N] |- _ => destruct (N.eqb_spec x y)
         end; simpl in *; try done; lia.
Qed.

Lemma strip_dense (s : string) :
  Spec.all_chars (fun a => negb (is_space a)) s = true -> strip s = s.
Proof.
  intros Hs. unfold strip.
  assert (Hr : forall s, Spec.all_chars (fun a => negb (is_space a)) s = true ->
                         rstrip s = s).
  { clear. induction s as [|a s IH]; [done|]. simpl.
    intros [Ha Hs]%andb_true_iff. rewrite (IH Hs).
    apply negb_true_iff in Ha. by rewrite Ha. }
  assert (E : lstrip s = s).
  { destruct s as [|a s]; [done|]. simpl in *.
    apply andb_true_iff in Hs as [Ha _].
    apply negb_true_iff in Ha. by rewrite Ha. }
  rewrite E. by apply Hr.
Qed.

Lemma solid_dense (s : string) :
  Spec.all_chars Props.solid s = true ->
  Spec.all_chars (fun a => negb (is_space a)) s = true.
Proof.
  apply all_chars_impl. intros a Ha. by destruct (solid_inv a Ha) as (_ & _ & ->).
Qed.

Lemma lines_from_printable (s cur : string) :
  Spec.all_chars Spec.printable s = true ->
  LogReader.lines_from cur s
  = if is_empty (cur +:+ s) then [] else [cur +:+ s].
Proof.
  revert cur. induction s as [|a s IH]; intros cur Hs.
  - simpl. by rewrite append_nil_r.
  - simpl in Hs. apply andb_true_iff in Hs as [Ha Hs].
    destruct (printable_inv a Ha) as [H1 H2].
    cbn [LogReader.lines_from]. rewrite H1, H2, (IH _ Hs), append_assoc.
    reflexivity.
Qed.

Lemma stamp_solid (a : ascii) : Spec.stamp_char a = true -> Props.solid a = true.
Proof.
  unfold Spec.stamp_char, Props.solid, Spec.printable, is_digit, digit_val.
  rewrite !eqb_code.
  change (N_of_ascii "-") with 45%N. change (N_of_ascii "T") with 84%N.
  change (N_of_ascii ":") with 58%N. change (N_of_ascii ".") with 46%N.
  change (N_of_ascii " ") with 32%N. change (N_of_ascii "}") with 125%N.
  set (n := N_of_ascii a). clearbody n.
  repeat match goal with
         | |- context [(?x <=? ?y)%N] => destruct (N.leb_spec x y)
         | |- context [(?x =? ?y)%N] => destruct (N.eqb_spec x y)
         end; simpl; intros; try discriminate; try reflexivity; lia.
Qed.

Lemma pin_field_solid (o : option Z) :
  Spec.all_chars Props.solid (Spec.pin_field o) = true.
Proof.
  destruct o as [z|]; [|reflexivity]. unfold Spec.pin_field, Zdecimal.
  assert (H : forall n, Spec.all_chars Props.solid (decimal n) = true).
  { intros n. apply (all_chars_impl Spec.stamp_char); [apply stamp_solid|].
    apply stamp_digits. }
  destruct (z <? 0); simpl; by rewrite H.
Qed.

Lemma record_open_solid (t : datetime) (o4 o5 o6 o7 : option Z) :
  valid t = true ->
  Spec.all_chars Props.solid (Spec.record_open (AppendLog.now_iso_utc t) o4 o5 o6 o7)
  = true.
Proof.
  intros Hv. unfold Spec.record_open.
  rewrite !all_chars_app, !pin_field_solid, (now_iso_utc_body t Hv), all_chars_app.
  by rewrite (all_chars_impl _ _ _ stamp_solid (stamp_body t Hv)).
Qed.

(** The records of a run, then whatever follows them in the file. *)
Lemma read_lines_then (samples : list (PinStates * datetime)) (tail : string) :
  Forall (fun sn => valid sn.2 = true) samples ->
  LogReader.read_lines None (LogReader.file_lines (Spec.lines_of samples +:+ tail))
  = map Spec.expected samples
    ++ LogReader.read_lines None (LogReader.file_lines tail).
Proof.
  unfold LogReader.file_lines.
  induction 1 as [|[ps now] samples Hv _ IH]; [reflexivity|].
  cbn [Spec.lines_of map]. unfold Spec.record_line at 1.
  rewrite record_then_tail, !append_assoc. cbn [str1 String.append].
  rewrite lines_from_line
    by (apply record_printable; by apply now_iso_utc_plain).
  cbn [String.append]. rewrite <- record_then_tail.
  fold (Spec.record_line (AppendLog.now_iso_utc now) (d4 ps) (d5 ps) (d6 ps) (d7 ps)).
  rewrite read_lines_line by done. by rewrite IH.
Qed.

End Truncated.

(** X13. A log that ends in the middle of a record, as after a crash
    during a write, reads back as the complete records before it: the
    cut record, any proper part of a record's text from its start, is
    passed over. A last record that lacks only its newline is read. *)
Theorem truncated_record_is_ignored (minus_seconds : datetime -> Z -> datetime)
  (samples : list (PinStates * datetime)) (ps : PinStates) (t now : datetime)
  (since : option Z) (cut rest : string) :
  Forall (fun sn => valid sn.2 = true) samples ->
  valid t = true ->
  Spec.record_then EmptyString (AppendLog.now_iso_utc t)
    (d4 ps) (d5 ps) (d6 ps) (d7 ps) = cut +:+ rest ->
  (rest <> EmptyString ->
   LogReader.read_ndjson minus_seconds (Spec.lines_of samples +:+ cut) since now
   = LogReader.read_ndjson minus_seconds (Spec.lines_of samples) since now)
  /\ (rest = EmptyString ->
      LogReader.read_ndjson minus_seconds (Spec.lines_of samples +:+ cut) since now
      = LogReader.read_ndjson minus_seconds
          (Spec.lines_of (samples ++ [(ps, t)])) since now).
Proof.
  intros Hvs Hv Hcut.
  assert (Hall : forall c content content',
            LogReader.read_lines None (LogReader.file_lines content)
            = LogReader.read_lines None (LogReader.file_lines content') ->
            LogReader.read_lines c (LogReader.file_lines content)
            = LogReader.read_lines c (LogReader.file_lines content')).
  { intros [c|] content content' H; [|done]. by rewrite !read_lines_cutoff, H. }
  split; intros Hrest; unfold LogReader.read_ndjson; f_equal; apply Hall.
  - rewrite read_lines_then, read_lines_of by done.
    rewrite <- (app_nil_r (map Spec.expected samples)) at 2. f_equal.
    rewrite record_then_open in Hcut.
    destruct (prefix_of_body _ _ _ _ (eq_sym Hcut) Hrest) as [rest' Hbody].
    pose proof (record_open_solid t (d4 ps) (d5 ps) (d6 ps) (d7 ps) Hv) as Hs.
    rewrite Hbody, all_chars_app in Hs. apply andb_true_iff in Hs as [Hs _].
    unfold LogReader.file_lines.
    rewrite lines_from_printable
      by (apply (all_chars_impl Props.solid); [intros a Ha; by apply solid_inv|done]).
    cbn [String.append]. destruct cut as [|c0 cut']; [done|].
    cbn [is_empty LogReader.read_lines]. rewrite (strip_dense _ (solid_dense _ Hs)).
    cbn [is_empty]. unfold LogReader.read_record.
    assert (Hc0 : c0 = "{"%char).
    { unfold Spec.record_open in Hbody. cbn [String.append] in Hbody.
      by injection Hbody as <- _. }
    subst c0. rewrite loads_unclosed; [done|].
    simpl in Hs.
    apply (all_chars_impl Props.solid); [intros a Ha; by apply solid_inv|done].
  - subst rest. rewrite append_nil_r in Hcut. subst cut.
    rewrite read_lines_then by done.
    rewrite read_lines_of
      by (apply Forall_app; split; [done|by repeat constructor]).
    rewrite map_app. f_equal. unfold LogReader.file_lines.
    rewrite lines_from_printable
      by (apply record_printable; by apply now_iso_utc_plain).
    cbn [String.append]. 
    assert (E : is_empty (Spec.record_then EmptyString (AppendLog.now_iso_utc t)
                            (d4 ps) (d5 ps) (d6 ps) (d7 ps)) = false) by reflexivity.
    rewrite E. cbn [LogReader.read_lines].
    assert (Hst : strip (Spec.record_then EmptyString (AppendLog.now_iso_utc t)
                           (d4 ps) (d5 ps) (d6 ps) (d7 ps))
                  = Spec.record_then EmptyString (AppendLog.now_iso_utc t)
                      (d4 ps) (d5 ps) (d6 ps) (d7 ps)).
    { rewrite record_then_open. apply strip_dense.
      rewrite all_chars_app, solid_dense by (by apply record_open_solid). done. }
    rewrite Hst, E, read_record_line by done. reflexivity.
Qed.

Lemma truncated_record_is_ignored_witness :
  let t1 := {| year := 2026; month := 1; day := 13; hour := 4; minute := 32;
               second := 10; microsecond := 123456 |} in
  let t2 := {| year := 2026; month := 1; day := 13; hour := 4; minute := 32;
               second := 11; microsecond := 0 |} in
  let s1 := ({| states := <[4 := 1]> ∅ |}, t1) in
  let ps := {| states := <[4 := 0]> ∅ |} in
  let record := Spec.record_then EmptyString (AppendLog.now_iso_utc t2)
                  (d4 ps) (d5 ps) (d6 ps) (d7 ps) in
  LogReader.read_ndjson Spec.no_window
    (Spec.lines_of [s1] +:+ String.substring 0 40 record) None t2
  = [Spec.expected s1].
Proof.
  intros t1 t2 s1 ps record.
  assert (Hv : Forall (fun sn : PinStates * datetime => valid sn.2 = true) [s1])
    by (repeat constructor).
  assert (Hcut : record = String.substring 0 40 record
                          +:+ String.substring 40 (String.length record - 40) record)
    by (vm_compute; reflexivity).
  destruct (truncated_record_is_ignored Spec.no_window [s1] ps t2 t2 None _ _
              Hv eq_refl Hcut) as [H _].
  etransitivity; [apply H; vm_compute; discriminate|].
  vm_compute. reflexivity.
Defined.


(** ** Floats and [downsample] *)

Section FloatFacts.
Import Float.
#[local] Open Scope N_scope.

Lemma rne_cases (p q : N) :
  q <> 0 ->
  exists k r, p = q * k + r /\ r < q
    /\ ((rne p q = k /\ 2 * r <= q) \/ (rne p q = k + 1 /\ q <= 2 * r)).
Proof.
  intros Hq. exists (p / q), (p mod q).
  pose proof (N.Div0.div_mod p q) as Hdm.
  pose proof (N.mod_upper_bound p q Hq) as Hr.
  unfold rne. set (k := p / q) in *. set (r := p mod q) in *. clearbody k r.
  split; [lia|]. split; [lia|].
  destruct (N.ltb_spec (2 * r) q); [left; lia|].
  destruct (N.ltb_spec q (2 * r)); [right; lia|].
  destruct (N.even k); [left|right]; lia.
Qed.

Lemma rne_upper (p q : N) : q <> 0 -> 2 * (rne p q * q) <= 2 * p + q.
Proof.
  intros Hq. destruct (rne_cases p q Hq) as (k & r & -> & Hr & [[-> H]|[-> H]]); nia.
Qed.

Lemma rne_lower (p q : N) : q <> 0 -> 2 * p <= 2 * (rne p q * q) + q.
Proof.
  intros Hq. destruct (rne_cases p q Hq) as (k & r & -> & Hr & [[-> H]|[-> H]]); nia.
Qed.

Lemma rne_le (p q b : N) : q <> 0 -> p <= b * q -> rne p q <= b.
Proof.
  intros Hq Hp. destruct (rne_cases p q Hq) as (k & r & -> & Hr & [[-> H]|[-> H]]).
  - nia.
  - assert (k < b) by nia. lia.
Qed.

Lemma rne_ge (p q a : N) : q <> 0 -> a * q <= p -> a <= rne p q.
Proof.
  intros Hq Hp. destruct (rne_cases p q Hq) as (k & r & -> & Hr & [[-> H]|[-> H]]); nia.
Qed.

Lemma rne_exact (k q : N) : q <> 0 -> rne (k * q) q = k.
Proof.
  intros Hq. apply N.le_antisymm; [apply rne_le|apply rne_ge]; lia.
Qed.

Lemma rne_mono (p1 p2 q : N) : q <> 0 -> p1 <= p2 -> rne p1 q <= rne p2 q.
Proof.
  intros Hq Hp. unfold rne.
  pose proof (N.Div0.div_mod p1 q) as Hd1.
  pose proof (N.mod_upper_bound p1 q Hq) as Hr1.
  pose proof (N.Div0.div_mod p2 q) as Hd2.
  pose proof (N.mod_upper_bound p2 q Hq) as Hr2.
  set (k1 := p1 / q) in *. set (r1 := p1 mod q) in *.
  set (k2 := p2 / q) in *. set (r2 := p2 mod q) in *.
  clearbody k1 r1 k2 r2.
  assert (Hk : k1 < k2 \/ (k1 = k2 /\ r1 <= r2)) by nia.
  destruct Hk as [Hk|[<- Hr]].
  - repeat case_match; lia.
  - destruct (N.ltb_spec (2 * r1) q), (N.ltb_spec (2 * r2) q),
      (N.ltb_spec q (2 * r1)), (N.ltb_spec q (2 * r2)); try lia;
      destruct (N.even k1); lia.
Qed.


(** The binade of [p / q]: its number of bits [L] above [2^-1074]. *)
Lemma binade (p q : N) :
  q <> 0 ->
  exists L : N,
    nearest p q = 2 ^ (L - 53) * rne (p * scale) (q * 2 ^ (L - 53))
    /\ p * scale < 2 ^ L * q
    /\ (L <> 0 -> 2 ^ (L - 1) * q <= p * scale).
Proof.
  intros Hq. unfold nearest.
  set (P := p * scale).
  pose proof (N.Div0.div_mod P q) as Hdm.
  pose proof (N.mod_upper_bound P q Hq) as Hr.
  pose proof (N.size_gt (P / q)) as Hgt.
  pose proof (N.size_le (P / q)) as Hle.
  set (y := P / q) in *. set (r := P mod q) in *. clearbody y r.
  exists (N.size y). set (L := N.size y) in *.
  split; [reflexivity|]. split.
  { set (T := 2 ^ L) in *. clearbody T. nia. }
  intros HL. replace L with (N.succ (L - 1)) in Hle by lia.
  rewrite N.pow_succ_r' in Hle. rewrite N.succ_double_spec in Hle.
  set (T := 2 ^ (L - 1)) in *. clearbody T.
  assert (T <= y) by lia. nia.
Qed.

Lemma pow2_pos (n : N) : 0 < 2 ^ n.
Proof. apply N.neq_0_lt_0. by apply N.pow_nonzero. Qed.

Lemma pow2_split (a b : N) : b <= a -> 2 ^ a = 2 ^ b * 2 ^ (a - b).
Proof. intros H. rewrite <- N.pow_add_r. f_equal. lia. Qed.

Lemma nearest_mono (p1 p2 q : N) :
  q <> 0 -> p1 <= p2 -> nearest p1 q <= nearest p2 q.
Proof.
  intros Hq Hp.
  destruct (binade p1 q Hq) as (L1 & -> & Hu1 & Hl1).
  destruct (binade p2 q Hq) as (L2 & -> & Hu2 & Hl2).
  assert (HP : p1 * scale <= p2 * scale) by nia.
  set (P1 := p1 * scale) in *. set (P2 := p2 * scale) in *. clearbody P1 P2.
  assert (HL : L1 <= L2).
  { destruct (N.le_gt_cases L1 L2) as [|Hgt]; [done|]. exfalso.
    assert (HL1 : L1 <> 0) by lia. specialize (Hl1 HL1).
    assert (Hpw : 2 ^ L2 <= 2 ^ (L1 - 1)) by (apply N.pow_le_mono_r; lia).
    nia. }
  destruct (N.eq_dec (L1 - 53) (L2 - 53)) as [He|He].
  - rewrite He. apply N.mul_le_mono_l. apply rne_mono; [|done].
    pose proof (pow2_pos (L2 - 53)). nia.
  - assert (HL2 : 53 < L2) by lia. assert (HL12 : L1 < L2) by lia.
    pose proof (pow2_pos (L1 - 53)) as Hg1. pose proof (pow2_pos (L2 - 53)) as Hg2.
    assert (H1 : rne P1 (q * 2 ^ (L1 - 53)) <= 2 ^ (L1 - (L1 - 53))).
    { apply rne_le; [nia|].
      rewrite (pow2_split L1 (L1 - 53)) in Hu1 by lia. nia. }
    assert (H2 : 2 ^ (L2 - 1 - (L2 - 53)) <= rne P2 (q * 2 ^ (L2 - 53))).
    { apply rne_ge; [nia|].
      specialize (Hl2 ltac:(lia)).
      rewrite (pow2_split (L2 - 1) (L2 - 53)) in Hl2 by lia. nia. }
    assert (Hv1 : 2 ^ (L1 - 53) * rne P1 (q * 2 ^ (L1 - 53)) <= 2 ^ L1).
    { rewrite (pow2_split L1 (L1 - 53)) by lia. by apply N.mul_le_mono_l. }
    assert (Hv2 : 2 ^ (L2 - 1) <= 2 ^ (L2 - 53) * rne P2 (q * 2 ^ (L2 - 53))).
    { rewrite (pow2_split (L2 - 1) (L2 - 53)) by lia. by apply N.mul_le_mono_l. }
    assert (Hpw : 2 ^ L1 <= 2 ^ (L2 - 1)) by (apply N.pow_le_mono_r; lia).
    lia.
Qed.


Lemma nearest_zero (q : N) : q <> 0 -> nearest 0 q = 0.
Proof.
  intros Hq. unfold nearest. rewrite N.mul_0_l, N.Div0.div_0_l.
  change (N.size 0 - 53) with 0. change (2 ^ 0) with 1.
  rewrite N.mul_1_l. apply N.le_antisymm; [apply rne_le|]; lia.
Qed.

(** A whole number below [2^53] is a double. *)
Lemma nearest_exact (k q : N) :
  q <> 0 -> k < 2 ^ 53 -> nearest (k * q) q = k * scale.
Proof.
  intros Hq Hk. destruct (binade (k * q) q Hq) as (L & -> & Hu & Hl).
  assert (Hu' : k * scale < 2 ^ L) by nia.
  assert (HL : L - 53 <= 1074).
  { destruct (N.le_gt_cases (L - 53) 1074) as [|Hgt]; [done|]. exfalso.
    assert (HL0 : L <> 0) by lia. specialize (Hl HL0).
    assert (Hpw : 2 ^ 1127 <= 2 ^ (L - 1)) by (apply N.pow_le_mono_r; lia).
    assert (Hs : k * scale < 2 ^ 1127).
    { change (2 ^ 1127) with (2 ^ 53 * scale).
      apply N.mul_lt_mono_pos_r; [reflexivity|done]. }
    set (T := 2 ^ (L - 1)) in *. clearbody T.
    set (U := 2 ^ 1127) in *. clearbody U. nia. }
  assert (Hsc : scale = 2 ^ (L - 53) * 2 ^ (1074 - (L - 53))).
  { unfold scale. by apply pow2_split. }
  set (g := 2 ^ (L - 53)) in *. set (h := 2 ^ (1074 - (L - 53))) in *.
  assert (Hg : 0 < g) by apply pow2_pos.
  replace (k * q * scale) with (k * h * (q * g)) by (rewrite Hsc; lia).
  rewrite rne_exact by lia. rewrite Hsc. lia.
Qed.

(** In the normal range the result is within one part in [2^53] above
    the quotient. *)
Lemma nearest_upper (p q : N) :
  q <> 0 -> q <= p ->
  nearest p q * q * 2 ^ 53 <= p * scale * (2 ^ 53 + 1).
Proof.
  intros Hq Hp. destruct (binade p q Hq) as (L & -> & Hu & Hl).
  assert (Hbig : 2 ^ 52 * q <= p * scale).
  { apply N.le_trans with (scale * q).
    - apply N.mul_le_mono_r. unfold scale. apply N.pow_le_mono_r; lia.
    - nia. }
  assert (HL : 52 < L).
  { destruct (N.le_gt_cases L 52) as [Hle|]; [|done]. exfalso.
    assert (Hpw : 2 ^ L <= 2 ^ 52) by (apply N.pow_le_mono_r; lia).
    set (T := 2 ^ L) in *. set (U := 2 ^ 52) in *.
    set (P := p * scale) in *. clearbody T U P. nia. }
  specialize (Hl ltac:(lia)).
  rewrite (pow2_split (L - 1) (L - 53)) in Hl by lia.
  replace (L - 1 - (L - 53)) with 52 in Hl by lia.
  set (g := 2 ^ (L - 53)) in *.
  assert (Hg : 0 < g) by apply pow2_pos.
  pose proof (rne_upper (p * scale) (q * g) ltac:(nia)) as HM.
  set (M := rne (p * scale) (q * g)) in *.
  set (P := p * scale) in *.
  change (2 ^ 53) with (2 * 2 ^ 52).
  set (U := 2 ^ 52) in *. clearbody g M P U. nia.
Qed.

(** In the normal range the result is within one part in [2^53] below
    the quotient. *)
Lemma nearest_lower (p q : N) :
  q <> 0 -> q <= p ->
  p * scale * 2 ^ 53 <= nearest p q * q * 2 ^ 53 + p * scale.
Proof.
  intros Hq Hp. destruct (binade p q Hq) as (L & -> & Hu & Hl).
  assert (Hbig : 2 ^ 52 * q <= p * scale).
  { apply N.le_trans with (scale * q).
    - apply N.mul_le_mono_r. unfold scale. apply N.pow_le_mono_r; lia.
    - nia. }
  assert (HL : 52 < L).
  { destruct (N.le_gt_cases L 52) as [Hle|]; [|done]. exfalso.
    assert (Hpw : 2 ^ L <= 2 ^ 52) by (apply N.pow_le_mono_r; lia).
    set (T := 2 ^ L) in *. set (U := 2 ^ 52) in *.
    set (P := p * scale) in *. clearbody T U P. nia. }
  specialize (Hl ltac:(lia)).
  rewrite (pow2_split (L - 1) (L - 53)) in Hl by lia.
  replace (L - 1 - (L - 53)) with 52 in Hl by lia.
  set (g := 2 ^ (L - 53)) in *.
  assert (Hg : 0 < g) by apply pow2_pos.
  pose proof (rne_lower (p * scale) (q * g) ltac:(nia)) as HM.
  set (M := rne (p * scale) (q * g)) in *.
  set (P := p * scale) in *.
  change (2 ^ 53) with (2 * 2 ^ 52).
  set (U := 2 ^ 52) in *. clearbody g M P U. nia.
Qed.

End FloatFacts.

(** The model of floats gives the machine's results. *)
Example float_model_matches_machine :
  forallb Hardware.agree Hardware.samples = true.
Proof. vm_compute. reflexivity. Qed.

Example downsample_small :
  Plot.downsample [10; 11; 12; 13; 14; 15; 16; 17; 18; 19] 4 = Ok [10; 12; 15; 19]
  /\ Plot.downsample [10; 11; 12] 1 = Ok [12]
  /\ Plot.downsample [10; 11; 12] 5 = Ok [10; 11; 12]
  /\ Plot.downsample [10; 11; 12] 0 = Ok [10; 11; 12].
Proof. split_and!; vm_compute; reflexivity. Qed.

Section DownsampleFacts.
Import Float Plot.

Lemma collect_ok {A B : Type} (f : A -> res plot_exn B) (g : A -> B) (l : list A) :
  Forall (fun a => f a = Ok (g a)) l -> collect f l = Ok (map g l).
Proof.
  induction 1 as [|a l Ha _ IH]; [done|]. simpl. by rewrite Ha, IH.
Qed.

Lemma top_scale : top = (scale * 2 ^ 1024)%N.
Proof. reflexivity. Qed.

Lemma scale_pos : (0 < scale)%N.
Proof. reflexivity. Qed.

(** The step [n / m] of a list longer than the number of points. *)
Lemma step_bounds (n m : N) :
  (0 < m)%N -> (m <= n)%N -> (n < 2 ^ 53)%N ->
  true_div n m = Some (nearest n m)
  /\ (nearest n m * m * 2 ^ 53 <= n * scale * (2 ^ 53 + 1))%N.
Proof.
  intros Hm Hmn Hn.
  pose proof (nearest_upper n m ltac:(lia) Hmn) as Hup.
  split; [|done]. unfold true_div, round.
  destruct (N.ltb_spec (nearest n m) top) as [|Hge]; [done|]. exfalso.
  rewrite top_scale in Hge. pose proof scale_pos as Hs.
  set (s := nearest n m) in *. clearbody s.
  assert (H2 : (2 * 2 ^ 53 <= 2 ^ 1024)%N) by (by vm_compute).
  assert (HK : (0 < 2 ^ 53)%N) by (by vm_compute).
  set (K := (2 ^ 53)%N) in *. set (T := (2 ^ 1024)%N) in *. set (S := scale) in *.
  clearbody K T S.
  assert (H3 : (s * K <= s * m * K)%N) by nia.
  assert (H4 : (n * S * (K + 1) <= 2 * n * S * K)%N) by nia.
  assert (H5 : (s <= 2 * n * S)%N).
  { apply (N.mul_le_mono_pos_r _ _ K); lia. }
  assert (H6 : (2 * n * S < 2 * K * S)%N) by nia.
  assert (H7 : (2 * K * S <= S * T)%N) by nia.
  lia.
Qed.

(** [int(i * step)] when the exact product is at most the whole number
    [b]. *)
Lemma index_at_le (s : float) (i b : N) :
  (i < 2 ^ 53)%N -> (b < 2 ^ 53)%N -> (i * s <= b * scale)%N ->
  index_at s (Z.of_N i)
  = Ok (Z.of_N (to_int (nearest (i * scale * s) (scale * scale))))
  /\ (to_int (nearest (i * scale * s) (scale * scale)) <= b)%N.
Proof.
  intros Hi Hb Hle. pose proof scale_pos as Hs.
  assert (Hq : (scale * scale)%N <> 0%N) by (vm_compute; discriminate).
  assert (Hx : (nearest (i * scale * s) (scale * scale) <= b * scale)%N).
  { rewrite <- (nearest_exact b (scale * scale) Hq Hb).
    apply nearest_mono; [done|]. 
    set (S := scale) in *. clearbody S. nia. }
  split.
  - unfold index_at, of_int, round. rewrite N2Z.id.
    assert (Hi1 : nearest i 1 = (i * scale)%N).
    { pose proof (nearest_exact i 1 ltac:(lia) Hi) as E.
      by rewrite N.mul_1_r in E. }
    rewrite Hi1.
    assert (Hit : (i * scale <? top)%N = true).
    { apply N.ltb_lt. rewrite top_scale.
      assert ((2 ^ 53 <= 2 ^ 1024)%N) by (by vm_compute).
      set (S := scale) in *. set (K := (2 ^ 53)%N) in *. set (T := (2 ^ 1024)%N) in *.
      clearbody S K T. nia. }
    rewrite Hit. unfold mul, round.
    assert (Hxt : (nearest (i * scale * s) (scale * scale) <? top)%N = true).
    { apply N.ltb_lt. rewrite top_scale.
      assert ((2 ^ 53 <= 2 ^ 1024)%N) by (by vm_compute).
      set (x := nearest _ _) in *.
      set (S := scale) in *. set (K := (2 ^ 53)%N) in *. set (T := (2 ^ 1024)%N) in *.
      clearbody x S K T. nia. }
    by rewrite Hxt.
  - unfold to_int. apply N.Div0.div_le_upper_bound. lia.
Qed.

Lemma ixN_mono (s : float) (i j : N) : (i <= j)%N -> (ixN s i <= ixN s j)%N.
Proof.
  intros Hij. unfold ixN, to_int. apply N.Div0.div_le_mono.
  apply nearest_mono; [by vm_compute|].
  apply N.mul_le_mono_r, N.mul_le_mono_r, Hij.
Qed.

Lemma ixN_zero (s : float) : ixN s 0 = 0%N.
Proof.
  unfold ixN, to_int. rewrite !N.mul_0_l, nearest_zero by (by vm_compute).
  apply N.Div0.div_0_l.
Qed.

Lemma ix_facts (n m : N) :
  (0 < m)%N -> (m < n)%N -> (n < 2 ^ 53)%N ->
  true_div n m = Some (nearest n m)
  /\ (forall i, (i < m)%N ->
        index_at (nearest n m) (Z.of_N i) = Ok (Z.of_N (ixN (nearest n m) i)))
  /\ (forall i, (i + 1 < m)%N -> (ixN (nearest n m) i < n)%N).
Proof.
  intros Hm Hmn Hn.
  destruct (step_bounds n m Hm ltac:(lia) Hn) as [Hdiv Hup].
  set (s := nearest n m) in *. clearbody s.
  assert (HK : (0 < 2 ^ 53)%N) by (by vm_compute).
  pose proof scale_pos as HS.
  split_and!; [done| |].
  - intros i Hi.
    refine (proj1 (index_at_le s i n ltac:(lia) Hn _)).
    set (K := (2 ^ 53)%N) in *. set (S := scale) in *. clearbody K S.
    assert (H1 : (i * (s * m * K) <= i * (n * S * (K + 1)))%N)
      by (by apply N.mul_le_mono_l).
    assert (H2 : (i * (K + 1) <= m * K)%N) by nia.
    assert (H3 : (n * S * (i * (K + 1)) <= n * S * (m * K))%N)
      by (by apply N.mul_le_mono_l).
    apply (N.mul_le_mono_pos_r _ _ (m * K)); [nia|]. lia.
  - intros i Hi.
    assert (Hb : (n - 1 < 2 ^ 53)%N) by lia.
    assert (Hi' : (i < 2 ^ 53)%N) by lia.
    apply N.le_lt_trans with (n - 1)%N; [|lia].
    refine (proj2 (index_at_le s i (n - 1) Hi' Hb _)). clear Hi' Hb.
    assert (Hn1 : exists n1, n = (n1 + 1)%N) by (exists (n - 1)%N; lia).
    destruct Hn1 as [n1 ->]. replace (n1 + 1 - 1)%N with n1 by lia.
    set (K := (2 ^ 53)%N) in *. set (S := scale) in *. clearbody K S.
    assert (H1 : (i * (s * m * K) <= i * ((n1 + 1) * S * (K + 1)))%N)
      by (by apply N.mul_le_mono_l).
    assert (Ha : (m * K <= (n1 + 1) * K)%N) by nia.
    assert (Hc : (i * (n1 + 1) <= K * (n1 + 1))%N) by nia.
    assert (Hd : (i * ((n1 + 1) * K) + 2 * ((n1 + 1) * K) <= m * ((n1 + 1) * K))%N).
    { replace (i * ((n1 + 1) * K) + 2 * ((n1 + 1) * K))%N
        with ((i + 2) * ((n1 + 1) * K))%N by lia.
      apply N.mul_le_mono_r. lia. }
    assert (H2 : (i * (n1 + 1) * (K + 1) + m * K <= (n1 + 1) * m * K)%N) by lia.
    assert (H2' : (i * (n1 + 1) * (K + 1) <= n1 * (m * K))%N) by lia.
    assert (H3 : (S * (i * (n1 + 1) * (K + 1)) <= S * (n1 * (m * K)))%N)
      by (by apply N.mul_le_mono_l).
    apply (N.mul_le_mono_pos_r _ _ (m * K)); [nia|]. lia.
Qed.

Lemma range_snoc (k : Z) : 0 < k -> range k = range (k - 1) ++ [k - 1].
Proof.
  intros Hk. unfold range.
  replace (Z.to_nat k) with (S (Z.to_nat (k - 1))) by lia.
  rewrite seq_S, map_app. simpl. do 2 f_equal. lia.
Qed.

Lemma fix_last (l : list Z) (x v : Z) :
  match last (l ++ [x]) with
  | Some l0 => if l0 =? v then l ++ [x] else set_last (l ++ [x]) v
  | None => l ++ [x]
  end = l ++ [v].
Proof.
  rewrite last_snoc. destruct (Z.eqb_spec x v) as [->|_]; [done|].
  unfold set_last. rewrite removelast_last. by destruct l.
Qed.

Lemma collect_items {A : Type} (samples : list A) (idx : list nat) :
  Forall (fun i => (i < length samples)%nat) idx ->
  exists out, collect (item samples) (map Z.of_nat idx) = Ok out
              /\ Forall2 (fun i x => samples !! i = Some x) idx out.
Proof.
  induction 1 as [|i idx Hi _ (out & IH & Hall)]; [by exists []|].
  destruct (lookup_lt_is_Some_2 samples i Hi) as [x Hx].
  exists (x :: out). split; [|by constructor].
  cbn [map collect]. unfold item at 1.
  destruct (Z.ltb_spec (Z.of_nat i) 0) as [|_]; [lia|].
  destruct (Z.ltb_spec (Z.of_nat i) 0) as [|_]; [lia|].
  by rewrite Nat2Z.id, Hx, IH.
Qed.

Lemma downsample_kept {A : Type} (samples : list A) (max_points : Z) :
  0 < max_points < Z.of_nat (length samples) ->
  Z.of_nat (length samples) < 2 ^ 53 ->
  exists out,
    downsample samples max_points = Ok out
    /\ Forall2 (fun i x => samples !! i = Some x)
               (kept (length samples) (Z.to_nat max_points)) out.
Proof.
  intros Hm Hn. unfold downsample.
  destruct (Z.leb_spec max_points 0) as [|_]; [lia|].
  destruct (Z.leb_spec (Z.of_nat (length samples)) max_points) as [|_]; [lia|].
  cbn [orb].
  set (n := length samples) in *. set (m := Z.to_nat max_points).
  assert (Hn' : (N.of_nat n < 2 ^ 53)%N).
  { apply N2Z.inj_lt. rewrite nat_N_Z. exact Hn. }
  destruct (ix_facts (N.of_nat n) (N.of_nat m) ltac:(lia) ltac:(lia) Hn')
    as (Hdiv & Hidx & Hlt).
  replace (Z.to_N (Z.of_nat n)) with (N.of_nat n) by lia.
  replace (Z.to_N max_points) with (N.of_nat m) by lia.
  rewrite Hdiv. set (s := nearest (N.of_nat n) (N.of_nat m)) in *.
  rewrite (collect_ok _ (fun z => Z.of_N (ixN s (Z.to_N z)))).
  2:{ apply Forall_forall. intros z Hz. unfold range in Hz.
      apply list_elem_of_fmap in Hz as (k & -> & Hk). apply elem_of_seq in Hk.
      cbv beta. rewrite <- nat_N_Z, N2Z.id. apply Hidx. lia. }
  rewrite range_snoc, map_app by lia. cbn [map]. rewrite fix_last.
  assert (Hkept : map (fun z : Z => Z.of_N (ixN s (Z.to_N z))) (range (max_points - 1))
                  ++ [Z.of_nat n - 1] = map Z.of_nat (kept n m)).
  { unfold kept, range. rewrite map_app, !map_map. cbn [map].
    replace (Z.to_nat (max_points - 1)) with (m - 1)%nat by lia.
    f_equal; [|f_equal; lia].
    apply map_ext. intros k. fold s. rewrite N_nat_Z. do 2 f_equal. lia. }
  rewrite Hkept. apply collect_items.
  unfold kept. apply Forall_app. split.
  - apply Forall_forall. intros i Hi.
    apply list_elem_of_fmap in Hi as (k & -> & Hk). apply elem_of_seq in Hk.
    pose proof (Hlt (N.of_nat k) ltac:(lia)). fold s. fold n. lia.
  - repeat constructor. fold n. lia.
Qed.

Lemma kept_length (n m : nat) : (0 < m)%nat -> length (kept n m) = m.
Proof.
  intros Hm. unfold kept. rewrite length_app, length_map, length_seq.
  simpl. lia.
Qed.

Lemma kept_last (n m : nat) : last (kept n m) = Some (n - 1)%nat.
Proof. unfold kept. apply last_snoc. Qed.

Lemma kept_head (n m : nat) : (1 < m)%nat -> head (kept n m) = Some 0%nat.
Proof.
  intros Hm. unfold kept.
  replace (m - 1)%nat with (S (m - 2)) by lia.
  cbn [seq map app head]. change (N.of_nat 0) with 0%N.
  by rewrite ixN_zero.
Qed.

Lemma kept_sorted (n m : nat) (i j a b : nat) :
  (0 < m < n)%nat -> (N.of_nat n < 2 ^ 53)%N -> (i <= j)%nat ->
  kept n m !! i = Some a -> kept n m !! j = Some b -> (a <= b)%nat.
Proof.
  intros Hm Hn Hij Ha Hb.
  destruct (ix_facts (N.of_nat n) (N.of_nat m) ltac:(lia) ltac:(lia) Hn)
    as (_ & _ & Hlt).
  unfold kept in Ha, Hb.
  set (f := fun k => N.to_nat (ixN _ (N.of_nat k))) in *.
  assert (Hf : forall k x, map f (seq 0 (m - 1)) !! k = Some x ->
                 (k < m - 1)%nat /\ x = f k).
  { intros k x Hk. apply list_lookup_fmap_Some in Hk as (y & -> & Hy).
    apply lookup_seq in Hy as [-> ?]. done. }
  apply lookup_app_Some in Ha as [Ha|[Hla Ha]];
    apply lookup_app_Some in Hb as [Hb|[Hlb Hb]].
  - apply Hf in Ha as [_ ->]. apply Hf in Hb as [_ ->]. unfold f.
    pose proof (ixN_mono (nearest (N.of_nat n) (N.of_nat m))
                  (N.of_nat i) (N.of_nat j) ltac:(lia)). lia.
  - apply Hf in Ha as [Hi ->]. apply list_lookup_singleton_Some in Hb as [_ <-].
    pose proof (Hlt (N.of_nat i) ltac:(lia)). unfold f. lia.
  - apply Hf in Hb as [Hj _]. rewrite length_map, length_seq in Hla. lia.
  - apply list_lookup_singleton_Some in Ha as [_ <-].
    apply list_lookup_singleton_Some in Hb as [_ <-]. done.
Qed.

End DownsampleFacts.

(** X14. [downsample] never raises on a list of fewer than [2^53]
    samples. With [max_points <= 0] or at least as many points as
    samples it returns the list itself; otherwise it returns exactly
    [max_points] samples, read at positions that never go backwards,
    the last of which is the last sample, and, when more than one point
    is asked for, the first of which is the first sample. *)
Theorem downsample_keeps_order_and_ends {A : Type} (samples : list A) (max_points : Z) :
  Z.of_nat (length samples) < 2 ^ 53 ->
  exists out,
    Plot.downsample samples max_points = Ok out
    /\ (max_points <= 0 \/ Z.of_nat (length samples) <= max_points -> out = samples)
    /\ (0 < max_points < Z.of_nat (length samples) ->
        exists idx : list nat,
          Forall2 (fun i x => samples !! i = Some x) idx out
          /\ length out = Z.to_nat max_points
          /\ (forall i j a b, (i <= j)%nat ->
                idx !! i = Some a -> idx !! j = Some b -> (a <= b)%nat)
          /\ last out = last samples
          /\ (1 < max_points -> head out = head samples)).
Proof.
  intros Hn.
  destruct (Z.leb_spec max_points 0) as [Hm0|Hm0].
  { exists samples. unfold Plot.downsample.
    destruct (Z.leb_spec max_points 0) as [_|]; [|lia].
    split_and!; [done|done|lia]. }
  destruct (Z.leb_spec (Z.of_nat (length samples)) max_points) as [Hmn|Hmn].
  { exists samples. unfold Plot.downsample.
    destruct (Z.leb_spec (Z.of_nat (length samples)) max_points) as [_|]; [|lia].
    rewrite orb_true_r. split_and!; [done|done|lia]. }
  destruct (downsample_kept samples max_points ltac:(lia) Hn) as (out & Hout & Hall).
  exists out. split_and!; [done|lia|]. intros _.
  set (n := length samples) in *. set (m := Z.to_nat max_points) in *.
  assert (Hlen : length out = m).
  { rewrite <- (Forall2_length _ _ _ Hall). apply kept_length. lia. }
  exists (Plot.kept n m). split_and!; [done|done| | |].
  - intros i j a b. apply kept_sorted; [lia|].
    apply N2Z.inj_lt. rewrite nat_N_Z. exact Hn.
  - pose proof (kept_last n m) as Hl. unfold Plot.kept in Hl, Hall.
    apply Forall2_app_inv_l in Hall as (o1 & o2 & _ & Hlast & ->).
    apply Forall2_cons_inv_l in Hlast as (x & o3 & Hx & Hnil & ->).
    apply Forall2_nil_inv_l in Hnil as ->.
    rewrite last_snoc, last_lookup, <- Hx. fold n. f_equal. lia.
  - intros Hm1. pose proof (kept_head n m ltac:(lia)) as Hh.
    destruct (Plot.kept n m) as [|i0 idx]; [done|]. injection Hh as ->.
    apply Forall2_cons_inv_l in Hall as (x & o3 & Hx & _ & ->).
    simpl. by rewrite <- Hx, head_lookup.
Qed.

Lemma downsample_keeps_order_and_ends_witness :
  Z.of_nat (length [10; 11; 12; 13; 14; 15; 16; 17; 18; 19]) < 2 ^ 53
  /\ exists out,
    Plot.downsample [10; 11; 12; 13; 14; 15; 16; 17; 18; 19] 4 = Ok out
    /\ (4 <= 0 \/ Z.of_nat (length [10; 11; 12; 13; 14; 15; 16; 17; 18; 19]) <= 4
        -> out = [10; 11; 12; 13; 14; 15; 16; 17; 18; 19])
    /\ (0 < 4 < Z.of_nat (length [10; 11; 12; 13; 14; 15; 16; 17; 18; 19]) ->
        exists idx : list nat,
          Forall2 (fun i x => [10; 11; 12; 13; 14; 15; 16; 17; 18; 19] !! i = Some x) idx out
          /\ length out = Z.to_nat 4
          /\ (forall i j a b, (i <= j)%nat ->
                idx !! i = Some a -> idx !! j = Some b -> (a <= b)%nat)
          /\ last out = last [10; 11; 12; 13; 14; 15; 16; 17; 18; 19]
          /\ (1 < 4 -> head out = head [10; 11; 12; 13; 14; 15; 16; 17; 18; 19])).
Proof.
  split; [reflexivity|].
  apply (downsample_keeps_order_and_ends [10; 11; 12; 13; 14; 15; 16; 17; 18; 19] 4).
  reflexivity.
Defined.

Section DownsampleStrict.
Import Float Plot.

(** With [n * (m + 1) <= 2^53] consecutive positions differ. *)
Lemma ix_strict (n m : N) :
  (0 < m)%N -> (m < n)%N -> (n * (m + 1) <= 2 ^ 53)%N ->
  (forall i, (i + 1 < m)%N ->
     (ixN (nearest n m) i + 1 <= ixN (nearest n m) (i + 1))%N)
  /\ (forall i, (i + 1 < m)%N -> (ixN (nearest n m) i + 1 < n)%N).
Proof.
  intros Hm Hmn Hnm.
  assert (Hn : (n < 2 ^ 53)%N) by nia.
  destruct (step_bounds n m Hm ltac:(lia) Hn) as [_ Hup].
  pose proof (nearest_lower n m ltac:(lia) ltac:(lia)) as Hlo.
  assert (Hs1 : (scale <= nearest n m)%N).
  { rewrite <- (N.mul_1_l scale).
    rewrite <- (nearest_exact 1 m ltac:(lia) ltac:(by vm_compute)).
    apply nearest_mono; lia. }
  set (s := nearest n m) in *. clearbody s.
  assert (HK : (0 < 2 ^ 53)%N) by (by vm_compute).
  pose proof scale_pos as HS.
  assert (Hq : (scale * scale)%N <> 0%N) by (vm_compute; discriminate).
  assert (His : forall i, (i < m)%N -> (i * s <= n * scale)%N).
  { intros i Hi.
    set (K := (2 ^ 53)%N) in *. set (S := scale) in *. clearbody K S.
    assert (H1 : (i * (s * m * K) <= i * (n * S * (K + 1)))%N)
      by (by apply N.mul_le_mono_l).
    assert (H2 : (i * (K + 1) <= m * K)%N) by nia.
    assert (H3 : (n * S * (i * (K + 1)) <= n * S * (m * K))%N)
      by (by apply N.mul_le_mono_l).
    apply (N.mul_le_mono_pos_r _ _ (m * K)); [nia|]. lia. }
  split.
  - intros i Hi. unfold ixN, to_int.
    set (F := nearest (i * scale * s) (scale * scale)).
    assert (HF : (F * 2 ^ 53 <= i * s * (2 ^ 53 + 1))%N).
    { destruct (N.eq_dec i 0%N) as [->|Hi0].
      - subst F. rewrite (N.mul_0_l scale), (N.mul_0_l s), nearest_zero by done. lia.
      - pose proof (nearest_upper (i * scale * s) (scale * scale) Hq) as HU.
        fold F in HU.
        assert (Hge : (scale * scale <= i * scale * s)%N).
        { clear - Hs1 Hi0 HS. set (S := scale) in *. clearbody S.
          assert (H1 : (1 * S * S <= i * S * s)%N).
          { apply N.mul_le_mono; [|done]. apply N.mul_le_mono_r. lia. }
          lia. }
        specialize (HU Hge).
        set (K := (2 ^ 53)%N) in *. set (S := scale) in *. clearbody K S F.
        apply (N.mul_le_mono_pos_r _ _ (S * S)); [nia|]. lia. }
    pose proof (N.Div0.mul_div_le F scale) as Hk.
    set (k := (F / scale)%N) in *. clearbody k.
    pose proof (His i ltac:(lia)) as Hisn.
    assert (Hkn : (k <= n)%N).
    { set (K := (2 ^ 53)%N) in *. set (S := scale) in *. clearbody K S F.
      assert (Hx : (S * k * K <= n * S * (K + 1))%N) by nia.
      destruct (N.le_gt_cases k n) as [|Hgt]; [done|]. exfalso.
      assert (Hy : (S * (n + 1) * K <= S * k * K)%N).
      { apply N.mul_le_mono_r, N.mul_le_mono_l. lia. }
      nia. }
    assert (Hgoal : ((k + 1) * scale <= (i + 1) * s)%N).
    { set (K := (2 ^ 53)%N) in *. set (S := scale) in *. clearbody K S F.
      assert (Ha : (i * s * m + K * S * m <= K * s * m)%N).
      { assert (Ha1 : (i * s * m <= n * S * m)%N) by (by apply N.mul_le_mono_r).
        assert (Ha2 : (n * m + K * m + n <= n * K)%N) by nia.
        assert (Ha3 : (S * (n * m + K * m + n) <= S * (n * K))%N)
          by (by apply N.mul_le_mono_l).
        lia. }
      assert (Hb : (i * s + K * S <= K * s)%N).
      { apply (N.mul_le_mono_pos_r _ _ m); [lia|]. lia. }
      apply (N.mul_le_mono_pos_r _ _ K); [lia|]. nia. }
    apply N.le_trans with ((k + 1) * scale / scale)%N.
    { rewrite N.div_mul by lia. lia. }
    apply N.Div0.div_le_mono.
    assert (Hk53 : (k + 1 < 2 ^ 53)%N) by nia.
    rewrite <- (nearest_exact (k + 1) (scale * scale) Hq Hk53).
    apply nearest_mono; [done|].
    set (S := scale) in *. clearbody S. nia.
  - intros i Hi.
    assert (Hn2 : exists n2, n = (n2 + 2)%N) by (exists (n - 2)%N; lia).
    destruct Hn2 as [n2 ->].
    assert (Hi' : (i < 2 ^ 53)%N) by lia.
    assert (Hb : (n2 < 2 ^ 53)%N) by lia.
    enough (ixN s i <= n2)%N by lia.
    refine (proj2 (index_at_le s i n2 Hi' Hb _)). clear Hi' Hb.
    set (K := (2 ^ 53)%N) in *. set (S := scale) in *. clearbody K S.
    assert (H1 : (i * (s * m * K) <= i * ((n2 + 2) * S * (K + 1)))%N)
      by (by apply N.mul_le_mono_l).
    assert (Hd : ((i + 2) * ((n2 + 2) * (K + 1)) <= m * ((n2 + 2) * (K + 1)))%N).
    { apply N.mul_le_mono_r. lia. }
    assert (He : ((m + 1) * K <= (n2 + 2) * K)%N) by (apply N.mul_le_mono_r; lia).
    assert (H2 : (i * (n2 + 2) * (K + 1) <= n2 * (m * K))%N) by (clear - Hd He Hnm; lia).
    assert (H3 : (S * (i * (n2 + 2) * (K + 1)) <= S * (n2 * (m * K)))%N)
      by (by apply N.mul_le_mono_l).
    apply (N.mul_le_mono_pos_r _ _ (m * K)); [nia|]. lia.
Qed.

Lemma kept_strict (n m : nat) (i j a b : nat) :
  (0 < m < n)%nat -> (N.of_nat n * (N.of_nat m + 1) <= 2 ^ 53)%N -> (i < j)%nat ->
  kept n m !! i = Some a -> kept n m !! j = Some b -> (a < b)%nat.
Proof.
  intros Hm Hn Hij Ha Hb.
  destruct (ix_strict (N.of_nat n) (N.of_nat m) ltac:(lia) ltac:(lia) Hn)
    as (Hstep & Hlt).
  unfold kept in Ha, Hb.
  set (f := fun k => N.to_nat (ixN _ (N.of_nat k))) in *.
  assert (Hf : forall k x, map f (seq 0 (m - 1)) !! k = Some x ->
                 (k < m - 1)%nat /\ x = f k).
  { intros k x Hk. apply list_lookup_fmap_Some in Hk as (y & -> & Hy).
    apply lookup_seq in Hy as [-> ?]. done. }
  apply lookup_app_Some in Ha as [Ha|[Hla Ha]];
    apply lookup_app_Some in Hb as [Hb|[Hlb Hb]].
  - apply Hf in Ha as [_ ->]. apply Hf in Hb as [Hj ->]. unfold f.
    pose proof (Hstep (N.of_nat i) ltac:(lia)) as H1.
    pose proof (ixN_mono (nearest (N.of_nat n) (N.of_nat m))
                  (N.of_nat i + 1) (N.of_nat j) ltac:(lia)) as H2. lia.
  - apply Hf in Ha as [Hi ->]. apply list_lookup_singleton_Some in Hb as [_ <-].
    pose proof (Hlt (N.of_nat i) ltac:(lia)). unfold f. lia.
  - apply Hf in Hb as [Hj _]. rewrite length_map, length_seq in Hla. lia.
  - apply list_lookup_singleton_Some in Ha as [Hi _].
    apply list_lookup_singleton_Some in Hb as [Hj _]. lia.
Qed.

(** Elements read at strictly increasing positions form a sublist. *)
Lemma picked_sublist {A : Type} (idx : list nat) :
  forall (out l : list A) (base : nat),
    Forall2 (fun i x => (base <= i)%nat /\ l !! (i - base)%nat = Some x) idx out ->
    (forall i j a b, (i < j)%nat ->
       idx !! i = Some a -> idx !! j = Some b -> (a < b)%nat) ->
    sublist out l.
Proof.
  induction idx as [|i0 idx IH]; intros out l base Hall Hs.
  - apply Forall2_nil_inv_l in Hall as ->. apply sublist_nil_l.
  - apply Forall2_cons_inv_l in Hall as (x & out' & [Hb Hx] & Hall & ->).
    rewrite <- (take_drop_middle l (i0 - base) x Hx).
    apply sublist_inserts_l, sublist_skip.
    apply (IH _ _ (S i0)).
    + apply Forall2_same_length_lookup. split; [by eapply Forall2_length|].
      intros k a y Hk Hy.
      pose proof (Hs 0%nat (S k) i0 a ltac:(lia) eq_refl Hk) as Hlt.
      destruct (Forall2_lookup_lr _ _ _ _ _ _ Hall Hk Hy) as [_ Hl].
      split; [lia|]. rewrite lookup_drop, <- Hl. f_equal. lia.
    + intros i j a b Hij Ha Hb'. apply (Hs (S i) (S j) a b); [lia|done|done].
Qed.

End DownsampleStrict.

(** X15. When the number of samples times [max_points + 1] is at most
    [2^53], [downsample] returns a sublist of the samples: they keep
    their order and no sample is kept twice. *)
Theorem downsample_is_sublist {A : Type} (samples : list A) (max_points : Z) :
  Z.of_nat (length samples) * (max_points + 1) <= 2 ^ 53 ->
  exists out, Plot.downsample samples max_points = Ok out /\ sublist out samples.
Proof.
  intros Hn.
  destruct (Z.leb_spec max_points 0) as [Hm0|Hm0].
  { exists samples. unfold Plot.downsample.
    destruct (Z.leb_spec max_points 0) as [_|]; [|lia]. done. }
  destruct (Z.leb_spec (Z.of_nat (length samples)) max_points) as [Hmn|Hmn].
  { exists samples. unfold Plot.downsample.
    destruct (Z.leb_spec (Z.of_nat (length samples)) max_points) as [_|]; [|lia].
    by rewrite orb_true_r. }
  assert (Hn' : Z.of_nat (length samples) < 2 ^ 53).
  { set (K := 2 ^ 53) in *. clearbody K. nia. }
  destruct (downsample_kept samples max_points ltac:(lia) Hn') as (out & Hout & Hall).
  exists out. split; [done|].
  apply (picked_sublist (Plot.kept (length samples) (Z.to_nat max_points)) out samples 0).
  - eapply Forall2_impl; [exact Hall|]. intros i x Hx. cbv beta.
    rewrite Nat.sub_0_r. split; [lia|done].
  - intros i j a b. apply kept_strict; [lia|].
    apply N2Z.inj_le. rewrite N2Z.inj_mul, N2Z.inj_add, !nat_N_Z.
    rewrite Z2Nat.id by lia. exact Hn.
Qed.

Lemma downsample_is_sublist_witness :
  Z.of_nat (length [10; 11; 12; 13; 14; 15; 16; 17; 18; 19]) * (4 + 1) <= 2 ^ 53
  /\ exists out,
       Plot.downsample [10; 11; 12; 13; 14; 15; 16; 17; 18; 19] 4 = Ok out
       /\ sublist out [10; 11; 12; 13; 14; 15; 16; 17; 18; 19].
Proof.
  assert (H : Z.of_nat (length [10; 11; 12; 13; 14; 15; 16; 17; 18; 19]) * (4 + 1) <= 2 ^ 53)
    by (vm_compute; discriminate).
  exact (conj H (downsample_is_sublist [10; 11; 12; 13; 14; 15; 16; 17; 18; 19] 4 H)).
Defined.

(** ** The menu *)

Section MenuFacts.
Import Text Fmt.
Context (fmt1 : Z -> string) {W : Type}
  (get_status : W -> Service.Snapshot * W) (stop_service : W -> W).

Lemma calls_succ (n : nat) (st : W) :
  Menu.calls get_status n (get_status st).2 = Menu.calls get_status (S n) st.
Proof. unfold Menu.calls. by rewrite Nat.iter_succ_r. Qed.

Lemma refresh_calls (steps : nat) :
  forall pending st out,
    exists n more,
      Menu.refresh fmt1 get_status steps pending st out
      = (Menu.calls get_status n st, out ++ more).
Proof.
  induction steps as [|steps IH]; intros pending st out.
  - exists 0%nat, []. by rewrite app_nil_r.
  - destruct pending as [[|l rest]|]; cbn [Menu.refresh].
    + apply IH.
    + destruct (IH (Some rest) st (out ++ [l])) as (n & more & ->).
      exists n, (l :: more). by rewrite <- app_assoc.
    + destruct (get_status st) as [snap st'] eqn:E.
      destruct (IH (Some (Menu.print_status fmt1 snap)) st' out) as (n & more & ->).
      exists (S n), more. rewrite <- calls_succ. by rewrite E.
Qed.

Lemma run_menu_returns (pre : list Menu.answer) :
  forall (s : string) (post : list Menu.answer) (breaks : list nat) (st : W)
         (out : list string),
    forallb Menu.stays pre = true ->
    strip s = "3"%string ->
    (Menu.refreshes pre <= length breaks)%nat ->
    exists n more,
      Menu.run_menu fmt1 get_status stop_service
        (pre ++ Menu.Typed s :: post) breaks st out
      = (Menu.Returned, stop_service (Menu.calls get_status n st),
         out ++ more ++ ["Service stopped. Exiting."%string], post).
Proof.
  induction pre as [|a pre IH]; intros s post breaks st out Hpre Hs Hbr.
  - exists 0%nat, (Menu.menu_lines ++ [Menu.prompt]).
    cbn [app Menu.run_menu]. rewrite Hs. cbn [String.eqb Ascii.eqb Bool.eqb].
    by rewrite <- !app_assoc.
  - cbn [forallb] in Hpre. apply andb_true_iff in Hpre as [Ha Hpre].
    destruct a as [t| |]; try discriminate. cbn [Menu.stays] in Ha.
    apply negb_true_iff in Ha.
    cbn [app Menu.run_menu]. rewrite Ha.
    unfold Menu.refreshes in Hbr. cbn [List.filter Menu.chooses] in Hbr.
    set (out1 := out ++ Menu.menu_lines ++ [Menu.prompt]).
    destruct (String.eqb (strip t) "1") eqn:E1.
    + destruct (get_status st) as [snap st'] eqn:E.
      assert (E2 : String.eqb (strip t) "2" = false).
      { apply String.eqb_eq in E1. by rewrite E1. }
      rewrite E2 in Hbr.
      destruct (IH s post breaks st' (out1 ++ Menu.print_status fmt1 snap)
                  Hpre Hs Hbr) as (n & more & ->).
      exists (S n), (Menu.menu_lines ++ [Menu.prompt]
                     ++ Menu.print_status fmt1 snap ++ more).
      rewrite <- calls_succ, E. unfold out1. by rewrite <- !app_assoc.
    + destruct (String.eqb (strip t) "2") eqn:E2.
      * destruct breaks as [|k breaks]; [cbn [length] in Hbr; lia|].
        cbn [length] in Hbr.
        destruct (refresh_calls k None st
                    (out1 ++ ["Auto-refreshing. Press Ctrl+C to return to menu."%string]))
          as (n1 & more1 & ->).
        destruct (IH s post breaks (Menu.calls get_status n1 st)
                    ((out1 ++ ["Auto-refreshing. Press Ctrl+C to return to menu."%string])
                     ++ more1) Hpre Hs ltac:(fold (Menu.refreshes pre) in Hbr; lia))
          as (n & more & ->).
        exists (n + n1)%nat,
          (Menu.menu_lines ++ [Menu.prompt]
           ++ ["Auto-refreshing. Press Ctrl+C to return to menu."%string]
           ++ more1 ++ more).
        unfold Menu.calls. rewrite Nat.iter_add. fold (Menu.calls get_status n1 st).
        unfold out1. by rewrite <- !app_assoc.
      * destruct (IH s post breaks st (out1 ++ ["Unknown choice."%string])
                    Hpre Hs Hbr) as (n & more & ->).
        exists n, (Menu.menu_lines ++ [Menu.prompt] ++ ["Unknown choice."%string] ++ more).
        unfold out1. by rewrite <- !app_assoc.
Qed.

Lemma run_menu_no_stop (answers : list Menu.answer) :
  forall (breaks : list nat) (st : W) (out : list string),
    forallb (fun a => negb (Menu.chooses "3" a)) answers = true ->
    exists oc n more rest,
      Menu.run_menu fmt1 get_status stop_service answers breaks st out
      = (oc, Menu.calls get_status n st, out ++ more, rest)
      /\ oc <> Menu.Returned.
Proof.
  induction answers as [|a answers IH]; intros breaks st out Hall.
  - exists Menu.Waiting, 0%nat, (Menu.menu_lines ++ [Menu.prompt]), []. done.
  - cbn [forallb] in Hall. apply andb_true_iff in Hall as [Ha Hall].
    destruct a as [t| |].
    + cbn [Menu.chooses] in Ha. apply negb_true_iff in Ha.
      cbn [Menu.run_menu]. rewrite Ha.
      set (out1 := out ++ Menu.menu_lines ++ [Menu.prompt]).
      destruct (String.eqb (strip t) "1") eqn:E1.
      * destruct (get_status st) as [snap st'] eqn:E.
        destruct (IH breaks st' (out1 ++ Menu.print_status fmt1 snap) Hall)
          as (oc & n & more & rest & -> & Hoc).
        exists oc, (S n), (Menu.menu_lines ++ [Menu.prompt]
                          ++ Menu.print_status fmt1 snap ++ more), rest.
        rewrite <- calls_succ, E. unfold out1. by rewrite <- !app_assoc.
      * destruct (String.eqb (strip t) "2") eqn:E2.
        -- destruct breaks as [|k breaks].
           { exists Menu.Refreshing, 0%nat,
               (Menu.menu_lines ++ [Menu.prompt]
                ++ ["Auto-refreshing. Press Ctrl+C to return to menu."%string]),
               answers.
             unfold out1. by rewrite <- !app_assoc. }
           destruct (refresh_calls k None st
                       (out1 ++ ["Auto-refreshing. Press Ctrl+C to return to menu."%string]))
             as (n1 & more1 & ->).
           destruct (IH breaks (Menu.calls get_status n1 st)
                       ((out1 ++ ["Auto-refreshing. Press Ctrl+C to return to menu."%string])
                        ++ more1) Hall)
             as (oc & n & more & rest & -> & Hoc).
           exists oc, (n + n1)%nat,
             (Menu.menu_lines ++ [Menu.prompt]
              ++ ["Auto-refreshing. Press Ctrl+C to return to menu."%string]
              ++ more1 ++ more), rest.
           unfold Menu.calls. rewrite Nat.iter_add. fold (Menu.calls get_status n1 st).
           unfold out1. by rewrite <- !app_assoc.
        -- destruct (IH breaks st (out1 ++ ["Unknown choice."%string]) Hall)
             as (oc & n & more & rest & -> & Hoc).
           exists oc, n, (Menu.menu_lines ++ [Menu.prompt]
                          ++ ["Unknown choice."%string] ++ more), rest.
           unfold out1. by rewrite <- !app_assoc.
    + exists (Menu.Raised Menu.EOFError), 0%nat,
        (Menu.menu_lines ++ [Menu.prompt]), answers. done.
    + exists (Menu.Raised Menu.KeyboardInterrupt), 0%nat,
        (Menu.menu_lines ++ [Menu.prompt]), answers. done.
Qed.

End MenuFacts.

(** X16. [run_menu] ends by the choice 3 only, and calls [stop_service]
    exactly then. When the lines typed before a line that reads [3]
    (white space around it aside) select other things, and every
    auto-refresh among them is left by Ctrl+C, [run_menu] returns: the
    state is what [stop_service], called once and last, makes of the
    state left by the calls of [get_status], the last text printed is
    the farewell, and the lines after the [3] are not read. On answers
    that never select 3 (the input may end, Ctrl+C may be pressed at a
    prompt) [run_menu] does not return and only [get_status] has acted
    on the state. *)
Theorem run_menu_stops_on_3_only (fmt1 : Z -> string) {W : Type}
  (get_status : W -> Service.Snapshot * W) (stop_service : W -> W)
  (pre post answers : list Menu.answer) (s : string) (breaks : list nat)
  (st : W) (out : list string) :
  (forallb Menu.stays pre = true ->
   Text.strip s = "3"%string ->
   (Menu.refreshes pre <= length breaks)%nat ->
   exists n more,
     Menu.run_menu fmt1 get_status stop_service
       (pre ++ Menu.Typed s :: post) breaks st out
     = (Menu.Returned, stop_service (Menu.calls get_status n st),
        out ++ more ++ ["Service stopped. Exiting."%string], post))
  /\ (forallb (fun a => negb (Menu.chooses "3" a)) answers = true ->
      exists oc n more rest,
        Menu.run_menu fmt1 get_status stop_service answers breaks st out
        = (oc, Menu.calls get_status n st, out ++ more, rest)
        /\ oc <> Menu.Returned).
Proof.
  split.
  - apply run_menu_returns.
  - apply run_menu_no_stop.
Qed.

Lemma run_menu_stops_on_3_only_witness :
  let gs := fun k : nat => (Service.get_status (Service.new Menu.main_cfg) 0, S k) in
  (exists n more,
     Menu.run_menu Fmt.Zdecimal gs (fun k => (k + 100)%nat)
       ([Menu.Typed "1"; Menu.Typed "x"; Menu.Typed "2"]
        ++ Menu.Typed " 3 " :: [Menu.Typed "1"]) [14%nat] 0%nat []
     = (Menu.Returned, (Menu.calls gs n 0 + 100)%nat,
        [] ++ more ++ ["Service stopped. Exiting."%string], [Menu.Typed "1"]))
  /\ (exists oc n more rest,
        Menu.run_menu Fmt.Zdecimal gs (fun k => (k + 100)%nat)
          [Menu.Typed "1"; Menu.Typed "03"; Menu.CtrlC; Menu.Typed "1"]
          [14%nat] 0%nat []
        = (oc, Menu.calls gs n 0%nat, [] ++ more, rest)
        /\ oc <> Menu.Returned).
Proof.
  intros gs.
  destruct (run_menu_stops_on_3_only Fmt.Zdecimal gs (fun k => (k + 100)%nat)
              [Menu.Typed "1"; Menu.Typed "x"; Menu.Typed "2"] [Menu.Typed "1"]
              [Menu.Typed "1"; Menu.Typed "03"; Menu.CtrlC; Menu.Typed "1"]
              " 3 " [14%nat] 0%nat []) as [H1 H2].
  split.
  - apply H1; [reflexivity|reflexivity|vm_compute; lia].
  - apply H2. reflexivity.
Defined.

Section MainFacts.
Context (fmt1 : Z -> string) (view : nat -> Service.Status * bool)
  (clock : nat -> Z) (joined : Service.join_outcome).

Lemma calls_svc (n k : nat) (svc : Service.PinLoggingService) :
  Menu.calls (Menu.svc_get_status view clock) n (svc, k) = (svc, (n + k)%nat).
Proof.
  induction n as [|n IH]; [done|].
  change (Menu.calls (Menu.svc_get_status view clock) (S n) (svc, k))
    with ((Menu.svc_get_status view clock
             (Menu.calls (Menu.svc_get_status view clock) n (svc, k))).2).
  rewrite IH. reflexivity.
Qed.

End MainFacts.

(** X17. [main()] starts one worker and leaves the stopping to the menu.
    When the menu is left by the choice 3, [stop()] has been called
    once on the started service: the stop event is set, [_running] is
    cleared and no second worker was started; the worker has ended
    unless the join timed out. When no answer selects 3 (the input
    ends, or Ctrl+C is pressed at a prompt), [main()] does not return
    normally and the service is as [start()] left it: never asked to
    stop. *)
Theorem main_stops_the_service (fmt1 : Z -> string)
  (view : nat -> Service.Status * bool) (clock : nat -> Z)
  (joined : Service.join_outcome)
  (pre post answers : list Menu.answer) (s : string) (breaks : list nat) :
  let started := Service.start (Service.new Menu.main_cfg) in
  (forallb Menu.stays pre = true ->
   Text.strip s = "3"%string ->
   (Menu.refreshes pre <= length breaks)%nat ->
   exists k out,
     Menu.main fmt1 view clock joined (pre ++ Menu.Typed s :: post) breaks
     = (Menu.Returned, (Service.stop started joined, k), out, post)
     /\ Service._stop (Service.stop started joined) = true
     /\ Service._running (Service.locked (Service.stop started joined)) = false
     /\ Service.spawned (Service.stop started joined) = 1%nat
     /\ (forall st, joined = Service.Joined st ->
           Service.is_running (Service.stop started joined) = false))
  /\ (forallb (fun a => negb (Menu.chooses "3" a)) answers = true ->
      exists oc k out rest,
        Menu.main fmt1 view clock joined answers breaks
        = (oc, (started, k), out, rest)
        /\ oc <> Menu.Returned
        /\ Service._stop started = false
        /\ Service.is_running started = true).
Proof.
  intros started. split.
  - intros Hpre Hs Hbr. unfold Menu.main. fold started.
    destruct (run_menu_returns fmt1 (Menu.svc_get_status view clock)
                (Menu.svc_stop joined) pre s post breaks (started, 0%nat) []
                Hpre Hs Hbr) as (n & more & ->).
    rewrite calls_svc. exists (n + 0)%nat, ([] ++ more ++ ["Service stopped. Exiting."%string]).
    split_and!; [done| | | |].
    + by destruct joined.
    + by destruct joined.
    + by destruct joined.
    + by intros st ->.
  - intros Hall. unfold Menu.main. fold started.
    destruct (run_menu_no_stop fmt1 (Menu.svc_get_status view clock)
                (Menu.svc_stop joined) answers breaks (started, 0%nat) [] Hall)
      as (oc & n & more & rest & -> & Hoc).
    rewrite calls_svc. by exists oc, (n + 0)%nat, ([] ++ more), rest.
Qed.

Lemma main_stops_the_service_witness :
  let started := Service.start (Service.new Menu.main_cfg) in
  let view := fun _ : nat => (Service.initial_status, true) in
  let joined := Service.Joined Service.initial_status in
  (exists k out,
     Menu.main Fmt.Zdecimal view Z.of_nat joined
       ([Menu.Typed "1"; Menu.Typed "2"] ++ Menu.Typed "3" :: []) [30%nat]
     = (Menu.Returned, (Service.stop started joined, k), out, [])
     /\ Service._stop (Service.stop started joined) = true
     /\ Service._running (Service.locked (Service.stop started joined)) = false
     /\ Service.spawned (Service.stop started joined) = 1%nat
     /\ (forall st, joined = Service.Joined st ->
           Service.is_running (Service.stop started joined) = false))
  /\ (exists oc k out rest,
        Menu.main Fmt.Zdecimal view Z.of_nat joined
          [Menu.Typed "1"; Menu.Eof] [30%nat]
        = (oc, (started, k), out, rest)
        /\ oc <> Menu.Returned
        /\ Service._stop started = false
        /\ Service.is_running started = true).
Proof.
  intros started view joined.
  destruct (main_stops_the_service Fmt.Zdecimal view Z.of_nat joined
              [Menu.Typed "1"; Menu.Typed "2"] [] [Menu.Typed "1"; Menu.Eof]
              "3" [30%nat]) as [H1 H2].
  split.
  - apply H1; [reflexivity|reflexivity|vm_compute; lia].
  - apply H2. reflexivity.
Defined.

(** X18. A [stop()] whose join times out leaves the worker alive:
    [is_running()] and the snapshot still say running although
    [_running] has been cleared, and a [start()] that follows does
    nothing, so that no second worker is started and the stop event
    stays set for the old one. After a [stop()] that joined the worker,
    [start()] starts one new worker with the stop event cleared, and the
    locked fields, the counters among them, are the ones the old worker
    left. *)
Theorem stop_timeout_blocks_restart (self : Service.PinLoggingService)
  (s : Service.Status) (now : Z) :
  Service.is_running self = true ->
  (let t := Service.stop self (Service.TimedOut s) in
   Service.is_running t = true
   /\ Service.running (Service.get_status t now) = true
   /\ Service._running (Service.locked t) = false
   /\ Service.start t = t
   /\ Service._stop (Service.start t) = true
   /\ Service.spawned (Service.start t) = Service.spawned self)
  /\ (let d := Service.stop self (Service.Joined s) in
      Service.is_running d = false
      /\ Service.running (Service.get_status d now) = false
      /\ Service.is_running (Service.start d) = true
      /\ Service._stop (Service.start d) = false
      /\ Service.spawned (Service.start d) = S (Service.spawned self)
      /\ Service.locked (Service.start d) = Service.set_running false s
      /\ Service.samples_written (Service.get_status (Service.start d) now)
         = Service._samples_written s).
Proof.
  intros Hrun. destruct self as [c st [[alive]|] l n]; [|discriminate].
  cbn in Hrun. subst alive. split.
  - cbn. split_and!; reflexivity.
  - cbn. split_and!; reflexivity.
Qed.

Lemma stop_timeout_blocks_restart_witness :
  let self := Service.start (Service.new Menu.main_cfg) in
  let t := Service.stop self (Service.TimedOut Service.initial_status) in
  Service.is_running self = true
  /\ Service.start t = t
  /\ Service._stop (Service.start t) = true.
Proof.
  intros self t.
  destruct (stop_timeout_blocks_restart self Service.initial_status 0 eq_refl)
    as [(_ & _ & _ & H1 & H2 & _) _].
  split; [reflexivity|]. split; [exact H1|exact H2].
Defined.

